(** * A shallow embedding of the Track client agent (dist/index.esm.js)

  The agent wraps host callbacks, keeps a bounded telemetry log, and
  turns failures into reports that pass a dedupe / throttle gate before
  they are handed to a self-disabling transmitter.

  The development follows the layout of the bundle:
  - [JS]           the fragment of JavaScript values the agent touches;
  - [Util]         the helper object [c] (truncate, wrapError, isError, ...);
  - [Log]          the prototype [x] (the bounded event log), over a store
                   of arrays and objects so that aliasing is visible;
  - [Transmitter]  the prototype [t] (throttle, sendError, ...);
  - [Transport]    the host calls under [sendError], with what they throw;
  - [Tracker]      the prototype [C] (onError, onFault);
  - [Callback]     the prototype [u] (wrap) and calls of wrapped functions;
  - [Events], [Network], [Window], [Console]  the patched listeners,
                   requests, rejections and console methods;
  - [Metadata], [Pub], [Config]  the metadata store, the public [track]
                   and [attempt], and [validate].

  Clock readings ([new Date().getTime()]), generated keys ([uuid()]) and
  captured stack texts are inputs of the operations that use them; a
  time stamp ([isoNow()]) is the clock reading itself. *)

From Stdlib Require Import ZArith Ascii Lia Bool.
From stdpp Require Import gmap strings list.

Set Warnings "-register-all".

Open Scope string_scope.
Open Scope list_scope.
Open Scope Z_scope.

(* ===================================================================== *)
(** ** JavaScript values *)
(* ===================================================================== *)

Module JS.

(** Identity of a function object (an index in the function heap). *)
Abbreviation ref := nat (only parsing).

(** What [Object.prototype.toString] reports for an object. *)
Inductive objclass := ClsObject | ClsError | ClsDOMException.

(** Values.  Numbers are the integers; an object is its class tag and what
    its property reads return ([name] of an [Error] included). *)
Inductive value :=
| VUndef
| VNull
| VBool (b : bool)
| VNum (n : Z)
| VStr (s : string)
| VFun (r : ref)
| VObj (cls : objclass) (fields : list (string * value)).

(** The result of running a function body. *)
Inductive outcome :=
| Return (v : value)
| Throw (v : value).

Fixpoint assoc (k : string) (l : list (string * value)) : value :=
  match l with
  | [] => VUndef
  | (k', v) :: t => if String.eqb k k' then v else assoc k t
  end.

(** [o.k]: reading a property.  Primitives and functions carry none of the
    properties the agent reads from thrown values. *)
Definition get (v : value) (k : string) : value :=
  match v with
  | VObj _ fs => assoc k fs
  | _ => VUndef
  end.

(** [o.k = v] on a field list: overwrite in place or append. *)
Fixpoint set_field (k : string) (v : value) (l : list (string * value))
  : list (string * value) :=
  match l with
  | [] => [(k, v)]
  | (k', v') :: t =>
      if String.eqb k k' then (k, v) :: t else (k', v') :: set_field k v t
  end.

(** ToBoolean. *)
Definition truthy (v : value) : bool :=
  match v with
  | VUndef | VNull => false
  | VBool b => b
  | VNum n => negb (Z.eqb n 0)
  | VStr s => negb (String.eqb s "")
  | VFun _ | VObj _ _ => true
  end.

(** [x || y]. *)
Definition or (x y : value) : value := if truthy x then x else y.

(** Decimal digits of a natural number, most significant first. *)
Definition digit (n : N) : ascii := ascii_of_N (48 + n).

Fixpoint digits_go (fuel : nat) (n : N) (acc : string) : string :=
  let acc' := String (digit (n mod 10)) acc in
  match fuel with
  | O => acc'
  | S f => if (n <? 10)%N then acc' else digits_go f (n / 10)%N acc'
  end.

Definition decimalN (n : N) : string :=
  digits_go (N.to_nat (N.log2 n)) n "".

Definition decimal (n : Z) : string :=
  if n <? 0 then "-" +:+ decimalN (Z.to_N (- n)) else decimalN (Z.to_N n).

(** ToString.  [Error.prototype.toString] is spelled out; the source text
    of a function is not modelled. *)
Fixpoint to_string (v : value) : string :=
  match v with
  | VUndef => "undefined"
  | VNull => "null"
  | VBool true => "true"
  | VBool false => "false"
  | VNum n => decimal n
  | VStr s => s
  | VFun _ => "function () { [native code] }"
  | VObj ClsObject _ => "[object Object]"
  | VObj _ fs =>
      let fix field (k dflt : string) (l : list (string * value)) : string :=
        match l with
        | [] => dflt
        | (k', x) :: t =>
            if String.eqb k k'
            then match x with VUndef => dflt | _ => to_string x end
            else field k dflt t
        end in
      let name := field "name" "Error" fs in
      let msg := field "message" "" fs in
      if String.eqb name "" then msg
      else if String.eqb msg "" then name
      else name +:+ ": " +:+ msg
  end.

(** [Object.prototype.toString.call(v)]. *)
Definition class_string (v : value) : string :=
  match v with
  | VUndef => "[object Undefined]"
  | VNull => "[object Null]"
  | VBool _ => "[object Boolean]"
  | VNum _ => "[object Number]"
  | VStr _ => "[object String]"
  | VFun _ => "[object Function]"
  | VObj ClsObject _ => "[object Object]"
  | VObj ClsError _ => "[object Error]"
  | VObj ClsDOMException _ => "[object DOMException]"
  end.

(** [s.length] as a number. *)
Definition len (s : string) : Z := Z.of_nat (String.length s).

(** [s.substr(0, n)]. *)
Definition substr0 (n : Z) (s : string) : string :=
  String.substring 0 (Z.to_nat n) s.

(** [-1 !== s.indexOf(sub)]. *)
Definition contains (s sub : string) : bool :=
  match String.index 0 sub s with
  | Some _ => true
  | None => false
  end.

End JS.

Import JS.

(* ===================================================================== *)
(** ** The helper object [c] *)
(* ===================================================================== *)

Module Util.

(** [c.isObject]. *)
Definition isObject (a : value) : bool :=
  match a with
  | VObj _ _ => true
  | _ => false
  end.

(** [c.isString], for primitive strings. *)
Definition isString (a : value) : bool :=
  match a with
  | VStr _ => true
  | _ => false
  end.

(** [c.isFunction]. *)
Definition isFunction (a : value) : bool :=
  match a with
  | VFun _ => true
  | _ => false
  end.

(** [c.isError]. *)
Definition isError (a : value) : bool :=
  match a with
  | VObj ClsError _ | VObj ClsDOMException _ => true
  | VObj ClsObject _ => isString (get a "name") && isString (get a "message")
  | _ => false
  end.

(** [c.truncate(a, b)]. *)
Definition truncate (a : value) (b : Z) : string :=
  let a := to_string a in
  if len a <=? b then a
  else substr0 b a +:+ "...{" +:+ decimal (len a - b) +:+ "}".

(** [c.wrapError(a)]. *)
Definition wrapError (a : value) : value :=
  let b := or a (VStr (class_string a)) in
  if truthy b && truthy (get b "innerError") then a
  else
    VObj ClsError
      [ ("name", VStr "Error");
        ("message", VStr ("Track Caught: " +:+ to_string (or (get b "message") b)));
        ("description", VStr ("Track Caught: " +:+ to_string (get b "description")));
        ("file", get b "file");
        ("line", or (get b "line") (get b "lineNumber"));
        ("column", or (get b "column") (get b "columnNumber"));
        ("stack", get b "stack");
        ("innerError", a) ].

End Util.

(* ===================================================================== *)
(** ** The bounded event log (prototype [x]) *)
(* ===================================================================== *)

Module Log.

(** A location in the store. *)
Abbreviation loc := nat (only parsing).

(** One element of [appender]: [{ key, category, value }], where [value]
    is a reference to the object the caller handed to [add]. *)
Record entry := Entry { key : string; category : string; value : loc }.

(** Store cells: an object, an array of object references (what [all]
    returns), or an [appender] array. *)
Inductive cell :=
| CObj (fields : list (string * JS.value))
| CArr (items : list loc)
| CAppender (entries : list entry).

Abbreviation store := (list cell) (only parsing).

(** [this.appender] is a reference; [truncate] rebinds it. *)
Record t := Make { appender : loc; maxLength : Z }.

Definition alloc (c : cell) (st : store) : loc * store :=
  (length st, st ++ [c]).

Definition entries (st : store) (l : loc) : list entry :=
  match st !! l with
  | Some (CAppender es) => es
  | _ => []
  end.

Definition items (st : store) (l : loc) : list loc :=
  match st !! l with
  | Some (CArr xs) => xs
  | _ => []
  end.

Definition fields (st : store) (l : loc) : list (string * JS.value) :=
  match st !! l with
  | Some (CObj fs) => fs
  | _ => []
  end.

(** [new x(util)]. *)
Definition new (st : store) : t * store :=
  let '(a, st') := alloc (CAppender []) st in
  (Make a 30, st').

(** [all(a)]: a fresh array holding the [value] references of category
    [a], in [appender] order. *)
Definition all (a : string) (lg : t) (st : store) : loc * store :=
  let b := map value
             (filter (fun d => category d = a) (entries st (appender lg))) in
  alloc (CArr b) st.

(** [clear()]: [this.appender.length = 0], in place. *)
Definition clear (lg : t) (st : store) : store :=
  <[appender lg := CAppender []]> st.

(** [truncate()]: past [maxLength], [appender] becomes a fresh slice. *)
Definition truncate (lg : t) (st : store) : t * store :=
  let es := entries st (appender lg) in
  let n := Z.of_nat (length es) in
  if maxLength lg <? n
  then
    let '(a, st') :=
      alloc (CAppender (drop (Z.to_nat (Z.max (n - maxLength lg) 0)) es)) st in
    (Make a (maxLength lg), st')
  else (lg, st).

(** [add(a, b)], with [d] the key drawn by [uuid()]. *)
Definition add (d : string) (a : string) (b : loc) (lg : t) (st : store)
  : string * t * store :=
  let st1 :=
    <[appender lg := CAppender (entries st (appender lg) ++ [Entry d a b])]> st in
  let '(lg', st2) := truncate lg st1 in
  (d, lg', st2).

(** [get(a, b)]: the first match, or [false] (here [None]). *)
Definition get (a b : string) (lg : t) (st : store) : option loc :=
  value <$> List.find (fun d => bool_decide (category d = a) && bool_decide (key d = b))
                      (entries st (appender lg)).

End Log.

(* ===================================================================== *)
(** ** The host environment [g] *)
(* ===================================================================== *)

Module Host.

(** What the agent asks of its host.  [serialize] stands for the default
    serializer [q.prototype.defaults.serialize]. *)
Record t := Make {
  hasJSON : bool;            (* g.JSON && g.JSON.stringify *)
  isBrowser : bool;          (* c.isBrowser *)
  isWorker : bool;           (* c.isWorker *)
  corsRequest : bool;        (* getCORSRequest returns a request object *)
  browserSupported : bool;   (* c.isBrowserSupported() *)
  serialize : value -> string
}.

End Host.

(* ===================================================================== *)
(** ** Writers of the log: console and network watchers *)
(* ===================================================================== *)

Module Watchers.

(** The [log.add('c', ...)] of [wrapConsoleObject]: the message is the
    serializer's text for the logged value, stored as it is.  [d] is the
    key drawn by [uuid()]. *)
Definition consoleLog (serialize : value -> string) (d : string) (now : Z)
    (severity : string) (arg : value) (lg : Log.t) (st : Log.store)
  : Log.t * Log.store :=
  let '(o, st1) :=
    Log.alloc (Log.CObj [ ("timestamp", VNum now);
                          ("severity", VStr severity);
                          ("message", VStr (serialize arg)) ]) st in
  let '(_, lg', st2) := Log.add d "c" o lg st1 in
  (lg', st2).

(** The [log.add('n', ...)] of the patched [send]: a started request. *)
Definition networkStart (d : string) (now : Z) (method url : string)
    (lg : Log.t) (st : Log.store) : string * Log.t * Log.store :=
  let '(o, st1) :=
    Log.alloc (Log.CObj [ ("type", VStr "xhr");
                          ("startedOn", VNum now);
                          ("method", VStr method);
                          ("url", VStr (Util.truncate (VStr url) 2000)) ]) st in
  Log.add d "n" o lg st1.

(** [finalizeNetworkEvent]: the entry found by [get] is completed in
    place; a request whose entry is gone is left alone.  The correlation
    header of the response is left out. *)
Definition finalizeNetworkEvent (logId : string) (now : Z) (status : Z)
    (statusText : string) (lg : Log.t) (st : Log.store) : Log.store :=
  match Log.get "n" logId lg st with
  | Some b =>
      let fs := Log.fields st b in
      let fs := set_field "completedOn" (VNum now) fs in
      let fs := set_field "statusCode"
                  (VNum (if status =? 1223 then 204 else status)) fs in
      let fs := set_field "statusText"
                  (VStr (if status =? 1223 then "No Content" else statusText)) fs in
      <[b := Log.CObj fs]> st
  | None => st
  end.

End Watchers.

(* ===================================================================== *)
(** ** The transmitter (prototype [t]) *)
(* ===================================================================== *)

Module Transmitter.

Record t := Make {
  disabled : bool;
  attemptCount : Z;
  throttledCount : Z;
  lastAttempt : Z
}.

(** [new t(util, config)] at clock reading [now]. *)
Definition new (g : Host.t) (now : Z) : t :=
  Make (negb (Host.hasJSON g)) 0 0 now.

(** [throttle(a)] at clock reading [b].  [annotate n a] is
    [a.throttled = n]. *)
Definition throttle {A : Type} (annotate : Z -> A -> A) (a : A) (b : Z) (tx : t)
  : bool * A * t :=
  let n := attemptCount tx + 1 in
  if lastAttempt tx + 1000 >=? b then
    if 10 <? n
    then (true, a, Make (disabled tx) n (throttledCount tx + 1) b)
    else (false, a, Make (disabled tx) n (throttledCount tx) b)
  else (false, annotate (throttledCount tx) a, Make (disabled tx) 0 0 b).

(** How a call of [sendError] ends. *)
Inductive sent :=
| Posted        (* a request left the agent *)
| NotSent       (* disabled, throttled, or no transport for this platform *)
| Failed (h : value).  (* the transport threw; [h] is rethrown *)

(** The [TypeError] of [e.onreadystatechange = ...] on a null request. *)
Definition nullRequest : value :=
  VObj ClsError
    [ ("name", VStr "TypeError");
      ("message", VStr "Cannot set properties of null") ].

(** [sendError(a, b)] at clock reading [now], on a host whose transport
    calls return: the request constructor, [open], [JSON.stringify],
    [send] and [fetch] do not throw, so that the one exception of the
    [try] block is the [TypeError] of a null request.  [Transport.sendError]
    below has the other exceptions. *)
Definition sendError {A : Type} (annotate : Z -> A -> A) (g : Host.t)
    (a : A) (now : Z) (tx : t) : sent * A * t :=
  if disabled tx then (NotSent, a, tx)
  else
    let '(thr, a', tx') := throttle annotate a now tx in
    if thr then (NotSent, a', tx')
    else if Host.isBrowser g then
      if Host.corsRequest g then (Posted, a', tx')
      else (Failed nullRequest, a',
            Make true (attemptCount tx') (throttledCount tx') (lastAttempt tx'))
    else if Host.isWorker g then (Posted, a', tx')
    else (NotSent, a', tx').

(** The [onreadystatechange] handler installed by [sendError]. *)
Definition onreadystatechange (readyState status : Z) (tx : t) : t :=
  if negb (readyState =? 4) || bool_decide (status ∈ [200; 202]) then tx
  else Make true (attemptCount tx) (throttledCount tx) (lastAttempt tx).

(** The [then] handler of the worker's [fetch]. *)
Definition fetchThen (ok : bool) (tx : t) : t :=
  if ok then tx
  else Make true (attemptCount tx) (throttledCount tx) (lastAttempt tx).

(** The [catch] handler of the worker's [fetch]. *)
Definition fetchCatch (tx : t) : t :=
  Make true (attemptCount tx) (throttledCount tx) (lastAttempt tx).

(** The transport's answer to an earlier [sendError] reaches the agent. *)
Inductive response :=
| ReadyState (readyState status : Z)   (* browser: onreadystatechange *)
| FetchThen (ok : bool)                (* worker: fetch resolved *)
| FetchCatch.                          (* worker: fetch rejected *)

Definition respond (r : response) (tx : t) : t :=
  match r with
  | ReadyState rs status => onreadystatechange rs status tx
  | FetchThen ok => fetchThen ok tx
  | FetchCatch => fetchCatch tx
  end.

(** [sendTrackerFault(a)]: throttled like errors, but not gated by
    [disabled]; true when a beacon left. *)
Definition sendTrackerFault {A : Type} (annotate : Z -> A -> A) (a : A)
    (now : Z) (tx : t) : bool * A * t :=
  let '(thr, a', tx') := throttle annotate a now tx in
  (negb thr, a', tx').

End Transmitter.

(* ===================================================================== *)
(** ** The transport under [sendError] *)
(* ===================================================================== *)

Module Transport.

(** What the calls that [sendError] makes on its host do: each field is
    the value the call throws, when it throws.  [patched] tells whether
    the network watcher has put its own [send] on the prototype of the
    request ([watchNetworkObject], on by default). *)
Record t := Make {
  request : option value;    (* the request constructor, [open] or
                                [setRequestHeader]; in a worker, [fetch] *)
  stringify : option value;  (* [g.JSON.stringify(a)] *)
  send : option value;       (* the native [send] of the request *)
  patched : bool
}.

(** A transport whose calls all return. *)
Definition returning (patched : bool) : t := Make None None None patched.

(** How the [try] block of [sendError] ends. *)
Inductive result :=
| Posted             (* a request left the agent *)
| NotSent            (* disabled, throttled, or no transport for this platform *)
| Failed (h : value)     (* [h] was thrown in the block *)
| Swallowed (h : value). (* the native [send] threw [h] inside the patched
                            [send], which caught it, called
                            [onError('ajax', h)] and returned *)

(** [e.send(...)] on a request whose [_trackJs] was cleared: the patched
    [send] runs the native one inside its own [try]. *)
Definition sending (tr : t) : result :=
  match send tr with
  | Some h => if patched tr then Swallowed h else Failed h
  | None => Posted
  end.

(** The [try] block of [sendError]. *)
Definition transmit (g : Host.t) (tr : t) : result :=
  if Host.isBrowser g then
    if Host.corsRequest g then
      match request tr with
      | Some h => Failed h
      | None =>
          match stringify tr with
          | Some h => Failed h
          | None => sending tr
          end
      end
    else Failed Transmitter.nullRequest
  else if Host.isWorker g then
    match stringify tr with
    | Some h => Failed h
    | None =>
        match request tr with
        | Some h => Failed h
        | None => Posted
        end
    end
  else NotSent.

(** [sendError(a, b)] at clock reading [now]: what the block throws sets
    [disabled] on its way out ([catch (h) { throw ((this.disabled = !0), h) }]). *)
Definition sendError {A : Type} (annotate : Z -> A -> A) (g : Host.t) (tr : t)
    (a : A) (now : Z) (tx : Transmitter.t) : result * A * Transmitter.t :=
  if Transmitter.disabled tx then (NotSent, a, tx)
  else
    let '(thr, a', tx') := Transmitter.throttle annotate a now tx in
    if thr then (NotSent, a', tx')
    else
      match transmit g tr with
      | Failed h =>
          (Failed h, a',
           Transmitter.Make true (Transmitter.attemptCount tx')
                            (Transmitter.throttledCount tx') (Transmitter.lastAttempt tx'))
      | r => (r, a', tx')
      end.

(** The ending of [Transmitter.sendError] among these. *)
Definition ofSent (r : Transmitter.sent) : result :=
  match r with
  | Transmitter.Posted => Posted
  | Transmitter.NotSent => NotSent
  | Transmitter.Failed h => Failed h
  end.

End Transport.

(* ===================================================================== *)
(** ** The tracker (prototype [C]): onError and onFault *)
(* ===================================================================== *)

Module Tracker.

(** The third argument of [onError]. *)
Record meta := Meta { m_bindStack : value; m_bindTime : value; force : bool }.

(** [f || { bindStack: null, bindTime: null, force: !1 }]. *)
Definition metaOrDefault (f : option meta) : meta :=
  match f with
  | Some m => m
  | None => Meta VNull VNull false
  end.

(** The payload object [h].  Its telemetry fields are references to the
    arrays returned by [log.all]; [throttled] is absent until [throttle]
    writes it.  The blocks of the customer, environment and metadata
    collaborators are left out. *)
Record payload := Payload {
  agentPlatform : string;
  bindStack : value;
  bindTime : value;
  column : value;
  console : Log.loc;
  entry : string;
  file : value;
  line : value;
  message : string;
  nav : Log.loc;
  network : Log.loc;
  stack : value;
  timestamp : Z;
  visitor : Log.loc;
  version : string;
  throttled : option Z
}.

(** [a.throttled = n]. *)
Definition annotate (n : Z) (h : payload) : payload :=
  Payload (agentPlatform h) (bindStack h) (bindTime h) (column h) (console h)
          (entry h) (file h) (line h) (message h) (nav h) (network h)
          (stack h) (timestamp h) (visitor h) (version h) (Some n).

(** What a reader of [h] sees (the user hook, [JSON.stringify]): the
    arrays and their objects are read through the store. *)
Record wire := Wire {
  w_entry : string;
  w_message : string;
  w_stack : value;
  w_bindStack : value;
  w_bindTime : value;
  w_file : value;
  w_line : value;
  w_column : value;
  w_console : list (list (string * value));
  w_nav : list (list (string * value));
  w_network : list (list (string * value));
  w_visitor : list (list (string * value));
  w_timestamp : Z;
  w_throttled : option Z
}.

Definition deref (st : Log.store) (a : Log.loc) : list (list (string * value)) :=
  map (Log.fields st) (Log.items st a).

Definition view (st : Log.store) (h : payload) : wire :=
  Wire (entry h) (message h) (stack h) (bindStack h) (bindTime h)
       (file h) (line h) (column h)
       (deref st (console h)) (deref st (nav h))
       (deref st (network h)) (deref st (visitor h))
       (timestamp h) (throttled h).

(** How a call of the user hook [config.current.onError(h, e)] ends. *)
Inductive hooked :=
| HReturn (r : value)
| HThrow (m : value).

(** [config.current]: the options the error path reads.  The hook and the
    serializer are the user's; they read their arguments and do not write
    them, and the serializer returns a string (it does not throw). *)
Record config := Config {
  dedupe : bool;
  hook : wire -> value -> hooked;
  serialize : value -> string
}.

(** Work handed to [setTimeout]. *)
Inductive task :=
| TForced (m : value)     (* l.onError('catch', m, { force: !0 }) *)
| TResetGuard.            (* b = !1 *)

(** What leaves the agent, and the hook calls, in order. *)
Inductive event :=
| EvHook (h : wire) (e : value)
| EvSend (h : wire) (token : string)
| EvFault (msg : value) (suppressed : option Z).

Record state := State {
  host : Host.t;
  hasInstalled : bool;
  hasEnabled : bool;
  cfg : config;
  token : string;               (* this.customer.token *)
  log : Log.t;
  st : Log.store;
  lastFingerprint : option string;   (* the closure variable [a] *)
  reporting : bool;                  (* the closure variable [b] *)
  transmitter : Transmitter.t;
  timers : list task;
  trace : list event
}.

Definition set_store (x : Log.store) (s : state) : state :=
  State (host s) (hasInstalled s) (hasEnabled s) (cfg s) (token s) (log s) x
        (lastFingerprint s) (reporting s) (transmitter s) (timers s) (trace s).

Definition set_log (x : Log.t) (s : state) : state :=
  State (host s) (hasInstalled s) (hasEnabled s) (cfg s) (token s) x (st s)
        (lastFingerprint s) (reporting s) (transmitter s) (timers s) (trace s).

Definition set_lastFingerprint (x : option string) (s : state) : state :=
  State (host s) (hasInstalled s) (hasEnabled s) (cfg s) (token s) (log s) (st s)
        x (reporting s) (transmitter s) (timers s) (trace s).

Definition set_reporting (x : bool) (s : state) : state :=
  State (host s) (hasInstalled s) (hasEnabled s) (cfg s) (token s) (log s) (st s)
        (lastFingerprint s) x (transmitter s) (timers s) (trace s).

Definition set_transmitter (x : Transmitter.t) (s : state) : state :=
  State (host s) (hasInstalled s) (hasEnabled s) (cfg s) (token s) (log s) (st s)
        (lastFingerprint s) (reporting s) x (timers s) (trace s).

Definition defer (x : task) (s : state) : state :=
  State (host s) (hasInstalled s) (hasEnabled s) (cfg s) (token s) (log s) (st s)
        (lastFingerprint s) (reporting s) (transmitter s) (timers s ++ [x]) (trace s).

Definition emit (x : event) (s : state) : state :=
  State (host s) (hasInstalled s) (hasEnabled s) (cfg s) (token s) (log s) (st s)
        (lastFingerprint s) (reporting s) (transmitter s) (timers s) (trace s ++ [x]).

(** The state [install] leaves behind on a supported, enabled host. *)
Definition installed (g : Host.t) (c : config) (tok : string) (now : Z) : state :=
  let '(lg, st0) := Log.new [] in
  State g true true c tok lg st0 None false (Transmitter.new g now) [] [].

(** [this.serialize(a, b)]. *)
Definition serializeWith (a : value) (b : bool) (s : state) : string :=
  if hasInstalled s && negb b then serialize (cfg s) a
  else Host.serialize (host s) a.

(** [onFault(a)] at clock reading [now]. *)
Definition onFault (a : value) (now : Z) (s : state) : state :=
  let a := JS.or a (VObj ClsObject []) in
  let msg := JS.or (get a "message") (VStr "unknown") in
  let '(beacon, ann, tx) :=
    Transmitter.sendTrackerFault (fun n (_ : option Z) => Some n) None now
                                 (transmitter s) in
  let s := set_transmitter tx s in
  if beacon then emit (EvFault msg ann) s else s.

(** A [TypeError] raised by the agent's own code. *)
Definition typeError (what : string) : value :=
  VObj ClsError [ ("name", VStr "TypeError"); ("message", VStr what) ].

(** The console budget test [a()] of the anonymous function in [onError]:
    the sum of [(a.message || '').length] against [8e4].  A message that
    is neither a string nor falsy has no numeric [length]; the sum is then
    [NaN] (here [None]) and the comparison false. *)
Definition messageLength (fs : list (string * value)) : option Z :=
  match JS.or (assoc "message" fs) (VStr "") with
  | VStr m => Some (len m)
  | _ => None
  end.

Fixpoint totalLength (l : list (list (string * value))) : option Z :=
  match l with
  | [] => Some 0
  | fs :: t =>
      match messageLength fs, totalLength t with
      | Some x, Some y => Some (x + y)
      | _, _ => None
      end
  end.

Definition overBudget (st : Log.store) (ca : Log.loc) : bool :=
  match totalLength (deref st ca) with
  | Some b => 80000 <=? b
  | None => false
  end.

(** [h.console[b].message = c.truncate(h.console[b].message, 1e3)]. *)
Definition truncateAt (b : nat) (ca : Log.loc) (st : Log.store) : Log.store :=
  match Log.items st ca !! b with
  | Some o =>
      let fs := Log.fields st o in
      <[o := Log.CObj
               (set_field "message"
                  (VStr (Util.truncate (assoc "message" fs) 1000)) fs)]> st
  | None => st
  end.

(** [for (b = 0; a() && b < h.console.length; ) ..., b++], with [n] the
    elements still ahead of [b]. *)
Fixpoint capLoop (n : nat) (b : nat) (ca : Log.loc) (st : Log.store) : Log.store :=
  match n with
  | O => st
  | S n' =>
      if overBudget st ca && (b <? length (Log.items st ca))%nat
      then capLoop n' (S b) ca (truncateAt b ca st)
      else st
  end.

Definition capConsole (ca : Log.loc) (st : Log.store) : Log.store :=
  capLoop (length (Log.items st ca)) 0 ca st.

(** The tail of [onError] once the hook has let the payload through:
    dedupe, console cap, [log.clear()], guard flag, [sendError]. *)
Definition dispatch (h : payload) (now : Z) (s : state) : state :=
  let k := substr0 10000 (message h +:+ to_string (stack h)) in
  if dedupe (cfg s) && bool_decide (lastFingerprint s = Some k) then s
  else
    let s := if dedupe (cfg s) then set_lastFingerprint (Some k) s else s in
    let s := set_store (capConsole (console h) (st s)) s in
    let s := set_store (Log.clear (log s) (st s)) s in
    let s := defer TResetGuard s in
    let s := set_reporting true s in
    let '(r, h', tx) :=
      Transmitter.sendError annotate (host s) h now (transmitter s) in
    let s := set_transmitter tx s in
    match r with
    | Transmitter.Posted => emit (EvSend (view (st s) h') (token s)) s
    | Transmitter.NotSent => s
    | Transmitter.Failed x => onFault x now s
    end.

(** The error the report is about: [e] itself when it has the shape of
    an error, else [{ name: 'Error', message: this.serialize(e, f.force) }]. *)
Definition normalize (e : value) (f : meta) (s : state) : value :=
  if truthy e && Util.isError e then e
  else VObj ClsObject [ ("name", VStr "Error");
                        ("message", VStr (serializeWith e (force f) s)) ].

(** The payload literal handed to [c.defaultsDeep({}, ...)]: the four
    [report()] calls take their snapshots of the log in the order
    console, navigation, network, visitor. *)
Definition assemble (d : string) (e : value) (msg : string) (f : meta)
    (now : Z) (s : state) : payload * state :=
  let '(ca, st1) := Log.all "c" (log s) (st s) in
  let '(ha, st2) := Log.all "h" (log s) st1 in
  let '(na, st3) := Log.all "n" (log s) st2 in
  let '(va, st4) := Log.all "v" (log s) st3 in
  (Payload (if Host.isBrowser (host s) then "browser" else "worker")
           (m_bindStack f) (m_bindTime f)
           (JS.or (get e "column") (get e "columnNumber"))
           ca d
           (JS.or (get e "file") (get e "fileName"))
           (JS.or (get e "line") (get e "lineNumber"))
           msg ha na (get e "stack") now va "1.2.0" None,
   set_store st4 s).

(** [if (!f.force) try { if (!hook(h, e)) return; } catch (m) { ... }],
    and then the rest of the function. *)
Definition consult (h : payload) (e : value) (f : meta) (now : Z) (s : state)
  : state :=
  if force f then dispatch h now s
  else
    let w := view (st s) h in
    let s := emit (EvHook w e) s in
    match hook (cfg s) w e with
    | HReturn r => if truthy r then dispatch h now s else s
    | HThrow m =>
        match m with
        | VUndef | VNull =>
            onFault (typeError "Cannot read properties of undefined") now s
        | _ =>
            let '(o, st5) :=
              Log.alloc (Log.CObj [ ("timestamp", VNum now);
                                    ("severity", VStr "error");
                                    ("message", get m "message") ])
                        (st s) in
            let st6 :=
              <[console h := Log.CArr (Log.items st5 (console h) ++ [o])]> st5 in
            dispatch h now (defer (TForced m) (set_store st6 s))
        end
    end.

(** [onError(d, e, f)] at clock reading [now]. *)
Definition onError (d : string) (e : value) (f : option meta) (now : Z)
    (s : state) : state :=
  if hasInstalled s && hasEnabled s && Host.browserSupported (host s) then
    let f := metaOrDefault f in
    let e := normalize e f s in
    match get e "message" with
    | VStr msg =>
        if negb (contains msg "Track Caught") then
          if reporting s && contains msg "Script error"
          then set_reporting false s
          else
            let '(h, s) := assemble d e msg f now s in
            consult h e f now s
        else s
    | _ => onFault (typeError "e.message.indexOf is not a function") now s
    end
  else s.

(** One [setTimeout] callback runs. *)
Definition runTimer (now : Z) (s : state) : state :=
  match timers s with
  | [] => s
  | x :: rest =>
      let s :=
        State (host s) (hasInstalled s) (hasEnabled s) (cfg s) (token s) (log s)
              (st s) (lastFingerprint s) (reporting s) (transmitter s) rest
              (trace s) in
      match x with
      | TForced m => onError "catch" m (Some (Meta VUndef VUndef true)) now s
      | TResetGuard => set_reporting false s
      end
  end.

(** The transport's answer to an earlier report reaches the agent. *)
Definition onResponse (r : Transmitter.response) (s : state) : state :=
  set_transmitter (Transmitter.respond r (transmitter s)) s.

End Tracker.

(* ===================================================================== *)
(** ** The callback watcher (prototype [u]): wrap *)
(* ===================================================================== *)

Module Callback.

(** What runs when a function object is called: a body of the host
    application, or the closure [b] that [wrap] builds around [a] with the
    bind time [e] and bind stack [f] it captured. *)
Inductive code :=
| Native (body : value -> list value -> outcome)
| Wrapper (a : ref) (e f : value).

(** A function object: its code, its own properties (value, enumerable)
    and its [prototype] property.  The own properties are data properties
    and the object is extensible. *)
Record funobj := FunObj {
  run : code;
  own : gmap string (value * bool);
  prototype : value
}.

Abbreviation heap := (list funobj) (only parsing).

(** [c.hasOwn(a, k)] on a function object. *)
Definition hasOwn (o : funobj) (k : string) : bool :=
  bool_decide (is_Some (own o !! k)).

(** [a.k] for an own property. *)
Definition read (o : funobj) (k : string) : value :=
  match own o !! k with
  | Some (v, _) => v
  | None => VUndef
  end.

(** [o.k = v]: an assigned property is enumerable. *)
Definition assign (k : string) (v : value) (o : funobj) : funobj :=
  FunObj (run o) (<[k := (v, true)]> (own o)) (prototype o).

(** What [for (var h in a) c.hasOwn(a, h) && (b[h] = a[h])] copies: the
    enumerable own properties of [a]. *)
Definition copyOwn (a : funobj) : gmap string (value * bool) :=
  filter (fun kv => snd (snd kv) = true) (own a).

(** [k] is an enumerable own property of [a]. *)
Definition enumerable (a : funobj) (k : string) : bool :=
  match own a !! k with
  | Some (_, true) => true
  | _ => false
  end.

(** The names that cannot be assigned on the closure [b]: its own [name]
    and [length] are not writable, and [caller] and [arguments] are
    accessors of [Function.prototype] whose setter throws. *)
Definition unwritable : list string :=
  [ "name"; "length"; "caller"; "arguments" ].

(** Whether the copy loop runs to its end.  The bundle is module code and
    so strict: [b[h] = a[h]] for an [unwritable] name throws. *)
Definition copies (a : funobj) : bool :=
  forallb (fun k => negb (enumerable a k)) unwritable.

(** The [TypeError] of such an assignment. *)
Definition readOnly : value :=
  Tracker.typeError "Cannot assign to read only property".

(** The closure [b] of [wrap(a)] after the loop, [b.prototype = a.prototype]
    and [b.__trackjs__ = !0]: it owns the [name] and [length] every
    function is created with (both not enumerable), the enumerable own
    properties of [a], and the mark. *)
Definition closure (r : ref) (e f : value) (o : funobj) : funobj :=
  assign "__trackjs__" (VBool true)
    (FunObj (Wrapper r e f)
            (<["name" := (VStr "b", false)]>
               (<["length" := (VNum 0, false)]> (copyOwn o)))
            (prototype o)).

(** [wrap(a)], with [bindStack] the option [config.bindStack], and [stack]
    and [now] what [Error().stack] and the clock give at this call.  The
    copy loop is outside the [try] of [wrap]: what it throws leaves
    [wrap], and [a] is not touched. *)
Definition wrap (bindStack : bool) (stack : string) (now : Z) (a : value)
    (fh : heap) : outcome * heap :=
  match a with
  | VFun r =>
      match fh !! r with
      | Some o =>
          if hasOwn o "__trackjs__" then (Return a, fh)
          else if hasOwn o "__trackjs_state__"
          then (Return (read o "__trackjs_state__"), fh)
          else if copies o then
            let e := if bindStack then VNum now else VUndef in
            let f := if bindStack then VStr stack else VUndef in
            let rb := length fh in
            (Return (VFun rb),
             <[r := assign "__trackjs_state__" (VFun rb) o]> (fh ++ [closure r e f o]))
          else (Throw readOnly, fh)
      | None => (Return a, fh)
      end
  | _ => (Return a, fh)
  end.

(** The [TypeError] of calling something that is not a function; the
    text of its message is the engine's. *)
Definition notCallable : value :=
  VObj ClsError [ ("name", VStr "TypeError");
                  ("message", VStr "is not a function") ].

(** Running the function object [r] with receiver [this] and arguments
    [args] at clock reading [now].  A wrapper runs [a.apply(this,
    arguments)]; [apply] is that of [Function.prototype] unless [a] has
    one of its own, which the model does not run ([None]).  [n] bounds
    the nesting of wrappers, which never exceeds the size of the heap. *)
Fixpoint invokeAt (n : nat) (fh : heap) (r : ref) (this : value)
    (args : list value) (now : Z) (s : Tracker.state)
  : option (outcome * Tracker.state) :=
  match n with
  | O => None
  | S n' =>
      match fh !! r with
      | None => None
      | Some o =>
          match run o with
          | Native body => Some (body this args, s)
          | Wrapper a e f =>
              match fh !! a with
              | None => None
              | Some oa =>
                  if hasOwn oa "apply" then None
                  else
                    match invokeAt n' fh a this args now s with
                    | Some (Return v, s') => Some (Return v, s')
                    | Some (Throw x, s') =>
                        Some (Throw (Util.wrapError x),
                              Tracker.onError "catch" x
                                (Some (Tracker.Meta f e false)) now s')
                    | None => None
                    end
              end
          end
      end
  end.

(** [v(...args)] with receiver [this]. *)
Definition invoke (fh : heap) (v : value) (this : value) (args : list value)
    (now : Z) (s : Tracker.state) : option (outcome * Tracker.state) :=
  match v with
  | VFun r => invokeAt (S (length fh)) fh r this args now s
  | _ => Some (Throw notCallable, s)
  end.

(** [v.apply(this, args)].  A function without an [apply] of its own is
    run; an object whose [apply] is a function has that function called,
    which the model does not do ([None]); for anything else the call
    throws a [TypeError]. *)
Definition call (fh : heap) (v : value) (this : value) (args : list value)
    (now : Z) (s : Tracker.state) : option (outcome * Tracker.state) :=
  match v with
  | VFun r =>
      match fh !! r with
      | Some o => if hasOwn o "apply" then None else invoke fh v this args now s
      | None => None
      end
  | VObj _ fs =>
      match assoc "apply" fs with
      | VFun _ => None
      | _ => Some (Throw notCallable, s)
      end
  | _ => Some (Throw notCallable, s)
  end.

End Callback.

(* ===================================================================== *)
(** ** Object helpers of [c]: keys and defaults *)
(* ===================================================================== *)

Module Objects.

(** [Object.prototype.hasOwnProperty] on a field list. *)
Definition hasField (k : string) (fs : list (string * value)) : bool :=
  bool_decide (k ∈ map fst fs).

(** [c.keys(a)]: the own enumerable keys of an object, none for anything
    else.  The field list of a plain object is exactly that; the agent
    calls [keys] on object literals only. *)
Definition keys (a : value) : list string :=
  match a with
  | VObj _ fs => map fst fs
  | _ => []
  end.

(** One step of the inner loop of the helper [a(d, e, f, h)] with [f]
    false: a null or undefined source value is written over the target,
    any other one only where the target has no such property. *)
Definition defaultKey (e : value) (d : list (string * value)) (c : string)
  : list (string * value) :=
  match get e c with
  | VNull | VUndef => set_field c (get e c) d
  | v => if hasField c d then d else set_field c v d
  end.

(** [c.defaults(d, e1, e2, ...)]. *)
Definition defaults (d : list (string * value)) (es : list value)
  : list (string * value) :=
  fold_left (fun d e => fold_left (defaultKey e) (keys e) d) es d.

End Objects.

(* ===================================================================== *)
(** ** Event targets: the patched addEventListener / removeEventListener *)
(* ===================================================================== *)

Module Events.

(** [f.k], for a function object read from the heap. *)
Definition prop (fh : Callback.heap) (f : value) (k : string) : value :=
  match f with
  | VFun r =>
      match fh !! r with
      | Some o => Callback.read o k
      | None => VUndef
      end
  | _ => get f k
  end.

(** What the patched [addEventListener] does before it calls the native
    one: [handleEvent] of the listener is wrapped in place when there is
    one (inside a [try] whose [catch] is empty), and the listener itself
    goes through [wrap], outside any [try].  [Return w]: the native
    method is called with [w]; [Throw x]: the patched method throws [x]
    and the native one is not called. *)
Definition added (bs : bool) (stk : string) (now : Z) (f : value)
    (fh : Callback.heap) : outcome * Callback.heap :=
  if truthy (prop fh f "handleEvent") then
    match Callback.wrap bs stk now (prop fh f "handleEvent") fh with
    | (Return w, fh1) =>
        match f with
        | VFun r =>
            match fh1 !! r with
            | Some o =>
                Callback.wrap bs stk now f
                  (<[r := Callback.assign "handleEvent" w o]> fh1)
            | None => Callback.wrap bs stk now f fh1
            end
        | VObj cls l =>
            Callback.wrap bs stk now (VObj cls (set_field "handleEvent" w l)) fh1
        | _ => Callback.wrap bs stk now f fh1
        end
    | (Throw _, _) => Callback.wrap bs stk now f fh
    end
  else Callback.wrap bs stk now f fh.

(** The listener that the patched [removeEventListener] hands to the
    native one: [f && (f.__trackjs_state__ || f)]. *)
Definition removed (f : value) (fh : Callback.heap) : value :=
  if truthy f then JS.or (prop fh f "__trackjs_state__") f else f.

End Events.

(* ===================================================================== *)
(** ** The network watcher (prototype [z]) *)
(* ===================================================================== *)

Module Network.

(** [s.replace(/c/g, rep)] for a single character [c]. *)
Fixpoint replaceChar (c : ascii) (rep : string) (s : string) : string :=
  match s with
  | EmptyString => EmptyString
  | String x t =>
      if Ascii.eqb x c then rep +:+ replaceChar c rep t
      else String x (replaceChar c rep t)
  end.

(** [escapeUrl(a)]: spaces become %20 and tabs %09. *)
Definition escapeUrl (a : value) : string :=
  replaceChar "009"%char "%09" (replaceChar " "%char "%20" (to_string a)).

(** The [log.add('n', ...)] of the patched [fetch]: a started request. *)
Definition fetchStart (d : string) (now : Z) (method : string) (url : value)
    (lg : Log.t) (st : Log.store) : string * Log.t * Log.store :=
  let '(o, st1) :=
    Log.alloc (Log.CObj [ ("type", VStr "fetch");
                          ("startedOn", VNum now);
                          ("method", VStr method);
                          ("url", VStr (Util.truncate (VStr (escapeUrl url)) 2000)) ])
              st in
  Log.add d "n" o lg st1.

(** The [Error(...)] of the [then] handler, with the stack [k] captured
    when [fetch] was called. *)
Definition statusError (fs : list (string * value)) (k : string) : value :=
  VObj ClsError
    [ ("name", VStr "Error");
      ("message", VStr (to_string (assoc "statusCode" fs) +:+ " : "
                        +:+ to_string (assoc "method" fs) +:+ " "
                        +:+ to_string (assoc "url" fs)));
      ("stack", VStr k) ].

(** The [then] handler of the patched [fetch], for the request logged
    under [logId]: [status], [statusText] and [header] are read from the
    response, [reportErrors] is the option [network.error]. *)
Definition fetchThen (reportErrors : bool) (logId : string) (k : string)
    (status : Z) (statusText : string) (header : value) (now : Z)
    (s : Tracker.state) : Tracker.state :=
  match Log.get "n" logId (Tracker.log s) (Tracker.st s) with
  | Some o =>
      let fs :=
        Objects.defaults (Log.fields (Tracker.st s) o)
          [ VObj ClsObject [ ("completedOn", VNum now);
                             ("statusCode", VNum status);
                             ("statusText", VStr statusText) ] ] in
      let fs := if truthy header then set_field "requestCorrelationId" header fs
                else fs in
      let s := Tracker.set_store (<[o := Log.CObj fs]> (Tracker.st s)) s in
      if reportErrors && (400 <=? status)
      then Tracker.onError "ajax" (statusError fs k) None now s
      else s
  | None => s
  end.

(** [a.__trackjs_state__ = !0] in the [catch] handler: a property of an
    object or of a function object is set; on a primitive the assignment
    throws (module code is strict), and that [TypeError] is what leaves
    the handler. *)
Definition markReported (a : value) (fh : Callback.heap) : value * Callback.heap :=
  match a with
  | VObj cls l => (VObj cls (set_field "__trackjs_state__" (VBool true) l), fh)
  | VFun r =>
      match fh !! r with
      | Some o => (a, <[r := Callback.assign "__trackjs_state__" (VBool true) o]> fh)
      | None => (a, fh)
      end
  | _ => (Tracker.typeError "Cannot create property '__trackjs_state__'", fh)
  end.

(** The [catch] handler of the patched [fetch]: what it throws (the
    rejection [a], marked when it has been reported), the function heap
    and the tracker afterwards. *)
Definition fetchCatch (reportErrors : bool) (logId : string) (k : string)
    (a : value) (now : Z) (fh : Callback.heap) (s : Tracker.state)
  : value * Callback.heap * Tracker.state :=
  let a := JS.or a (VObj ClsObject []) in
  match Log.get "n" logId (Tracker.log s) (Tracker.st s) with
  | Some o =>
      let fs :=
        Objects.defaults (Log.fields (Tracker.st s) o)
          [ VObj ClsObject [ ("completedOn", VNum now);
                             ("statusCode", VNum 0);
                             ("statusText", VStr (to_string a)) ] ] in
      let s := Tracker.set_store (<[o := Log.CObj fs]> (Tracker.st s)) s in
      if reportErrors then
        let e :=
          VObj ClsObject
            [ ("name", Events.prop fh a "name");
              ("message",
               VStr (to_string (JS.or (Events.prop fh a "message") (VStr "Failed"))
                     +:+ ": " +:+ to_string (assoc "method" fs) +:+ " "
                     +:+ to_string (assoc "url" fs)));
              ("stack", JS.or (Events.prop fh a "stack") (VStr k)) ] in
        let s := Tracker.onError "ajax" e None now s in
        let '(a', fh') := markReported a fh in
        (a', fh', s)
      else (a, fh, s)
  | None => (a, fh, s)
  end.

(** [checkNetworkFault(a)] for a request opened with [method] and [url]
    (both undefined when the request was not tracked). *)
Definition checkNetworkFault (reportErrors : bool) (status : Z)
    (method url : value) (now : Z) (s : Tracker.state) : Tracker.state :=
  if reportErrors && (400 <=? status) && negb (status =? 1223)
  then Tracker.onError "ajax"
         (VStr (decimal status +:+ " : " +:+ to_string method +:+ " "
                +:+ to_string url)) None now s
  else s.

(** The [load] listener of a tracked request:
    [finalizeNetworkEvent(a); checkNetworkFault(a)]. *)
Definition onLoad (reportErrors : bool) (logId : string) (status : Z)
    (statusText : string) (method url : value) (now : Z) (s : Tracker.state)
  : Tracker.state :=
  let st' :=
    Watchers.finalizeNetworkEvent logId now status statusText
      (Tracker.log s) (Tracker.st s) in
  checkNetworkFault reportErrors status method url now (Tracker.set_store st' s).

End Network.

(* ===================================================================== *)
(** ** The window watcher (prototype [B]): unhandled rejections *)
(* ===================================================================== *)

Module Window.

(** The [unhandledrejection] listener, for the rejection reason [e];
    [stk] is the stack of the [Error] made for a reason that is not an
    error.  Nothing in the listener throws on the values modelled, so its
    [onFault] branch is not reached. *)
Definition onUnhandledRejection (fh : Callback.heap) (e : value)
    (stk : string) (now : Z) (s : Tracker.state) : Tracker.state :=
  match e with
  | VUndef | VNull => s
  | _ =>
      if truthy (Events.prop fh e "__trackjs_state__") then s
      else
        let e :=
          if Util.isError e then e
          else VObj ClsError
                 [ ("name", VStr "Error");
                   ("message", VStr (Tracker.serializeWith e false s));
                   ("stack", VStr stk) ] in
        Tracker.onError "promise" e None now s
  end.

End Window.

(* ===================================================================== *)
(** ** The metadata store [D] *)
(* ===================================================================== *)

Module Metadata.

(** The object [b]: a plain object made by the literal, with its own
    properties (a map: the order in which [report] enumerates them is not
    modelled), and whether its prototype is still [Object.prototype]. *)
Record store := Store {
  own : gmap string value;
  plain : bool
}.

(** The [{}] a new store starts from. *)
Definition empty : store := Store ∅ true.

(** [b[a] = e].  The key [__proto__] names the accessor of
    [Object.prototype]: the assignment creates no property; it replaces
    the prototype of [b] when [e] is an object or null and does nothing
    otherwise. *)
Definition addMetadata (a : string) (e : value) (b : store) : store :=
  if String.eqb a "__proto__" then
    match e with
    | VObj _ _ | VFun _ | VNull => Store (own b) false
    | _ => b
    end
  else Store (<[a := e]> (own b)) (plain b).

(** [delete b[a]]. *)
Definition removeMetadata (a : string) (b : store) : store :=
  Store (delete a (own b)) (plain b).

(** The [TypeError] of [b.hasOwnProperty(e)] when that property holds
    something that is not a function. *)
Definition notCallable : value :=
  VObj ClsError [ ("name", VStr "TypeError");
                  ("message", VStr "b.hasOwnProperty is not a function") ].

(** [report()]: one [{ key, value }] per own property, the value
    serialized.  The loop calls [b.hasOwnProperty], which a property of
    that name shadows: [Throw] when it then holds no function.  [None]
    where the loop runs what the model does not have: a function stored
    under [hasOwnProperty], or a replaced prototype. *)
Definition report (serialize : value -> string) (b : store)
  : option (list (string * string) + value) :=
  if negb (plain b) then None
  else
    match own b !! "hasOwnProperty" with
    | Some (VFun _) => None
    | Some _ => Some (inr notCallable)
    | None =>
        Some (inl (map (fun kv => (fst kv, serialize (snd kv))) (map_to_list (own b))))
    end.

End Metadata.

(* ===================================================================== *)
(** ** The console watcher (prototype [r]): a watched console method *)
(* ===================================================================== *)

Module Console.

(** The function that [wrapConsoleObject] puts in place of [console[f]],
    called with the one argument [arg]: the call is logged; when the
    option [console[f]] (here [report]) is set it is also reported, the
    argument itself when it is an error, else an [Error] made of its
    serialized text, whose stack is [stk].  [d] is the key drawn by
    [uuid()].  Calling the original method is left out, and so are calls
    with several arguments. *)
Definition call (report : bool) (f : string) (arg : value) (d : string)
    (stk : string) (now : Z) (s : Tracker.state) : Tracker.state :=
  let '(lg, st) :=
    Watchers.consoleLog (fun a => Tracker.serializeWith a false s) d now f arg
                        (Tracker.log s) (Tracker.st s) in
  let s1 := Tracker.set_store st (Tracker.set_log lg s) in
  if report then
    if Util.isError arg then Tracker.onError "console" arg None now s1
    else Tracker.onError "console"
           (VObj ClsError [ ("name", VStr "Error");
                            ("message", VStr (Tracker.serializeWith arg false s1));
                            ("stack", VStr stk) ])
           None now s1
  else s1.

End Console.

(* ===================================================================== *)
(** ** The public object: track *)
(* ===================================================================== *)

Module Pub.

(** The message of [Error(e)]: empty for [undefined], else [ToString]. *)
Definition errorMessage (e : value) : string :=
  match e with
  | VUndef => ""
  | _ => to_string e
  end.

(** [warn(a)]: [console.warn('Track: ' + a)].  [install] puts the console
    watcher in place before it checks the browser, so that the method
    can be a watched one on an agent that is not installed: [watched] is
    then the option [console.warn] of the watcher, [d] the key its log
    entry draws and [stk] the stack of the [Error] it makes.  A method
    that is not watched only prints. *)
Definition warn (watched : option bool) (a : string) (d stk : string)
    (now : Z) (s : Tracker.state) : Tracker.state :=
  match watched with
  | Some report => Console.call report "warn" (VStr ("Track: " +:+ a)) d stk now s
  | None => s
  end.

(** [track(b)]; [stk] is the stack of the [Error] made for a value
    without one.  An agent that is enabled but not installed only warns. *)
Definition track (watched : option bool) (d : string) (b : value)
    (stk : string) (now : Z) (s : Tracker.state) : Tracker.state :=
  if negb (Tracker.hasInstalled s) && Tracker.hasEnabled s
  then warn watched "agent must be installed" d stk now s
  else
    let e := if Util.isError b then get b "message"
             else VStr (Tracker.serializeWith b false s) in
    let b := JS.or b (VObj ClsObject []) in
    let b := if truthy (get b "stack") then b
             else VObj ClsError [ ("name", VStr "Error");
                                  ("message", VStr (errorMessage e));
                                  ("stack", VStr stk) ] in
    Tracker.onError "direct" b None now s.

(** [attempt(b, e, ...args)], and the call of the function that
    [watch(b, e)] returns: [b.apply] is called with the receiver and the
    arguments; what it throws is handed to [onError], with no bind
    context, and rethrown wrapped. *)
Definition attempt (fh : Callback.heap) (b : value) (this : value)
    (args : list value) (now : Z) (s : Tracker.state)
  : option (outcome * Tracker.state) :=
  match Callback.call fh b this args now s with
  | Some (Return v, s') => Some (Return v, s')
  | Some (Throw g, s') =>
      Some (Throw (Util.wrapError g), Tracker.onError "catch" g None now s')
  | None => None
  end.

End Pub.

(* ===================================================================== *)
(** ** The configuration (prototype [q]): validate *)
(* ===================================================================== *)

Module Config.

(** [typeof v]. *)
Definition typeof (v : value) : string :=
  match v with
  | VUndef => "undefined"
  | VNull | VObj _ _ => "object"
  | VBool _ => "boolean"
  | VNum _ => "number"
  | VStr _ => "string"
  | VFun _ => "function"
  end.

(** [v.hasOwnProperty(c)] where it does not throw: the fields of an
    object; a boolean or a number has none (the table of init-only
    options holds booleans and objects). *)
Definition hasOwn (v : value) (c : string) : bool :=
  match v with
  | VObj _ fs => Objects.hasField c fs
  | _ => false
  end.

(** One turn of the loop of [validate] for the own property [c] of [a],
    whose value is [v]; [f] is the verdict so far, [nested] the recursive
    call.  [None] stands for the [TypeError] of [b.hasOwnProperty] on
    null or undefined. *)
Definition check (nested : value -> value -> value -> option bool)
    (b e : value) (f : option bool) (cv : string * value) : option bool :=
  match f with
  | None => None
  | Some f =>
      match b with
      | VUndef | VNull => None
      | _ =>
          if hasOwn b (fst cv) then
            if negb (String.eqb (typeof (get b (fst cv))) (typeof (snd cv)))
            then Some false
            else if String.eqb (class_string (snd cv)) "[object Object]"
            then nested (snd cv) (get b (fst cv)) (get e (fst cv))
            else if hasOwn e (fst cv) then Some false else Some f
          else Some false
      end
  end.

(** The own enumerable properties of a string: its characters, under
    their indices. *)
Definition indexed (s : string) : list (string * value) :=
  imap (fun i ch => (decimal (Z.of_nat i), VStr (String ch EmptyString)))
       (String.list_ascii_of_string s).

(** [validate(a, b, d, e)]: the config [a] against the defaults [b] and
    the init-only table [e]; the warnings are left out.  The loop visits
    the own enumerable properties of [a]: the fields of a plain object,
    the characters of a string, nothing for another primitive.  For an
    object of another class and for a function the values do not tell
    which properties these are (the fields of an [Error] are what its
    reads return, inherited and hidden ones included): [None] there.
    Arrays are not among the values, so the [validateArray] branch is not
    taken; a character is no object, so the loop over a string makes no
    nested call. *)
Fixpoint validate (a : value) (b e : value) : option bool :=
  match a with
  | VObj ClsObject fs =>
      fold_left (check (fun v b' e' => validate v b' e')
                       b (JS.or e (VObj ClsObject [])))
                fs (Some true)
  | VObj _ _ | VFun _ => None
  | VStr s =>
      fold_left (check (fun _ _ _ => None) b (JS.or e (VObj ClsObject [])))
                (indexed s) (Some true)
  | _ => Some true
  end.

End Config.

(* ===================================================================== *)
(** * Properties *)
(* ===================================================================== *)

(** ** Values: the printed forms the agent relies on *)

Example decimal_digits :
  decimal 0 = "0" /\ decimal 1234567890 = "1234567890" /\ decimal (-42) = "-42".
Proof. repeat split; reflexivity. Qed.

Example error_to_string :
  to_string (VObj ClsError [ ("name", VStr "TypeError"); ("message", VStr "x is null") ])
  = "TypeError: x is null".
Proof. reflexivity. Qed.

Example truncate_marks_elision :
  Util.truncate (VStr "abcdefghij") 4 = "abcd...{6}"
  /\ Util.truncate (VStr "abcd") 4 = "abcd"
  /\ Util.truncate VUndef 4 = "unde...{5}".
Proof. repeat split; reflexivity. Qed.

Example wrapError_of_string :
  Util.wrapError (VStr "boom")
  = VObj ClsError
      [ ("name", VStr "Error");
        ("message", VStr "Track Caught: boom");
        ("description", VStr "Track Caught: undefined");
        ("file", VUndef); ("line", VUndef); ("column", VUndef);
        ("stack", VUndef); ("innerError", VStr "boom") ]
  /\ Util.wrapError (Util.wrapError (VStr "boom")) = Util.wrapError (VStr "boom")
  /\ get (Util.wrapError VUndef) "message" = VStr "Track Caught: [object Undefined]".
Proof. repeat split; reflexivity. Qed.

(** ** The bounded log *)

(** A run of [add] calls, oldest first; each call comes with the key that
    [uuid()] draws for it. *)
Definition adds (ops : list Log.entry) (x : Log.t * Log.store)
  : Log.t * Log.store :=
  fold_left
    (fun x op =>
       let '(_, lg, st) :=
         Log.add (Log.key op) (Log.category op) (Log.value op) (fst x) (snd x) in
       (lg, st))
    ops x.

(** The newest [n] elements of a list. *)
Definition newest {A : Type} (n : nat) (l : list A) : list A :=
  drop (length l - n)%nat l.

(** The log's representation invariant: [appender] refers to an array
    holding [es]. *)
Definition holds (x : Log.t * Log.store) (es : list Log.entry) : Prop :=
  snd x !! Log.appender (fst x) = Some (Log.CAppender es).

Lemma lookup_alloc {A : Type} (l : list A) (c : A) :
  (l ++ [c]) !! length l = Some c.
Proof. now apply list_lookup_middle. Qed.

Lemma newest_length {A : Type} (n : nat) (l : list A) :
  (length (newest n l) <= n)%nat.
Proof. unfold newest. rewrite length_drop. lia. Qed.

Lemma newest_snoc {A : Type} (n : nat) (l : list A) (x : A) :
  newest n (newest n l ++ [x]) = newest n (l ++ [x]).
Proof.
  unfold newest. rewrite !length_app, length_drop. simpl.
  rewrite !skipn_app, drop_drop, length_drop.
  f_equal; f_equal; lia.
Qed.

Lemma newest_all {A : Type} (n : nat) (l : list A) :
  (length l <= n)%nat -> newest n l = l.
Proof. intros H. unfold newest. now replace (length l - n)%nat with 0%nat by lia. Qed.

Lemma holds_entries x es : holds x es -> Log.entries (snd x) (Log.appender (fst x)) = es.
Proof. unfold holds, Log.entries. now intros ->. Qed.

Lemma holds_new st0 : holds (Log.new st0) [] /\ Log.maxLength (fst (Log.new st0)) = 30.
Proof.
  unfold holds, Log.new, Log.alloc. simpl. split; [| reflexivity].
  apply lookup_alloc.
Qed.

(** One [add] keeps the newest [maxLength] entries. *)
Lemma holds_add d a b lg st es :
  holds (lg, st) es -> Log.maxLength lg = 30 ->
  let '(k, lg', st') := Log.add d a b lg st in
  k = d /\ holds (lg', st') (newest 30 (es ++ [Log.Entry d a b]))
  /\ Log.maxLength lg' = 30.
Proof.
  unfold holds. simpl. intros H Hm.
  assert (Hlt : (Log.appender lg < length st)%nat) by (eapply lookup_lt_Some; eauto).
  assert (Hes : Log.entries st (Log.appender lg) = es)
    by (unfold Log.entries; now rewrite H).
  unfold Log.add, Log.truncate. rewrite Hes.
  assert (He : Log.entries
            (<[Log.appender lg := Log.CAppender (es ++ [Log.Entry d a b])]> st)
            (Log.appender lg) = es ++ [Log.Entry d a b]).
  { unfold Log.entries. now rewrite list_lookup_insert_eq by lia. }
  rewrite He, Hm.
  destruct (30 <? Z.of_nat (length (es ++ [Log.Entry d a b]))) eqn:Hc.
  - apply Z.ltb_lt in Hc. simpl. split; [reflexivity |]. split; [| reflexivity].
    rewrite lookup_alloc. unfold newest. do 3 f_equal. lia.
  - apply Z.ltb_ge in Hc. simpl. split; [reflexivity |]. split; [| assumption].
    rewrite list_lookup_insert_eq by lia. f_equal. f_equal.
    symmetry. apply newest_all. lia.
Qed.

Lemma adds_snoc ops op x :
  adds (ops ++ [op]) x =
  let '(_, lg, st) :=
    Log.add (Log.key op) (Log.category op) (Log.value op)
            (fst (adds ops x)) (snd (adds ops x)) in (lg, st).
Proof. unfold adds. now rewrite fold_left_app. Qed.

Lemma holds_adds ops st0 :
  holds (adds ops (Log.new st0)) (newest 30 ops)
  /\ Log.maxLength (fst (adds ops (Log.new st0))) = 30.
Proof.
  induction ops as [| op ops IH] using rev_ind.
  - apply holds_new.
  - destruct IH as [IH Hm]. rewrite adds_snoc.
    destruct (adds ops (Log.new st0)) as [lg st] eqn:E. simpl in *.
    pose proof (holds_add (Log.key op) (Log.category op) (Log.value op) lg st _ IH Hm) as H.
    destruct (Log.add _ _ _ lg st) as [[k lg'] st'].
    destruct H as (_ & H & Hm'). split; [| assumption].
    rewrite newest_snoc in H. now destruct op.
Qed.

Lemma all_items a lg st :
  Log.items (snd (Log.all a lg st)) (fst (Log.all a lg st)) =
  map Log.value (filter (fun d => Log.category d = a) (Log.entries st (Log.appender lg))).
Proof.
  unfold Log.all, Log.alloc, Log.items. simpl.
  now rewrite lookup_alloc.
Qed.

(** C3. After any run of [add] calls on a new log (default capacity 30),
    [appender] holds exactly the newest 30 of all entries added, whatever
    their categories, in the order they were added: at most 30 entries, the
    oldest evicted first; [all(category)] returns the values of the
    surviving entries of that category in insertion order.  [add] is a
    total function that returns the drawn key: overflow is not an error. *)
Theorem log_bounded_fifo (st0 : Log.store) (ops : list Log.entry) :
  let x := adds ops (Log.new st0) in
  let es := Log.entries (snd x) (Log.appender (fst x)) in
  es = drop (length ops - 30)%nat ops
  /\ (length es <= 30)%nat
  /\ (forall a,
        Log.items (snd (Log.all a (fst x) (snd x))) (fst (Log.all a (fst x) (snd x)))
        = map Log.value
            (filter (fun d => Log.category d = a) (drop (length ops - 30)%nat ops)))
  /\ (forall d a b,
        fst (fst (Log.add d a b (fst x) (snd x))) = d
        /\ Log.entries (snd (Log.add d a b (fst x) (snd x)))
                       (Log.appender (snd (fst (Log.add d a b (fst x) (snd x)))))
           = drop (length ops + 1 - 30)%nat (ops ++ [Log.Entry d a b])).
Proof.
  intros x es. destruct (holds_adds ops st0) as [H Hm]. fold x in H, Hm.
  assert (E : es = newest 30 ops) by (apply holds_entries, H).
  split; [exact E |]. split; [rewrite E; apply newest_length |]. split.
  - intros a. rewrite all_items. fold es. now rewrite E.
  - intros d a b. destruct x as [lg st]. simpl in *.
    pose proof (holds_add d a b lg st _ H Hm) as Ha.
    destruct (Log.add d a b lg st) as [[k lg'] st']. simpl.
    destruct Ha as (-> & Ha & _). split; [reflexivity |].
    pose proof (holds_entries (lg', st') _ Ha) as Hn. simpl in Hn.
    rewrite Hn, newest_snoc. unfold newest. now rewrite length_app.
Qed.

(** Thirty-one console entries on a new log: thirty come back, the
    oldest is gone. *)
Example log_31_entries :
  let x := adds (map (fun i => Log.Entry "k" "c" i) (seq 0 31)) (Log.new []) in
  Log.items (snd (Log.all "c" (fst x) (snd x))) (fst (Log.all "c" (fst x) (snd x)))
  = seq 1 30.
Proof. vm_compute. reflexivity. Qed.

(** ** Snapshots and aliasing *)

(** Later writes to the log: an [add] of a freshly built object (as the
    watchers do: [log.add(cat, { ... })]), with the evictions it causes,
    or a [clear]. *)
Inductive mutation :=
| MAdd (d a : string) (fs : list (string * value))
| MClear.

Definition mutate (x : Log.t * Log.store) (m : mutation) : Log.t * Log.store :=
  match m with
  | MAdd d a fs =>
      let '(o, st1) := Log.alloc (Log.CObj fs) (snd x) in
      let '(_, lg, st2) := Log.add d a o (fst x) st1 in
      (lg, st2)
  | MClear => (fst x, Log.clear (fst x) (snd x))
  end.

Definition mutations (ms : list mutation) (x : Log.t * Log.store)
  : Log.t * Log.store :=
  fold_left mutate ms x.

(** [st'] extends [st] and agrees with it outside the appender arrays. *)
Definition stable (st st' : Log.store) : Prop :=
  forall l c, st !! l = Some c -> (forall es, c <> Log.CAppender es) ->
              st' !! l = Some c.

Lemma stable_refl st : stable st st.
Proof. intros l c H _. exact H. Qed.

Lemma stable_trans st1 st2 st3 : stable st1 st2 -> stable st2 st3 -> stable st1 st3.
Proof. intros H1 H2 l c H Hc. apply H2, Hc. apply H1; assumption. Qed.

Lemma stable_alloc st c : stable st (st ++ [c]).
Proof. intros l c' H _. now apply lookup_app_l_Some. Qed.

Lemma stable_appender st l es es' :
  st !! l = Some (Log.CAppender es) -> stable st (<[l := Log.CAppender es']> st).
Proof.
  intros H l' c Hl Hc. destruct (decide (l = l')) as [<- | Hne].
  - rewrite H in Hl. injection Hl as <-. now destruct (Hc es).
  - now rewrite list_lookup_insert_ne.
Qed.

Lemma holds_alloc lg st es c : holds (lg, st) es -> holds (lg, st ++ [c]) es.
Proof. unfold holds. simpl. intros H. now apply lookup_app_l_Some. Qed.

Lemma stable_add d a b lg st es :
  holds (lg, st) es -> stable st (snd (Log.add d a b lg st)).
Proof.
  unfold holds. simpl. intros H.
  unfold Log.add, Log.truncate.
  match goal with
  | |- context [ if ?c then _ else _ ] => destruct c
  end; simpl.
  - eapply stable_trans; [eapply stable_appender, H | apply stable_alloc].
  - eapply stable_appender, H.
Qed.

Lemma mutate_keeps x es m :
  holds x es -> Log.maxLength (fst x) = 30 ->
  (exists es', holds (mutate x m) es')
  /\ Log.maxLength (fst (mutate x m)) = 30
  /\ stable (snd x) (snd (mutate x m)).
Proof.
  destruct x as [lg st]. intros H Hm. destruct m as [d a fs | ]; simpl.
  - pose proof (holds_alloc lg st es (Log.CObj fs) H) as H1.
    pose proof (holds_add d a (length st) lg _ _ H1 Hm) as H2.
    pose proof (stable_add d a (length st) lg _ _ H1) as H3.
    destruct (Log.add d a (length st) lg (st ++ [Log.CObj fs])) as [[k lg'] st'].
    destruct H2 as (_ & H2 & Hm'). simpl in *. split; [eauto |]. split; [assumption |].
    eapply stable_trans; [apply stable_alloc | exact H3].
  - unfold holds in *. simpl in *. split; [| split; [assumption |]].
    + exists []. unfold Log.clear. apply list_lookup_insert_eq.
      eapply lookup_lt_Some, H.
    + eapply stable_appender, H.
Qed.

Lemma mutations_keep ms : forall x es,
  holds x es -> Log.maxLength (fst x) = 30 ->
  stable (snd x) (snd (mutations ms x)).
Proof.
  induction ms as [| m ms IH]; intros x es H Hm; simpl.
  - apply stable_refl.
  - destruct (mutate_keeps x es m H Hm) as ((es' & H') & Hm' & Hs).
    eapply stable_trans; [exact Hs | eapply IH; eauto].
Qed.

(** C9, as the code has it.  [all(category)] returns a new array: on a
    log in its normal state (capacity 30), whatever is added, evicted or
    cleared afterwards, the array still holds the same references, no
    object of the store is rewritten by these operations, and so the
    snapshot reads the same.  The array shares its objects with the log;
    it is not a deep copy. *)
Theorem snapshot_survives_log_writes (lg : Log.t) (st : Log.store)
    (es : list Log.entry) (a : string) (ms : list mutation) :
  holds (lg, st) es -> Log.maxLength lg = 30 ->
  Forall (fun d => exists fs, st !! Log.value d = Some (Log.CObj fs)) es ->
  let snap := Log.all a lg st in
  let st' := snd (mutations ms (lg, snd snap)) in
  st' !! fst snap
    = Some (Log.CArr (map Log.value (filter (fun d => Log.category d = a) es)))
  /\ (forall o fs, snd snap !! o = Some (Log.CObj fs) -> st' !! o = Some (Log.CObj fs))
  /\ Tracker.deref st' (fst snap) = Tracker.deref (snd snap) (fst snap).
Proof.
  intros H Hm Hobj snap st'.
  assert (Hst : stable (snd snap) st').
  { eapply (mutations_keep ms (lg, snd snap) es); [| exact Hm].
    apply holds_alloc, H. }
  assert (Hes : Log.entries st (Log.appender lg) = es)
    by apply (holds_entries (lg, st) es H).
  assert (Ha : snd snap !! fst snap
               = Some (Log.CArr (map Log.value (filter (fun d => Log.category d = a) es)))).
  { unfold snap, Log.all, Log.alloc. simpl. rewrite lookup_alloc, Hes. reflexivity. }
  assert (Ha' : st' !! fst snap
               = Some (Log.CArr (map Log.value (filter (fun d => Log.category d = a) es))))
    by (apply Hst; [exact Ha | discriminate]).
  assert (Ho : forall o fs, snd snap !! o = Some (Log.CObj fs) -> st' !! o = Some (Log.CObj fs))
    by (intros o fs Ho; apply Hst; [exact Ho | discriminate]).
  split; [exact Ha' |]. split; [exact Ho |].
  unfold Tracker.deref, Log.items. rewrite Ha, Ha'.
  apply map_ext_in. intros o Hin.
  apply in_map_iff in Hin. destruct Hin as (d & <- & Hd).
  apply list_elem_of_In, list_elem_of_filter in Hd. destruct Hd as [_ Hd].
  rewrite Forall_forall in Hobj. destruct (Hobj d Hd) as (fs & Hfs).
  assert (Hs : snd snap !! Log.value d = Some (Log.CObj fs))
    by (unfold snap, Log.all, Log.alloc; simpl; now apply lookup_app_l_Some).
  unfold Log.fields. now rewrite (Ho _ _ Hs), Hs.
Qed.

(** A log holding one started request. *)
Definition oneRequest : Log.t * Log.store :=
  mutate (Log.new [])
         (MAdd "k1" "n" [ ("type", VStr "xhr"); ("startedOn", VNum 5);
                          ("method", VStr "GET"); ("url", VStr "/api") ]).

Lemma snapshot_survives_log_writes_witness :
  holds oneRequest [Log.Entry "k1" "n" 1]
  /\ Tracker.deref
       (snd (mutations [MAdd "k2" "c" [("message", VStr "hi")]; MClear]
                       (fst oneRequest, snd (Log.all "n" (fst oneRequest) (snd oneRequest)))))
       (fst (Log.all "n" (fst oneRequest) (snd oneRequest)))
     = [ [ ("type", VStr "xhr"); ("startedOn", VNum 5);
           ("method", VStr "GET"); ("url", VStr "/api") ] ].
Proof.
  split; [reflexivity |].
  refine (eq_trans
    (proj2 (proj2 (snapshot_survives_log_writes (fst oneRequest) (snd oneRequest)
       [Log.Entry "k1" "n" 1] "n"
       [MAdd "k2" "c" [("message", VStr "hi")]; MClear] _ _ _))) _).
  - reflexivity.
  - reflexivity.
  - repeat constructor. simpl. eexists. reflexivity.
  - reflexivity.
Defined.

(** C9, the claim as stated, fails: completing a started request through
    [get] rewrites the object that an earlier [all('n')] array refers to,
    so the snapshot taken before reads differently afterwards. *)
Lemma snapshot_sees_completion :
  let snap := Log.all "n" (fst oneRequest) (snd oneRequest) in
  let st' := Watchers.finalizeNetworkEvent "k1" 9 200 "OK" (fst oneRequest) (snd snap) in
  Tracker.deref (snd snap) (fst snap)
    = [ [ ("type", VStr "xhr"); ("startedOn", VNum 5);
          ("method", VStr "GET"); ("url", VStr "/api") ] ]
  /\ Tracker.deref st' (fst snap)
    = [ [ ("type", VStr "xhr"); ("startedOn", VNum 5);
          ("method", VStr "GET"); ("url", VStr "/api");
          ("completedOn", VNum 9); ("statusCode", VNum 200);
          ("statusText", VStr "OK") ] ]
  /\ Tracker.deref st' (fst snap) <> Tracker.deref (snd snap) (fst snap).
Proof.
  split; [reflexivity |]. split; [reflexivity |]. discriminate.
Qed.

(** ** The throttle *)

Section Throttle.

Context {A : Type} (annotate : Z -> A -> A) (a : A).

(** A host on which [sendError] has a transport. *)
Definition canPost (g : Host.t) : Prop :=
  Host.isBrowser g = true /\ Host.corsRequest g = true
  \/ Host.isBrowser g = false /\ Host.isWorker g = true.

(** 1 for a request that left, 0 otherwise. *)
Definition posted (r : Transmitter.sent) : Z :=
  match r with
  | Transmitter.Posted => 1
  | _ => 0
  end.

(** [sendError] at each of the clock readings [times] in turn: how many
    requests left, and the transmitter afterwards. *)
Fixpoint sendErrors (g : Host.t) (times : list Z) (tx : Transmitter.t)
  : Z * Transmitter.t :=
  match times with
  | [] => (0, tx)
  | b :: rest =>
      let '(r, _, tx') := Transmitter.sendError annotate g a b tx in
      let '(n, tx'') := sendErrors g rest tx' in
      (posted r + n, tx'')
  end.

(** Each reading is within 1000 ms of the attempt before it. *)
Fixpoint rolling (t0 : Z) (times : list Z) : Prop :=
  match times with
  | [] => True
  | b :: rest => b <= t0 + 1000 /\ rolling b rest
  end.

Lemma throttle_inside (b : Z) (tx : Transmitter.t) :
  b <= Transmitter.lastAttempt tx + 1000 ->
  Transmitter.throttle annotate a b tx =
  (10 <=? Transmitter.attemptCount tx, a,
   Transmitter.Make (Transmitter.disabled tx)
     (Transmitter.attemptCount tx + 1)
     (Transmitter.throttledCount tx
      + (if 10 <=? Transmitter.attemptCount tx then 1 else 0))
     b).
Proof.
  intros H. unfold Transmitter.throttle.
  destruct (Z.geb_spec (Transmitter.lastAttempt tx + 1000) b); [| lia].
  destruct (Z.ltb_spec 10 (Transmitter.attemptCount tx + 1)),
           (Z.leb_spec 10 (Transmitter.attemptCount tx)); try lia;
    repeat f_equal; lia.
Qed.

Lemma throttle_outside (b : Z) (tx : Transmitter.t) :
  Transmitter.lastAttempt tx + 1000 < b ->
  Transmitter.throttle annotate a b tx =
  (false, annotate (Transmitter.throttledCount tx) a,
   Transmitter.Make (Transmitter.disabled tx) 0 0 b).
Proof.
  intros H. unfold Transmitter.throttle.
  destruct (Z.geb_spec (Transmitter.lastAttempt tx + 1000) b); [lia | reflexivity].
Qed.

Lemma sendError_enabled (g : Host.t) (b : Z) (tx : Transmitter.t) :
  canPost g -> Transmitter.disabled tx = false ->
  Transmitter.sendError annotate g a b tx =
  let '(thr, a', tx') := Transmitter.throttle annotate a b tx in
  (if thr then Transmitter.NotSent else Transmitter.Posted, a', tx').
Proof.
  intros Hg Hd. unfold Transmitter.sendError. rewrite Hd.
  destruct (Transmitter.throttle annotate a b tx) as [[thr a'] tx'].
  destruct thr; [reflexivity |].
  destruct Hg as [[-> ->] | [-> ->]]; reflexivity.
Qed.

Lemma last_cons (b : Z) (rest : list Z) (d : Z) :
  List.last (b :: rest) d = List.last rest b.
Proof.
  revert b d. induction rest as [| z rest IH]; intros b d; [reflexivity |].
  change (List.last (b :: z :: rest) d) with (List.last (z :: rest) d).
  rewrite !IH. reflexivity.
Qed.

(** Within one rolling window the transmitter lets attempts through until
    [attemptCount] has reached 10 and counts the others. *)
Lemma sendErrors_rolling (g : Host.t) (times : list Z) :
  canPost g -> forall tx,
  Transmitter.disabled tx = false ->
  0 <= Transmitter.attemptCount tx ->
  rolling (Transmitter.lastAttempt tx) times ->
  let n := Z.of_nat (length times) in
  let sentN := Z.max 0 (Z.min n (10 - Transmitter.attemptCount tx)) in
  sendErrors g times tx =
  (sentN,
   Transmitter.Make false
     (Transmitter.attemptCount tx + n)
     (Transmitter.throttledCount tx + (n - sentN))
     (List.last times (Transmitter.lastAttempt tx))).
Proof.
  intros Hg. induction times as [| b rest IH]; intros tx Hd Hc Hr.
  - simpl. destruct tx as [d c k l]. simpl in *. subst d.
    repeat f_equal; lia.
  - destruct Hr as [Hb Hr]. cbn [sendErrors].
    rewrite sendError_enabled, throttle_inside by assumption.
    set (tx' := Transmitter.Make _ _ _ _).
    specialize (IH tx' Hd ltac:(simpl; lia) Hr).
    cbv zeta in IH. rewrite IH. subst tx'. cbv zeta.
    cbn [Transmitter.attemptCount Transmitter.throttledCount
         Transmitter.lastAttempt Transmitter.disabled].
    rewrite last_cons, length_cons, Nat2Z.inj_succ.
    destruct (Z.leb_spec 10 (Transmitter.attemptCount tx)); cbn [posted];
      (f_equal; [| f_equal]); lia.
Qed.

End Throttle.

Lemma rolling_take (t0 : Z) (times : list Z) (k : nat) :
  rolling t0 times -> rolling t0 (take k times).
Proof.
  revert t0 k. induction times as [| b rest IH]; intros t0 k H.
  - now rewrite take_nil.
  - destruct k as [| k]; [exact I |]. destruct H as [Hb H].
    simpl. split; [exact Hb | now apply IH].
Qed.

(** A browser with a working transport and a serializer that prints
    [ToString]. *)
Definition browser : Host.t :=
  Host.Make true true false true true to_string.

(** C4, as the code has it.  Inside the window (an attempt at most 1000 ms
    after the one before) every attempt increments [attemptCount] and is
    rejected and counted in [throttledCount] exactly when [attemptCount]
    had already reached 10; an attempt that comes later than that opens a
    new window: it passes, it is annotated with the [throttledCount] so
    far, and the counters restart at 0.  On a transmitter constructed at
    [t0], eleven attempts in one rolling window (the first within 1000 ms
    of [t0]) give exactly ten transmissions, the first ten, and one
    suppressed count, which the report opening the next window carries. *)
Theorem throttle_rolling_window {A : Type} (annotate : Z -> A -> A) (a : A)
    (g : Host.t) (t0 : Z) (times : list Z) (b : Z) :
  canPost g -> Host.hasJSON g = true ->
  length times = 11%nat -> rolling t0 times ->
  List.last times t0 + 1000 < b ->
  (forall tx c, c <= Transmitter.lastAttempt tx + 1000 ->
     Transmitter.throttle annotate a c tx =
     (10 <=? Transmitter.attemptCount tx, a,
      Transmitter.Make (Transmitter.disabled tx)
        (Transmitter.attemptCount tx + 1)
        (Transmitter.throttledCount tx
         + (if 10 <=? Transmitter.attemptCount tx then 1 else 0)) c))
  /\ (forall tx c, Transmitter.lastAttempt tx + 1000 < c ->
     Transmitter.throttle annotate a c tx =
     (false, annotate (Transmitter.throttledCount tx) a,
      Transmitter.Make (Transmitter.disabled tx) 0 0 c))
  /\ fst (sendErrors annotate a g (take 10 times) (Transmitter.new g t0)) = 10
  /\ fst (sendErrors annotate a g times (Transmitter.new g t0)) = 10
  /\ Transmitter.throttledCount
       (snd (sendErrors annotate a g times (Transmitter.new g t0))) = 1
  /\ Transmitter.sendError annotate g a b
       (snd (sendErrors annotate a g times (Transmitter.new g t0)))
     = (Transmitter.Posted, annotate 1 a, Transmitter.Make false 0 0 b).
Proof.
  intros Hg Hj Hn Hr Hb.
  split; [intros tx c; apply throttle_inside |].
  split; [intros tx c; apply throttle_outside |].
  assert (Hnew : Transmitter.disabled (Transmitter.new g t0) = false)
    by (unfold Transmitter.new; simpl; now rewrite Hj).
  pose proof (sendErrors_rolling annotate a g (take 10 times) Hg
                (Transmitter.new g t0) Hnew ltac:(simpl; lia)
                (rolling_take _ _ 10 Hr)) as H10.
  pose proof (sendErrors_rolling annotate a g times Hg
                (Transmitter.new g t0) Hnew ltac:(simpl; lia) Hr) as H11.
  cbv zeta in H10, H11. rewrite H10, H11.
  rewrite length_take, Hn. simpl. repeat split.
  rewrite sendError_enabled by (assumption || reflexivity).
  rewrite throttle_outside by (simpl; lia). reflexivity.
Qed.

Lemma throttle_rolling_window_witness :
  rolling 0 [100; 200; 300; 400; 500; 600; 700; 800; 900; 1000; 1100]
  /\ fst (sendErrors (fun n (_ : option Z) => Some n) None browser
            [100; 200; 300; 400; 500; 600; 700; 800; 900; 1000; 1100]
            (Transmitter.new browser 0)) = 10
  /\ Transmitter.sendError (fun n (_ : option Z) => Some n) browser None 2101
       (snd (sendErrors (fun n (_ : option Z) => Some n) None browser
               [100; 200; 300; 400; 500; 600; 700; 800; 900; 1000; 1100]
               (Transmitter.new browser 0)))
     = (Transmitter.Posted, Some 1, Transmitter.Make false 0 0 2101).
Proof.
  assert (Hr : rolling 0 [100; 200; 300; 400; 500; 600; 700; 800; 900; 1000; 1100])
    by (simpl; lia).
  split; [exact Hr |].
  pose proof (throttle_rolling_window (fun n (_ : option Z) => Some n) None browser 0
                [100; 200; 300; 400; 500; 600; 700; 800; 900; 1000; 1100] 2101
                (or_introl (conj eq_refl eq_refl)) eq_refl eq_refl Hr
                ltac:(simpl; lia)) as H.
  split; [exact (proj1 (proj2 (proj2 (proj2 H)))) |].
  exact (proj2 (proj2 (proj2 (proj2 (proj2 H))))).
Defined.

(** C4, the claim as stated, fails for a window that an attempt opens: the
    opening attempt is not counted ([attemptCount] restarts at 0 after it),
    so eleven attempts within eleven milliseconds, the first of them more
    than a second after the transmitter was built, are all transmitted
    and none is counted as suppressed. *)
Lemma throttle_opening_attempt_uncounted :
  let times := [5000; 5001; 5002; 5003; 5004; 5005; 5006; 5007; 5008; 5009; 5010] in
  let r := sendErrors (fun n (_ : option Z) => Some n) None browser times
                      (Transmitter.new browser 0) in
  rolling 5000 times
  /\ fst r = 11
  /\ fst r <> 10
  /\ Transmitter.throttledCount (snd r) = 0
  /\ Transmitter.attemptCount (snd r) = 10.
Proof.
  cbv zeta. split; [simpl; lia |].
  split; [reflexivity |]. split; [discriminate |]. split; reflexivity.
Qed.

(** ** The transmission channel *)

(** What can happen to a transmitter after it is built: a report is handed
    to [sendError], a fault to [sendTrackerFault], or the transport answers
    an earlier request. *)
Inductive txevent :=
| TxSendError (now : Z)
| TxFault (now : Z)
| TxResponse (r : Transmitter.response).

(** A completed request whose status is not 200 or 202, a [fetch] response
    that is not [ok], or a rejected [fetch]. *)
Definition failing (r : Transmitter.response) : Prop :=
  match r with
  | Transmitter.ReadyState rs status => rs = 4 /\ status <> 200 /\ status <> 202
  | Transmitter.FetchThen ok => ok = false
  | Transmitter.FetchCatch => True
  end.

Lemma respond_disabled (r : Transmitter.response) (tx : Transmitter.t) :
  Transmitter.disabled tx = true -> Transmitter.respond r tx = tx.
Proof.
  intros H. destruct tx as [d c k l]. simpl in H. subst d.
  destruct r as [rs status | ok | ]; simpl;
    unfold Transmitter.onreadystatechange, Transmitter.fetchThen, Transmitter.fetchCatch;
    simpl; repeat match goal with
                  | |- context [ if ?c then _ else _ ] => destruct c
                  end; reflexivity.
Qed.

Lemma respond_failing (r : Transmitter.response) (tx : Transmitter.t) :
  failing r -> Transmitter.disabled (Transmitter.respond r tx) = true.
Proof.
  destruct r as [rs status | ok | ]; simpl.
  - intros (-> & H1 & H2). unfold Transmitter.onreadystatechange. simpl.
    rewrite bool_decide_eq_false_2; [reflexivity |].
    rewrite !elem_of_cons, elem_of_nil. tauto.
  - now intros ->.
  - reflexivity.
Qed.

Section Channel.

Context {A : Type} (annotate : Z -> A -> A) (a : A) (g : Host.t).

(** The error reports that leave, and the transmitter afterwards. *)
Definition txStep (x : Z * Transmitter.t) (ev : txevent) : Z * Transmitter.t :=
  match ev with
  | TxSendError now =>
      let '(r, _, tx) := Transmitter.sendError annotate g a now (snd x) in
      (fst x + posted r, tx)
  | TxFault now =>
      let '(_, _, tx) := Transmitter.sendTrackerFault annotate a now (snd x) in
      (fst x, tx)
  | TxResponse r => (fst x, Transmitter.respond r (snd x))
  end.

Definition txRun (evs : list txevent) (x : Z * Transmitter.t) : Z * Transmitter.t :=
  fold_left txStep evs x.

Lemma sendError_disabled (now : Z) (tx : Transmitter.t) :
  Transmitter.disabled tx = true ->
  Transmitter.sendError annotate g a now tx = (Transmitter.NotSent, a, tx).
Proof. intros H. unfold Transmitter.sendError. now rewrite H. Qed.

Lemma throttle_disabled (now : Z) (tx : Transmitter.t) :
  Transmitter.disabled (snd (Transmitter.throttle annotate a now tx))
  = Transmitter.disabled tx.
Proof.
  unfold Transmitter.throttle.
  repeat match goal with
         | |- context [ if ?c then _ else _ ] => destruct c
         end; reflexivity.
Qed.

Lemma txStep_disabled (x : Z * Transmitter.t) (ev : txevent) :
  Transmitter.disabled (snd x) = true ->
  fst (txStep x ev) = fst x /\ Transmitter.disabled (snd (txStep x ev)) = true.
Proof.
  intros H. destruct ev as [now | now | r]; simpl.
  - rewrite sendError_disabled by assumption. simpl. split; [lia | assumption].
  - unfold Transmitter.sendTrackerFault.
    pose proof (throttle_disabled now (snd x)) as Ht.
    destruct (Transmitter.throttle annotate a now (snd x)) as [[thr a'] tx'].
    simpl in *. split; [reflexivity | congruence].
  - rewrite respond_disabled by assumption. split; [reflexivity | assumption].
Qed.

Lemma txRun_disabled (evs : list txevent) : forall x,
  Transmitter.disabled (snd x) = true ->
  fst (txRun evs x) = fst x /\ Transmitter.disabled (snd (txRun evs x)) = true.
Proof.
  induction evs as [| ev evs IH]; intros x H; simpl; [easy |].
  destruct (txStep_disabled x ev H) as [H1 H2].
  destruct (IH _ H2) as [H3 H4]. split; [congruence | assumption].
Qed.

End Channel.

(** *** Transports that throw *)

(** [Transmitter.sendError] is [Transport.sendError] on a transport whose
    calls return. *)
Lemma sendError_returning {A : Type} (annotate : Z -> A -> A) (g : Host.t)
    (patched : bool) (a : A) (now : Z) (tx : Transmitter.t) :
  Transport.sendError annotate g (Transport.returning patched) a now tx
  = (Transport.ofSent (fst (fst (Transmitter.sendError annotate g a now tx))),
     snd (fst (Transmitter.sendError annotate g a now tx)),
     snd (Transmitter.sendError annotate g a now tx)).
Proof.
  unfold Transport.sendError, Transmitter.sendError, Transport.transmit,
    Transport.sending, Transport.returning.
  destruct (Transmitter.disabled tx); [reflexivity |].
  destruct (Transmitter.throttle annotate a now tx) as [[thr a'] tx'].
  destruct thr; [reflexivity |]. cbn [Transport.request Transport.stringify Transport.send].
  destruct (Host.isBrowser g), (Host.corsRequest g), (Host.isWorker g); reflexivity.
Qed.

(** What can happen to a transmitter after it is built, with the
    transport that each [sendError] finds. *)
Inductive chevent :=
| ChSendError (tr : Transport.t) (now : Z)
| ChFault (now : Z)
| ChResponse (r : Transmitter.response).

(** One when a request left the agent. *)
Definition departed (r : Transport.result) : Z :=
  match r with
  | Transport.Posted => 1
  | _ => 0
  end.

Section Transports.

Context {A : Type} (annotate : Z -> A -> A) (a : A) (g : Host.t).

(** The error reports that leave, and the transmitter afterwards. *)
Definition chStep (x : Z * Transmitter.t) (ev : chevent) : Z * Transmitter.t :=
  match ev with
  | ChSendError tr now =>
      let '(r, _, tx) := Transport.sendError annotate g tr a now (snd x) in
      (fst x + departed r, tx)
  | ChFault now =>
      let '(_, _, tx) := Transmitter.sendTrackerFault annotate a now (snd x) in
      (fst x, tx)
  | ChResponse r => (fst x, Transmitter.respond r (snd x))
  end.

Definition chRun (evs : list chevent) (x : Z * Transmitter.t) : Z * Transmitter.t :=
  fold_left chStep evs x.

Lemma sendError_off (tr : Transport.t) (now : Z) (tx : Transmitter.t) :
  Transmitter.disabled tx = true ->
  Transport.sendError annotate g tr a now tx = (Transport.NotSent, a, tx).
Proof. intros H. unfold Transport.sendError. now rewrite H. Qed.

(** A [sendError] that gets past [disabled] and the throttle ends as
    its [try] block does, and sets [disabled] exactly when the block
    throws. *)
Lemma sendError_admitted (tr : Transport.t) (now : Z) (tx : Transmitter.t) :
  Transmitter.disabled tx = false ->
  fst (fst (Transmitter.throttle annotate a now tx)) = false ->
  fst (fst (Transport.sendError annotate g tr a now tx)) = Transport.transmit g tr
  /\ Transmitter.disabled (snd (Transport.sendError annotate g tr a now tx))
     = match Transport.transmit g tr with
       | Transport.Failed _ => true
       | _ => false
       end.
Proof.
  intros Hd Ht. unfold Transport.sendError. rewrite Hd.
  pose proof (throttle_disabled annotate a now tx) as Hk.
  destruct (Transmitter.throttle annotate a now tx) as [[thr a'] tx'].
  cbn [fst snd] in Ht, Hk. subst thr.
  destruct (Transport.transmit g tr); cbn [fst snd]; (split; [reflexivity |]);
    try reflexivity; congruence.
Qed.

Lemma sendError_failed (tr : Transport.t) (now : Z) (tx : Transmitter.t)
    (h : value) (a' : A) (tx' : Transmitter.t) :
  Transport.sendError annotate g tr a now tx = (Transport.Failed h, a', tx') ->
  Transmitter.disabled tx' = true.
Proof.
  unfold Transport.sendError.
  destruct (Transmitter.disabled tx); [discriminate |].
  destruct (Transmitter.throttle annotate a now tx) as [[thr a''] tx''].
  destruct thr; [discriminate |].
  destruct (Transport.transmit g tr); try discriminate.
  intros [= _ _ <-]. reflexivity.
Qed.

Lemma chStep_disabled (x : Z * Transmitter.t) (ev : chevent) :
  Transmitter.disabled (snd x) = true ->
  fst (chStep x ev) = fst x /\ Transmitter.disabled (snd (chStep x ev)) = true.
Proof.
  intros H. destruct ev as [tr now | now | r]; simpl.
  - rewrite sendError_off by assumption. simpl. split; [lia | assumption].
  - unfold Transmitter.sendTrackerFault.
    pose proof (throttle_disabled annotate a now (snd x)) as Ht.
    destruct (Transmitter.throttle annotate a now (snd x)) as [[thr a'] tx'].
    simpl in *. split; [reflexivity | congruence].
  - rewrite respond_disabled by assumption. split; [reflexivity | assumption].
Qed.

Lemma chRun_disabled (evs : list chevent) : forall x,
  Transmitter.disabled (snd x) = true ->
  fst (chRun evs x) = fst x /\ Transmitter.disabled (snd (chRun evs x)) = true.
Proof.
  induction evs as [| ev evs IH]; intros x H; simpl; [easy |].
  destruct (chStep_disabled x ev H) as [H1 H2].
  destruct (IH _ H2) as [H3 H4]. split; [congruence | assumption].
Qed.

End Transports.



(** ** The error path: what one call of [onError] can do *)

Arguments Tracker.assemble : simpl never.
Arguments Tracker.dispatch : simpl never.
Arguments Tracker.consult : simpl never.
Arguments Tracker.onFault : simpl never.
Arguments Tracker.capConsole : simpl never.
Arguments Tracker.normalize : simpl never.

Fixpoint countSend (l : list Tracker.event) : nat :=
  match l with
  | [] => 0
  | Tracker.EvSend _ _ :: t => S (countSend t)
  | _ :: t => countSend t
  end.

Fixpoint countHook (l : list Tracker.event) : nat :=
  match l with
  | [] => 0
  | Tracker.EvHook _ _ :: t => S (countHook t)
  | _ :: t => countHook t
  end.

(** The reports transmitted so far, and the hook calls so far. *)
Definition sent (s : Tracker.state) : nat := countSend (Tracker.trace s).
Definition hookCalls (s : Tracker.state) : nat := countHook (Tracker.trace s).

(** The dedupe fingerprint of a payload: [(h.message + h.stack).substr(0, 1e4)]. *)
Definition fingerprint (message : string) (stack : value) : string :=
  substr0 10000 (message +:+ to_string stack).

(** The part of the state that [install] fixes. *)
Definition setup (s : Tracker.state)
  : Host.t * bool * bool * Tracker.config * string :=
  (Tracker.host s, Tracker.hasInstalled s, Tracker.hasEnabled s,
   Tracker.cfg s, Tracker.token s).

Lemma countSend_app l1 l2 : countSend (l1 ++ l2) = (countSend l1 + countSend l2)%nat.
Proof. induction l1 as [| [] l1 IH]; simpl; lia. Qed.

Lemma countHook_app l1 l2 : countHook (l1 ++ l2) = (countHook l1 + countHook l2)%nat.
Proof. induction l1 as [| [] l1 IH]; simpl; lia. Qed.

(** [onFault] sends no report, calls no hook and remembers nothing. *)
Lemma onFault_frame a now s :
  setup (Tracker.onFault a now s) = setup s
  /\ Tracker.lastFingerprint (Tracker.onFault a now s) = Tracker.lastFingerprint s
  /\ exists evs,
       Tracker.trace (Tracker.onFault a now s) = Tracker.trace s ++ evs
       /\ countSend evs = 0%nat /\ countHook evs = 0%nat.
Proof.
  unfold Tracker.onFault.
  destruct (Transmitter.sendTrackerFault _ _ _ _) as [[beacon ann] tx].
  destruct beacon; simpl.
  - repeat split. eexists. split; [reflexivity |]. split; reflexivity.
  - repeat split. exists []. now rewrite app_nil_r.
Qed.

(** The tail of [onError]: under dedupe the fingerprint of the payload is
    the one remembered afterwards; at most one report leaves, and none
    when the fingerprint was the remembered one. *)
Lemma dispatch_frame h now s :
  let k := fingerprint (Tracker.message h) (Tracker.stack h) in
  setup (Tracker.dispatch h now s) = setup s
  /\ Tracker.lastFingerprint (Tracker.dispatch h now s)
     = (if Tracker.dedupe (Tracker.cfg s) then Some k else Tracker.lastFingerprint s)
  /\ exists evs,
       Tracker.trace (Tracker.dispatch h now s) = Tracker.trace s ++ evs
       /\ countHook evs = 0%nat
       /\ (countSend evs <= 1)%nat
       /\ (Tracker.dedupe (Tracker.cfg s) = true ->
           Tracker.lastFingerprint s = Some k -> evs = []).
Proof.
  intros k. unfold Tracker.dispatch. fold (fingerprint (Tracker.message h) (Tracker.stack h)).
  fold k.
  destruct (Tracker.dedupe (Tracker.cfg s)) eqn:Hd; simpl.
  - destruct (bool_decide (Tracker.lastFingerprint s = Some k)) eqn:Hk.
    + apply bool_decide_eq_true in Hk. split; [reflexivity |]. split; [assumption |].
      exists []. rewrite app_nil_r. repeat split. auto.
    + apply bool_decide_eq_false in Hk.
      match goal with
      | |- context [ Transmitter.sendError ?a ?g ?x ?n ?t ] =>
          destruct (Transmitter.sendError a g x n t) as [[r h'] tx]
      end.
      destruct r.
      * simpl. repeat split. eexists. split; [reflexivity |]. simpl.
        repeat split; auto. congruence.
      * simpl. repeat split. exists []. rewrite app_nil_r. simpl.
        repeat split; auto.
      * match goal with
        | |- context [ Tracker.onFault ?a ?n ?s0 ] =>
            destruct (onFault_frame a n s0) as (H1 & H2 & evs & H3 & H4 & H5)
        end.
        rewrite H1, H2, H3. simpl. repeat split.
        exists evs. repeat split; [assumption | lia | congruence].
  - match goal with
    | |- context [ Transmitter.sendError ?a ?g ?x ?n ?t ] =>
        destruct (Transmitter.sendError a g x n t) as [[r h'] tx]
    end.
    destruct r.
    + simpl. repeat split. eexists. split; [reflexivity |]. simpl.
      repeat split; auto. discriminate.
    + simpl. repeat split. exists []. rewrite app_nil_r. simpl.
      repeat split; auto.
    + match goal with
      | |- context [ Tracker.onFault ?a ?n ?s0 ] =>
          destruct (onFault_frame a n s0) as (H1 & H2 & evs & H3 & H4 & H5)
      end.
      rewrite H1, H2, H3. simpl. repeat split.
      exists evs. repeat split; [assumption | lia | discriminate].
Qed.

(** [s'] comes from [s] by the error path working on a report whose
    fingerprint is [k]: the installation is untouched, the trace grows by
    [nh] hook calls and at most one transmission, the remembered
    fingerprint is the old one or [k]; it is [k] if a report left, and no
    report leaves if it already was [k]. *)
Definition advances (k : string) (nh : nat) (s s' : Tracker.state) : Prop :=
  setup s' = setup s
  /\ (Tracker.lastFingerprint s' = Tracker.lastFingerprint s
      \/ Tracker.dedupe (Tracker.cfg s) = true
         /\ Tracker.lastFingerprint s' = Some k)
  /\ exists evs,
       Tracker.trace s' = Tracker.trace s ++ evs
       /\ countHook evs = nh
       /\ (countSend evs <= 1)%nat
       /\ (Tracker.dedupe (Tracker.cfg s) = true -> countSend evs = 1%nat ->
           Tracker.lastFingerprint s' = Some k)
       /\ (Tracker.dedupe (Tracker.cfg s) = true ->
           Tracker.lastFingerprint s = Some k -> countSend evs = 0%nat).

Lemma setup_cfg s0 s : setup s0 = setup s -> Tracker.cfg s0 = Tracker.cfg s.
Proof. unfold setup. congruence. Qed.

(** A state [s0] reached from [s] without sending or remembering. *)
Definition prepared (pre : list Tracker.event) (s s0 : Tracker.state) : Prop :=
  setup s0 = setup s
  /\ Tracker.lastFingerprint s0 = Tracker.lastFingerprint s
  /\ Tracker.trace s0 = Tracker.trace s ++ pre
  /\ countSend pre = 0%nat.

Lemma prepared_advances k pre s s0 :
  prepared pre s s0 -> advances k (countHook pre) s s0.
Proof.
  intros (H1 & H2 & H3 & H4). split; [assumption |]. split; [now left |].
  exists pre. repeat split; try assumption; lia.
Qed.

Lemma onFault_after k pre a now s s0 :
  prepared pre s s0 -> advances k (countHook pre) s (Tracker.onFault a now s0).
Proof.
  intros (H1 & H2 & H3 & H4).
  destruct (onFault_frame a now s0) as (F1 & F2 & evs & F3 & F4 & F5).
  split; [congruence |]. split; [left; congruence |].
  exists (pre ++ evs). rewrite F3, H3, app_assoc, countHook_app, countSend_app.
  repeat split; lia.
Qed.

Lemma dispatch_after h now pre s s0 :
  prepared pre s s0 ->
  advances (fingerprint (Tracker.message h) (Tracker.stack h)) (countHook pre) s
           (Tracker.dispatch h now s0).
Proof.
  intros (H1 & H2 & H3 & H4).
  destruct (dispatch_frame h now s0) as (F1 & F2 & evs & F3 & F4 & F5 & F6).
  pose proof (setup_cfg _ _ H1) as Hc. rewrite Hc in F2, F6.
  split; [congruence |]. split.
  { rewrite F2. destruct (Tracker.dedupe (Tracker.cfg s)); [now right | left; congruence]. }
  exists (pre ++ evs). rewrite F3, H3, app_assoc, countHook_app, countSend_app.
  repeat split; try lia.
  - intros Hd _. now rewrite F2, Hd.
  - intros Hd Hk. rewrite F6; [simpl; lia | assumption | congruence].
Qed.

(** The hook block and what follows it.  An unforced report reaches the
    hook exactly once, before anything else happens to it. *)
Lemma consult_advances h e f now s s0 :
  prepared [] s s0 ->
  advances (fingerprint (Tracker.message h) (Tracker.stack h))
           (if Tracker.force f then 0 else 1)%nat s
           (Tracker.consult h e f now s0).
Proof.
  intros Hp. unfold Tracker.consult.
  destruct (Tracker.force f).
  - apply (dispatch_after h now [] s s0 Hp).
  - set (w := Tracker.view (Tracker.st s0) h).
    assert (Hq : prepared [Tracker.EvHook w e] s (Tracker.emit (Tracker.EvHook w e) s0)).
    { destruct Hp as (H1 & H2 & H3 & H4). rewrite app_nil_r in H3.
      repeat split; try assumption. simpl. now rewrite H3. }
    change (Tracker.cfg (Tracker.emit (Tracker.EvHook w e) s0)) with (Tracker.cfg s0).
    destruct (Tracker.hook (Tracker.cfg s0) w e) as [r | m].
    + destruct (truthy r).
      * apply (dispatch_after h now _ s _ Hq).
      * apply (prepared_advances _ _ s _ Hq).
    + assert (Hd : forall st6,
                prepared [Tracker.EvHook w e] s
                  (Tracker.defer (Tracker.TForced m)
                     (Tracker.set_store st6 (Tracker.emit (Tracker.EvHook w e) s0)))).
      { intros st6. destruct Hq as (H1 & H2 & H3 & H4). repeat split; assumption. }
      destruct m; try apply (onFault_after _ _ _ now s _ Hq);
        apply (dispatch_after h now _ s _ (Hd _)).
Qed.

(** The fingerprint of the report [onError] works on. *)
Definition errorFingerprint (e : value) (f : option Tracker.meta)
    (s : Tracker.state) : string :=
  let e' := Tracker.normalize e (Tracker.metaOrDefault f) s in
  match get e' "message" with
  | VStr msg => fingerprint msg (get e' "stack")
  | _ => ""
  end.

Lemma assemble_prepared d e msg f now s :
  prepared [] s (snd (Tracker.assemble d e msg f now s))
  /\ Tracker.message (fst (Tracker.assemble d e msg f now s)) = msg
  /\ Tracker.stack (fst (Tracker.assemble d e msg f now s)) = get e "stack"
  /\ Tracker.entry (fst (Tracker.assemble d e msg f now s)) = d.
Proof.
  unfold Tracker.assemble, Log.all, Log.alloc. simpl.
  repeat split. simpl. now rewrite app_nil_r.
Qed.

(** One call of [onError]: at most one hook call and one transmission. *)
Lemma onError_advances d e f now s :
  exists nh, (nh <= 1)%nat
    /\ advances (errorFingerprint e f s) nh s (Tracker.onError d e f now s).
Proof.
  assert (Hs : prepared [] s s) by (repeat split; now rewrite app_nil_r).
  unfold Tracker.onError, errorFingerprint.
  destruct (Tracker.hasInstalled s && Tracker.hasEnabled s
            && Host.browserSupported (Tracker.host s)).
  2: { exists 0%nat. split; [lia |]. apply (prepared_advances _ [] s s Hs). }
  set (e' := Tracker.normalize e (Tracker.metaOrDefault f) s).
  destruct (get e' "message") as [ | | b | n | msg | r | cls fs];
    try (exists 0%nat; split; [lia |]; apply (onFault_after _ [] _ now s s Hs)).
  destruct (contains msg "Track Caught"); cbn [negb].
  { exists 0%nat. split; [lia |]. apply (prepared_advances _ [] s s Hs). }
  destruct (Tracker.reporting s && contains msg "Script error").
  { exists 0%nat. split; [lia |]. apply (prepared_advances _ [] s).
    repeat split. simpl. now rewrite app_nil_r. }
  destruct (assemble_prepared d e' msg (Tracker.metaOrDefault f) now s)
    as (Hp & Hm & Hk & _).
  destruct (Tracker.assemble d e' msg (Tracker.metaOrDefault f) now s) as [h s0].
  simpl in *. subst msg. rewrite <- Hk.
  exists (if Tracker.force (Tracker.metaOrDefault f) then 0 else 1)%nat.
  split; [destruct (Tracker.force _); lia |].
  apply consult_advances, Hp.
Qed.

(** ** Reports that do leave *)

(** The throttle lets the attempt at [now] through. *)
Definition admits (now : Z) (tx : Transmitter.t) : Prop :=
  Transmitter.attemptCount tx < 10 \/ Transmitter.lastAttempt tx + 1000 < now.

Lemma throttle_admits {A : Type} (annotate : Z -> A -> A) (a : A) now tx :
  admits now tx ->
  fst (fst (Transmitter.throttle annotate a now tx)) = false
  /\ (snd (fst (Transmitter.throttle annotate a now tx)) = a
      \/ snd (fst (Transmitter.throttle annotate a now tx))
         = annotate (Transmitter.throttledCount tx) a).
Proof.
  intros H. unfold Transmitter.throttle.
  destruct (Z.geb_spec (Transmitter.lastAttempt tx + 1000) now).
  - destruct H as [H | H]; [| lia].
    destruct (Z.ltb_spec 10 (Transmitter.attemptCount tx + 1)); [lia |].
    simpl. auto.
  - simpl. auto.
Qed.

(** On a working channel the tail of [onError] transmits what
    [JSON.stringify] reads from the payload after the console cap and
    [log.clear()] have run. *)
Lemma dispatch_transmits h now s :
  (Tracker.dedupe (Tracker.cfg s) = true ->
   Tracker.lastFingerprint s
   <> Some (fingerprint (Tracker.message h) (Tracker.stack h))) ->
  canPost (Tracker.host s) ->
  Transmitter.disabled (Tracker.transmitter s) = false ->
  admits now (Tracker.transmitter s) ->
  exists h',
    (h' = h \/ h' = Tracker.annotate
                     (Transmitter.throttledCount (Tracker.transmitter s)) h)
    /\ Tracker.trace (Tracker.dispatch h now s)
       = Tracker.trace s
         ++ [Tracker.EvSend
               (Tracker.view
                  (Log.clear (Tracker.log s)
                     (Tracker.capConsole (Tracker.console h) (Tracker.st s)))
                  h')
               (Tracker.token s)].
Proof.
  intros Hk Hg Hd Ha. unfold Tracker.dispatch.
  fold (fingerprint (Tracker.message h) (Tracker.stack h)).
  assert (Hc : Tracker.dedupe (Tracker.cfg s)
               && bool_decide (Tracker.lastFingerprint s
                    = Some (fingerprint (Tracker.message h) (Tracker.stack h)))
               = false).
  { destruct (Tracker.dedupe (Tracker.cfg s)); [| reflexivity].
    simpl. apply bool_decide_eq_false. auto. }
  rewrite Hc.
  assert (Hsend : forall s0,
            Tracker.host s0 = Tracker.host s ->
            Tracker.transmitter s0 = Tracker.transmitter s ->
            exists h', (h' = h \/ h' = Tracker.annotate
                           (Transmitter.throttledCount (Tracker.transmitter s)) h)
              /\ exists tx, Transmitter.sendError Tracker.annotate (Tracker.host s0) h now
                       (Tracker.transmitter s0) = (Transmitter.Posted, h', tx)).
  { intros s0 -> ->. rewrite sendError_enabled by assumption.
    destruct (throttle_admits Tracker.annotate h now _ Ha) as [H1 H2].
    destruct (Transmitter.throttle Tracker.annotate h now (Tracker.transmitter s))
      as [[thr h'] tx]. simpl in *. subst thr. eauto. }
  destruct (Tracker.dedupe (Tracker.cfg s)).
  - match goal with
    | |- context [ Transmitter.sendError _ (Tracker.host ?s0) _ _ _ ] =>
        destruct (Hsend s0 eq_refl eq_refl) as (h' & Hh & tx & ->)
    end. exists h'. split; [exact Hh | reflexivity].
  - match goal with
    | |- context [ Transmitter.sendError _ (Tracker.host ?s0) _ _ _ ] =>
        destruct (Hsend s0 eq_refl eq_refl) as (h' & Hh & tx & ->)
    end. exists h'. split; [exact Hh | reflexivity].
Qed.

(** The hook lets every payload through. *)
Definition permissive (c : Tracker.config) : Prop :=
  forall w e, exists r, Tracker.hook c w e = Tracker.HReturn r /\ truthy r = true.

(** A report that nothing stops is transmitted. *)
Lemma onError_transmits d e f now s msg :
  Tracker.hasInstalled s = true -> Tracker.hasEnabled s = true ->
  Host.browserSupported (Tracker.host s) = true ->
  get (Tracker.normalize e (Tracker.metaOrDefault f) s) "message" = VStr msg ->
  contains msg "Track Caught" = false ->
  Tracker.reporting s && contains msg "Script error" = false ->
  permissive (Tracker.cfg s) ->
  (Tracker.dedupe (Tracker.cfg s) = true ->
   Tracker.lastFingerprint s <> Some (errorFingerprint e f s)) ->
  canPost (Tracker.host s) ->
  Transmitter.disabled (Tracker.transmitter s) = false ->
  admits now (Tracker.transmitter s) ->
  sent (Tracker.onError d e f now s) = S (sent s).
Proof.
  intros Hi He Hb Hm Hc Hr Hp Hk Hg Hd Ha.
  unfold errorFingerprint in Hk. rewrite Hm in Hk.
  unfold Tracker.onError. rewrite Hi, He, Hb, Hm, Hc, Hr. cbn [andb negb].
  set (e' := Tracker.normalize e (Tracker.metaOrDefault f) s) in *.
  destruct (assemble_prepared d e' msg (Tracker.metaOrDefault f) now s)
    as ((P1 & P2 & P3 & _) & Hmsg & Hstk & _).
  assert (Htx : Tracker.transmitter (snd (Tracker.assemble d e' msg (Tracker.metaOrDefault f) now s))
                = Tracker.transmitter s) by (unfold Tracker.assemble, Log.all, Log.alloc; reflexivity).
  destruct (Tracker.assemble d e' msg (Tracker.metaOrDefault f) now s) as [h s0].
  simpl in *. rewrite app_nil_r in P3.
  assert (Hhost : Tracker.host s0 = Tracker.host s) by (unfold setup in P1; congruence).
  assert (Hcfg : Tracker.cfg s0 = Tracker.cfg s) by (unfold setup in P1; congruence).
  assert (Hdis : forall s1,
            Tracker.cfg s1 = Tracker.cfg s -> Tracker.lastFingerprint s1 = Tracker.lastFingerprint s ->
            Tracker.host s1 = Tracker.host s -> Tracker.transmitter s1 = Tracker.transmitter s ->
            countSend (Tracker.trace (Tracker.dispatch h now s1)) = S (countSend (Tracker.trace s1))).
  { intros s1 E1 E2 E3 E4.
    destruct (dispatch_transmits h now s1) as (h' & _ & ->).
    - rewrite E1, E2, Hmsg, Hstk. exact Hk.
    - now rewrite E3.
    - now rewrite E4.
    - now rewrite E4.
    - rewrite countSend_app. simpl. lia. }
  unfold sent, Tracker.consult.
  destruct (Tracker.force (Tracker.metaOrDefault f)).
  - rewrite Hdis by assumption. now rewrite P3.
  - change (Tracker.cfg (Tracker.emit ?x s0)) with (Tracker.cfg s0).
    rewrite Hcfg.
    destruct (Hp (Tracker.view (Tracker.st s0) h) e') as (r & -> & ->).
    rewrite Hdis by assumption. simpl. rewrite P3, countSend_app. simpl. lia.
Qed.

Lemma normalize_setup e f1 f2 s s1 :
  setup s1 = setup s -> Tracker.force f1 = Tracker.force f2 ->
  Tracker.normalize e f1 s = Tracker.normalize e f2 s1.
Proof.
  intros H Hf. unfold Tracker.normalize, Tracker.serializeWith, setup in *.
  injection H as -> -> _ -> _. now rewrite Hf.
Qed.

(** ** Dedupe *)


(** A hook that lets everything through, and an error with a stack. *)
Definition cfgDedupe : Tracker.config :=
  Tracker.Config true (fun _ _ => Tracker.HReturn (VBool true)) to_string.

Definition errorX : value :=
  VObj ClsError [ ("name", VStr "Error"); ("message", VStr "x");
                  ("stack", VStr "Error: x at main.js:1:1") ].


(** An error other than [errorX], and an agent whose transmitter has
    made [n] attempts in the window that began at 0. *)
Definition errorY : value :=
  VObj ClsError [ ("name", VStr "Error"); ("message", VStr "y");
                  ("stack", VStr "Error: y at main.js:2:2") ].

Definition busyAgent (n : Z) : Tracker.state :=
  Tracker.set_transmitter (Transmitter.Make false n 0 0)
    (Tracker.installed browser cfgDedupe "tok" 0).


(** ** The user hook *)

Lemma consult_hook_first h e f now s :
  Tracker.force f = false ->
  exists tail,
    Tracker.trace (Tracker.consult h e f now s)
    = Tracker.trace s ++ Tracker.EvHook (Tracker.view (Tracker.st s) h) e :: tail
    /\ countHook tail = 0%nat.
Proof.
  intros Hf. unfold Tracker.consult. rewrite Hf.
  set (w := Tracker.view (Tracker.st s) h).
  change (Tracker.cfg (Tracker.emit (Tracker.EvHook w e) s)) with (Tracker.cfg s).
  assert (Hdis : forall s1,
            Tracker.trace s1 = Tracker.trace s ++ [Tracker.EvHook w e] ->
            exists tail,
              Tracker.trace (Tracker.dispatch h now s1)
              = Tracker.trace s ++ Tracker.EvHook w e :: tail
              /\ countHook tail = 0%nat).
  { intros s1 H1. destruct (dispatch_frame h now s1) as (_ & _ & evs & -> & Hh & _).
    exists evs. now rewrite H1, <- app_assoc. }
  assert (Hfault : forall a,
            exists tail,
              Tracker.trace (Tracker.onFault a now (Tracker.emit (Tracker.EvHook w e) s))
              = Tracker.trace s ++ Tracker.EvHook w e :: tail
              /\ countHook tail = 0%nat).
  { intros a. destruct (onFault_frame a now (Tracker.emit (Tracker.EvHook w e) s))
      as (_ & _ & evs & -> & _ & Hh).
    exists evs. simpl. now rewrite <- app_assoc. }
  destruct (Tracker.hook (Tracker.cfg s) w e) as [r | m].
  - destruct (truthy r).
    + now apply Hdis.
    + exists []. split; reflexivity.
  - destruct m; try apply Hfault; now apply Hdis.
Qed.

(** C7, as the code has it.  A report that reaches the payload stage
    unforced meets the hook exactly once, and first: the hook call comes
    before the dedupe check and before any transmission, whether or not
    the report is a duplicate.  When the hook returns a falsy value
    [onError] stops there: nothing is transmitted, and neither the
    remembered fingerprint nor anything else but the trace of the hook
    call and the snapshot arrays changes. *)
Theorem hook_before_dedupe (d : string) (e : value) (f : option Tracker.meta)
    (now : Z) (s : Tracker.state) (msg : string) :
  Tracker.hasInstalled s = true -> Tracker.hasEnabled s = true ->
  Host.browserSupported (Tracker.host s) = true ->
  get (Tracker.normalize e (Tracker.metaOrDefault f) s) "message" = VStr msg ->
  contains msg "Track Caught" = false ->
  Tracker.reporting s && contains msg "Script error" = false ->
  Tracker.force (Tracker.metaOrDefault f) = false ->
  let e' := Tracker.normalize e (Tracker.metaOrDefault f) s in
  let h := fst (Tracker.assemble d e' msg (Tracker.metaOrDefault f) now s) in
  let s0 := snd (Tracker.assemble d e' msg (Tracker.metaOrDefault f) now s) in
  let w := Tracker.view (Tracker.st s0) h in
  (exists tail,
     Tracker.trace (Tracker.onError d e f now s)
     = Tracker.trace s ++ Tracker.EvHook w e' :: tail
     /\ countHook tail = 0%nat)
  /\ hookCalls (Tracker.onError d e f now s) = S (hookCalls s)
  /\ (forall r, Tracker.hook (Tracker.cfg s) w e' = Tracker.HReturn r ->
                truthy r = false ->
                Tracker.onError d e f now s = Tracker.emit (Tracker.EvHook w e') s0
                /\ sent (Tracker.onError d e f now s) = sent s
                /\ Tracker.lastFingerprint (Tracker.onError d e f now s)
                   = Tracker.lastFingerprint s).
Proof.
  intros Hi He Hb Hm Hc Hr Hf e' h s0 w.
  assert (Hon : Tracker.onError d e f now s = Tracker.consult h e' (Tracker.metaOrDefault f) now s0).
  { unfold Tracker.onError. rewrite Hi, He, Hb. cbn [andb].
    rewrite Hm, Hc, Hr. cbn [negb]. unfold h, s0, e'.
    now destruct (Tracker.assemble d _ msg (Tracker.metaOrDefault f) now s). }
  destruct (assemble_prepared d e' msg (Tracker.metaOrDefault f) now s)
    as ((P1 & P2 & P3 & _) & _). fold s0 in P1, P2, P3. rewrite app_nil_r in P3.
  destruct (consult_hook_first h e' (Tracker.metaOrDefault f) now s0 Hf) as (tail & Ht & Hh).
  fold w in Ht. rewrite P3 in Ht.
  split; [exists tail; now rewrite Hon |]. split.
  - unfold hookCalls. rewrite Hon, Ht, countHook_app. simpl. lia.
  - intros r Hret Hfalsy.
    assert (Hv : Tracker.consult h e' (Tracker.metaOrDefault f) now s0
                 = Tracker.emit (Tracker.EvHook w e') s0).
    { unfold Tracker.consult. rewrite Hf. fold w.
      change (Tracker.cfg (Tracker.emit (Tracker.EvHook w e') s0)) with (Tracker.cfg s0).
      rewrite (setup_cfg _ _ P1), Hret, Hfalsy. reflexivity. }
    rewrite Hon, Hv. split; [reflexivity |]. split.
    + unfold sent, Tracker.emit. cbn [Tracker.trace].
      rewrite P3, !countSend_app. simpl. lia.
    + unfold Tracker.emit. cbn [Tracker.lastFingerprint]. exact P2.
Qed.

(** A hook that turns every payload down. *)
Definition cfgVeto : Tracker.config :=
  Tracker.Config true (fun _ _ => Tracker.HReturn (VBool false)) to_string.

Lemma hook_before_dedupe_witness :
  Tracker.hasInstalled (Tracker.installed browser cfgVeto "tok" 0) = true
  /\ hookCalls (Tracker.onError "window" errorX None 50
                  (Tracker.installed browser cfgVeto "tok" 0)) = 1%nat
  /\ sent (Tracker.onError "window" errorX None 50
             (Tracker.installed browser cfgVeto "tok" 0)) = 0%nat.
Proof.
  split; [reflexivity |].
  pose proof (hook_before_dedupe "window" errorX None 50
                (Tracker.installed browser cfgVeto "tok" 0) "x"
                eq_refl eq_refl eq_refl eq_refl eq_refl eq_refl eq_refl) as H.
  cbv zeta in H. destruct H as (_ & H1 & H2). split; [exact H1 |].
  exact (proj1 (proj2 (H2 (VBool false) eq_refl eq_refl))).
Defined.

(** C7, the claim as stated, fails: the hook is not consulted after the
    dedupe check.  The same error reported twice in a row is a duplicate
    the second time (its fingerprint is the remembered one, and only one
    report leaves), yet the hook has been called for both. *)
Lemma hook_sees_duplicates :
  let s0 := Tracker.installed browser cfgDedupe "tok" 0 in
  let s1 := Tracker.onError "window" errorX None 50 s0 in
  let s2 := Tracker.onError "window" errorX None 100 s1 in
  Tracker.lastFingerprint s1 = Some (errorFingerprint errorX None s1)
  /\ sent s1 = 1%nat /\ sent s2 = 1%nat
  /\ hookCalls s1 = 1%nat /\ hookCalls s2 = 2%nat.
Proof. cbv zeta. repeat split; reflexivity. Qed.

(** ** Errors the agent has already caught *)

Lemma contains_prefix (t : string) :
  contains ("Track Caught: " +:+ t) "Track Caught" = true.
Proof. reflexivity. Qed.

Lemma onError_drops d e f now s msg :
  truthy e = true -> Util.isError e = true ->
  get e "message" = VStr msg -> contains msg "Track Caught" = true ->
  Tracker.onError d e f now s = s.
Proof.
  intros Ht He Hm Hc. unfold Tracker.onError, Tracker.normalize.
  rewrite Ht, He. cbn [andb]. rewrite Hm, Hc. cbn [negb].
  now destruct (Tracker.hasInstalled s && Tracker.hasEnabled s
                && Host.browserSupported (Tracker.host s)).
Qed.

(** What [wrapError] builds when its argument carries no [innerError]. *)
Lemma wrapError_fresh x :
  truthy (get (JS.or x (VStr (class_string x))) "innerError") = false ->
  let b := JS.or x (VStr (class_string x)) in
  Util.wrapError x =
  VObj ClsError
    [ ("name", VStr "Error");
      ("message", VStr ("Track Caught: " +:+ to_string (JS.or (get b "message") b)));
      ("description", VStr ("Track Caught: " +:+ to_string (get b "description")));
      ("file", get b "file");
      ("line", JS.or (get b "line") (get b "lineNumber"));
      ("column", JS.or (get b "column") (get b "columnNumber"));
      ("stack", get b "stack");
      ("innerError", x) ].
Proof.
  intros H. unfold Util.wrapError. cbv zeta. now rewrite H, andb_false_r.
Qed.

(** C10. An error whose message contains 'Track Caught' goes through
    [onError] without any effect: no payload, no hook call, no
    transmission, the state is the one before.  What [wrapError] builds
    carries that prefix, so an exception rethrown by a wrapper and caught
    again by an outer one is not reported twice; a user error that merely
    contains the text is dropped the same way. *)
Theorem onError_ignores_track_caught (d : string) (e : value)
    (f : option Tracker.meta) (now : Z) (s : Tracker.state) (msg : string) :
  truthy e = true -> Util.isError e = true ->
  get e "message" = VStr msg -> contains msg "Track Caught" = true ->
  Tracker.onError d e f now s = s
  /\ (forall x,
        truthy (get (JS.or x (VStr (class_string x))) "innerError") = false ->
        (exists m, get (Util.wrapError x) "message" = VStr ("Track Caught: " +:+ m))
        /\ Tracker.onError d (Util.wrapError x) f now s = s).
Proof.
  intros Ht He Hm Hc. split; [now apply (onError_drops d e f now s msg) |].
  intros x Hx. rewrite (wrapError_fresh x Hx). split.
  - eexists. reflexivity.
  - eapply onError_drops; [reflexivity | reflexivity | reflexivity |].
    apply contains_prefix.
Qed.

(** A user error that happens to mention the prefix. *)
Definition errorMention : value :=
  VObj ClsError [ ("name", VStr "Error");
                  ("message", VStr "saw Track Caught in the logs") ].

Lemma onError_ignores_track_caught_witness :
  contains "saw Track Caught in the logs" "Track Caught" = true
  /\ Tracker.onError "window" errorMention None 50
       (Tracker.installed browser cfgDedupe "tok" 0)
     = Tracker.installed browser cfgDedupe "tok" 0.
Proof.
  split; [reflexivity |].
  exact (proj1 (onError_ignores_track_caught "window" errorMention None 50
                  (Tracker.installed browser cfgDedupe "tok" 0)
                  "saw Track Caught in the logs" eq_refl eq_refl eq_refl eq_refl)).
Defined.

(** ** Wrapping *)

(** Heaps whose marks are those that [wrap] sets: a wrapper closure
    carries [__trackjs__] and wraps a function of the application, and
    the [__trackjs_state__] of an unmarked function is a wrapper of it.
    [wrap] keeps a heap that way.  Other code can break it: the [catch]
    handler of the patched [fetch] writes [true] under
    [__trackjs_state__] of a rejection reason, which may be a function. *)
Definition wf (fh : Callback.heap) : Prop :=
  forall r o, fh !! r = Some o ->
    (forall a e f, Callback.run o = Callback.Wrapper a e f ->
       Callback.hasOwn o "__trackjs__" = true
       /\ exists oa body, fh !! a = Some oa /\ Callback.run oa = Callback.Native body)
    /\ (Callback.hasOwn o "__trackjs__" = false ->
        forall v en, Callback.own o !! "__trackjs_state__" = Some (v, en) ->
        exists rb ob e f,
          v = VFun rb /\ fh !! rb = Some ob
          /\ Callback.run ob = Callback.Wrapper r e f).

(** [wrap(a)] gets through its copy loop, or does not reach it: [a] is
    no function, or carries one of the two marks, or has no enumerable
    own property under a name that cannot be written on a function. *)
Definition copyable (fh : Callback.heap) (a : value) : bool :=
  match a with
  | VFun r =>
      match fh !! r with
      | Some o =>
          Callback.hasOwn o "__trackjs__" || Callback.hasOwn o "__trackjs_state__"
          || Callback.copies o
      | None => true
      end
  | _ => true
  end.

Lemma hasOwn_false o k : Callback.hasOwn o k = false <-> Callback.own o !! k = None.
Proof.
  unfold Callback.hasOwn. rewrite bool_decide_eq_false, eq_None_not_Some. tauto.
Qed.

Lemma hasOwn_true o k :
  Callback.hasOwn o k = true <-> exists v en, Callback.own o !! k = Some (v, en).
Proof.
  unfold Callback.hasOwn. rewrite bool_decide_eq_true. split.
  - intros [[v en] H]. eauto.
  - intros (v & en & H). eauto.
Qed.

Lemma hasOwn_assign_eq k v o : Callback.hasOwn (Callback.assign k v o) k = true.
Proof. apply hasOwn_true. exists v, true. apply lookup_insert_eq. Qed.

Lemma hasOwn_assign_ne k k' v o :
  k <> k' -> Callback.hasOwn (Callback.assign k v o) k' = Callback.hasOwn o k'.
Proof.
  intros H. unfold Callback.hasOwn, Callback.assign. simpl.
  now rewrite lookup_insert_ne.
Qed.

(** What the enumerable own properties of [o] are, by name. *)
Lemma copyOwn_lookup o k :
  Callback.copyOwn o !! k
  = match Callback.own o !! k with
    | Some (v, true) => Some (v, true)
    | _ => None
    end.
Proof.
  unfold Callback.copyOwn.
  destruct (Callback.own o !! k) as [[v [|]] |] eqn:E.
  - now apply map_lookup_filter_Some_2.
  - apply map_lookup_filter_None_2. right. intros x Hx. rewrite E in Hx.
    injection Hx as <-. simpl. discriminate.
  - apply map_lookup_filter_None_2. now left.
Qed.

(** The own properties of the closure, by name. *)
Lemma closure_own r e f o k :
  Callback.own (Callback.closure r e f o) !! k
  = if String.eqb k "__trackjs__" then Some (VBool true, true)
    else if String.eqb k "name" then Some (VStr "b", false)
    else if String.eqb k "length" then Some (VNum 0, false)
    else match Callback.own o !! k with
         | Some (v, true) => Some (v, true)
         | _ => None
         end.
Proof.
  unfold Callback.closure, Callback.assign. cbn [Callback.own].
  destruct (String.eqb_spec k "__trackjs__") as [-> | H1];
    [apply lookup_insert_eq | rewrite lookup_insert_ne by congruence].
  destruct (String.eqb_spec k "name") as [-> | H2];
    [apply lookup_insert_eq | rewrite lookup_insert_ne by congruence].
  destruct (String.eqb_spec k "length") as [-> | H3];
    [apply lookup_insert_eq | rewrite lookup_insert_ne by congruence].
  apply copyOwn_lookup.
Qed.

(** An own property of the closure under any other name is one of [o]. *)
Lemma closure_hasOwn r e f o k :
  Callback.hasOwn o k = false ->
  k <> "__trackjs__" -> k <> "name" -> k <> "length" ->
  Callback.hasOwn (Callback.closure r e f o) k = false.
Proof.
  intros H H1 H2 H3. apply hasOwn_false. rewrite closure_own.
  apply String.eqb_neq in H1, H2, H3. rewrite H1, H2, H3.
  apply hasOwn_false in H. now rewrite H.
Qed.

Lemma closure_marked r e f o :
  Callback.hasOwn (Callback.closure r e f o) "__trackjs__" = true.
Proof. unfold Callback.closure. apply hasOwn_assign_eq. Qed.

Lemma wf_native fh r o :
  wf fh -> fh !! r = Some o -> Callback.hasOwn o "__trackjs__" = false ->
  exists body, Callback.run o = Callback.Native body.
Proof.
  intros Hwf Hr Hm. destruct (Callback.run o) as [body | a e f] eqn:E; [eauto |].
  destruct (Hwf r o Hr) as [H _]. destruct (H a e f E) as [H1 _]. congruence.
Qed.

(** A function that [wrap] cannot copy makes it throw, and only that. *)
Lemma wrap_throws fh bs stk now a :
  copyable fh a = false ->
  Callback.wrap bs stk now a fh = (Throw Callback.readOnly, fh).
Proof.
  unfold copyable, Callback.wrap. destruct a as [ | | b | n | str | r | cls fs];
    try discriminate.
  destruct (fh !! r) as [o |]; [| discriminate].
  destruct (Callback.hasOwn o "__trackjs__"); [discriminate |].
  destruct (Callback.hasOwn o "__trackjs_state__"); [discriminate |].
  simpl. now intros ->.
Qed.

Section WrapNew.

Context (bs : bool) (stk : string) (now : Z) (fh : Callback.heap)
        (r : ref) (o : Callback.funobj).
Context (Hr : fh !! r = Some o)
        (Hm : Callback.hasOwn o "__trackjs__" = false)
        (Hs : Callback.hasOwn o "__trackjs_state__" = false)
        (Hc : Callback.copies o = true).

(** The closure and the heap that [wrap] builds for a function seen for
    the first time. *)
Definition closure : Callback.funobj :=
  Callback.closure r (if bs then VNum now else VUndef)
                     (if bs then VStr stk else VUndef) o.

Definition marked : Callback.funobj :=
  Callback.assign "__trackjs_state__" (VFun (length fh)) o.

Definition grown : Callback.heap := <[r := marked]> (fh ++ [closure]).

Lemma wrap_new :
  Callback.wrap bs stk now (VFun r) fh = (Return (VFun (length fh)), grown).
Proof using Hr Hm Hs Hc. unfold Callback.wrap. now rewrite Hr, Hm, Hs, Hc. Qed.

Lemma r_lt : (r < length fh)%nat.
Proof using Hr. eapply lookup_lt_Some, Hr. Qed.

Lemma grown_r : grown !! r = Some marked.
Proof using Hr.
  unfold grown. apply list_lookup_insert_eq. rewrite length_app. pose proof r_lt. lia.
Qed.

Lemma grown_top : grown !! length fh = Some closure.
Proof using Hr.
  unfold grown. rewrite list_lookup_insert_ne by (pose proof r_lt; lia).
  apply lookup_alloc.
Qed.

Lemma grown_other r' : r' <> r -> r' <> length fh -> grown !! r' = fh !! r'.
Proof using Hr.
  intros H1 H2. unfold grown. rewrite list_lookup_insert_ne by congruence.
  destruct (decide (r' < length fh)%nat).
  - now rewrite lookup_app_l.
  - rewrite !lookup_ge_None_2; [reflexivity | lia |]. rewrite length_app. simpl. lia.
Qed.

(** Every function of the old heap is still there, with the same code
    and the same mark. *)
Lemma grown_keeps a oa :
  fh !! a = Some oa ->
  exists oa', grown !! a = Some oa' /\ Callback.run oa' = Callback.run oa
              /\ Callback.hasOwn oa' "__trackjs__" = Callback.hasOwn oa "__trackjs__".
Proof using Hr.
  intros Ha. destruct (decide (a = r)) as [-> | Hne].
  - rewrite Hr in Ha. injection Ha as <-. exists marked.
    split; [apply grown_r |]. split; [reflexivity |].
    unfold marked. now rewrite hasOwn_assign_ne.
  - exists oa. rewrite grown_other; [auto | assumption |].
    apply lookup_lt_Some in Ha. lia.
Qed.

Lemma closure_unslotted : Callback.own closure !! "__trackjs_state__" = None.
Proof using Hs.
  apply hasOwn_false. unfold closure. now apply closure_hasOwn.
Qed.

(** The second [wrap] of the function, and the [wrap] of its wrapper. *)
Lemma wrap_again bs' stk' now' :
  Callback.wrap bs' stk' now' (VFun r) grown = (Return (VFun (length fh)), grown).
Proof using Hr Hm.
  unfold Callback.wrap, Callback.read. rewrite grown_r.
  unfold marked. rewrite hasOwn_assign_ne by discriminate. rewrite Hm.
  rewrite hasOwn_assign_eq. simpl. now rewrite lookup_insert_eq.
Qed.

Lemma wrap_wrapper bs' stk' now' :
  Callback.wrap bs' stk' now' (VFun (length fh)) grown
  = (Return (VFun (length fh)), grown).
Proof using Hr.
  unfold Callback.wrap. rewrite grown_top. unfold closure.
  now rewrite closure_marked.
Qed.

Lemma wf_grown : wf fh -> wf grown.
Proof using Hr Hm Hs.
  intros Hwf r' o' Hl.
  destruct (decide (r' = r)) as [-> | Hne]; [| destruct (decide (r' = length fh)) as [-> | Hne']].
  - rewrite grown_r in Hl. injection Hl as <-. split.
    + intros a e f Hrun. simpl in Hrun.
      destruct (wf_native fh r o Hwf Hr Hm) as [body Hb]. congruence.
    + intros _ v en Hv. unfold marked, Callback.assign in Hv. simpl in Hv.
      rewrite lookup_insert_eq in Hv. injection Hv as <- <-.
      exists (length fh), closure. eexists. eexists.
      split; [reflexivity |]. split; [apply grown_top | reflexivity].
  - rewrite grown_top in Hl. injection Hl as <-. split.
    + intros a e f Hrun. simpl in Hrun. injection Hrun as <- <- <-.
      split; [apply closure_marked |].
      destruct (wf_native fh r o Hwf Hr Hm) as [body Hb].
      exists marked, body. split; [apply grown_r | exact Hb].
    + intros Hno. unfold closure in Hno. now rewrite closure_marked in Hno.
  - rewrite grown_other in Hl by assumption.
    destruct (Hwf r' o' Hl) as [H1 H2]. split.
    + intros a e f Hrun. destruct (H1 a e f Hrun) as (Hmk & oa & body & Ha & Hb).
      split; [exact Hmk |].
      destruct (grown_keeps a oa Ha) as (oa' & Ha' & Hrun' & _).
      exists oa', body. split; [exact Ha' | congruence].
    + intros Hno v en Hv.
      destruct (H2 Hno v en Hv) as (rb & ob & e & f & -> & Hb & Hrun).
      destruct (grown_keeps rb ob Hb) as (ob' & Hb' & Hrun' & _).
      exists rb, ob', e, f. split; [reflexivity |]. split; [exact Hb' | congruence].
Qed.

End WrapNew.

Lemma invoke_native fh r o body this args now s :
  fh !! r = Some o -> Callback.run o = Callback.Native body ->
  Callback.invoke fh (VFun r) this args now s = Some (body this args, s).
Proof. intros Hr Hb. unfold Callback.invoke. simpl. now rewrite Hr, Hb. Qed.

(** Running a wrapper of an application function that has no [apply] of
    its own. *)
Lemma invoke_wrapper fh rb ob r o e f body this args now s :
  fh !! rb = Some ob -> Callback.run ob = Callback.Wrapper r e f ->
  fh !! r = Some o -> Callback.run o = Callback.Native body ->
  Callback.hasOwn o "apply" = false ->
  Callback.invoke fh (VFun rb) this args now s =
  Some (match body this args with
        | Return v => (Return v, s)
        | Throw x =>
            (Throw (Util.wrapError x),
             Tracker.onError "catch" x (Some (Tracker.Meta f e false)) now s)
        end).
Proof.
  intros Hrb Hw Hr Hb Ha. unfold Callback.invoke. cbn [Callback.invokeAt].
  rewrite Hrb, Hw, Hr, Ha.
  destruct (length fh) as [| n] eqn:El.
  { apply lookup_lt_Some in Hr. lia. }
  cbn [Callback.invokeAt]. rewrite Hr, Hb. now destruct (body this args).
Qed.

(** [v.apply(this, args)] runs a function that has no [apply] of its own. *)
Lemma call_invoke fh r o this args now s :
  fh !! r = Some o -> Callback.hasOwn o "apply" = false ->
  Callback.call fh (VFun r) this args now s
  = Callback.invoke fh (VFun r) this args now s.
Proof. intros Hr Ha. unfold Callback.call. now rewrite Hr, Ha. Qed.

(** Running the wrapper that [wrap] has just built. *)
Lemma invoke_new bs stk tw fh r o body this args now s :
  fh !! r = Some o -> Callback.run o = Callback.Native body ->
  Callback.hasOwn o "apply" = false ->
  Callback.invoke (grown bs stk tw fh r o) (VFun (length fh)) this args now s =
  Some (match body this args with
        | Return v => (Return v, s)
        | Throw x =>
            (Throw (Util.wrapError x),
             Tracker.onError "catch" x
               (Some (Tracker.Meta (if bs then VStr stk else VUndef)
                                   (if bs then VNum tw else VUndef) false)) now s)
        end).
Proof.
  intros Hr Hb Ha.
  apply (invoke_wrapper (grown bs stk tw fh r o) (length fh)
           (closure bs stk tw r o) r (marked fh o) _ _ body this args now s
           (grown_top bs stk tw fh r o Hr) eq_refl
           (grown_r bs stk tw fh r o Hr) Hb).
  unfold marked. now rewrite hasOwn_assign_ne.
Qed.


(** A heap of application functions that the agent has not touched. *)
Lemma wf_untouched (fh : Callback.heap) :
  (forall r o, fh !! r = Some o ->
     (exists body, Callback.run o = Callback.Native body)
     /\ Callback.own o !! "__trackjs_state__" = None) ->
  wf fh.
Proof.
  intros H r o Hr. destruct (H r o Hr) as [[body Hb] Hs]. split.
  - intros a e f Hrun. congruence.
  - intros _ v en Hv. congruence.
Qed.

(** One application function that returns 7 and one that throws [errorX]. *)
Definition plainHeap : Callback.heap :=
  [ Callback.FunObj (Callback.Native (fun _ _ => Return (VNum 7))) ∅ VUndef;
    Callback.FunObj (Callback.Native (fun _ _ => Throw errorX)) ∅ VUndef ].

Lemma wf_plainHeap : wf plainHeap.
Proof.
  apply wf_untouched. intros r o Hr.
  destruct r as [| [| r]]; simpl in Hr; try discriminate;
    injection Hr as <-; (split; [eexists; reflexivity | apply lookup_empty]).
Qed.


(** A function that returns 7 and has been given a [name] of its own by
    assignment to a property that was made writable, or by
    [Object.defineProperty] with [enumerable] set. *)
Definition namedHeap : Callback.heap :=
  [ Callback.FunObj (Callback.Native (fun _ _ => Return (VNum 7)))
                    {[ "name" := (VStr "onReady", true) ]} VUndef ].


(** ** Exceptions through a wrapper *)



(** An application function that throws what an inner wrapper has
    rethrown: the wrapped form of the string 'boom'. *)
Definition nestedHeap : Callback.heap :=
  [ Callback.FunObj
      (Callback.Native (fun _ _ => Throw (Util.wrapError (VStr "boom")))) ∅ VUndef ].


(** ** The console cap *)

Lemma length_append (s1 s2 : string) :
  String.length (s1 +:+ s2) = (String.length s1 + String.length s2)%nat.
Proof. induction s1 as [| c s1 IH]; simpl; [reflexivity | now rewrite IH]. Qed.

Lemma length_substring0 (n : nat) (s : string) :
  String.length (String.substring 0 n s) = Nat.min n (String.length s).
Proof.
  revert s. induction n as [| n IH]; intros s.
  - now destruct s.
  - destruct s as [| c s]; simpl; [reflexivity | now rewrite IH].
Qed.

Lemma length_digits_go (fuel : nat) : forall n acc,
  (String.length (digits_go fuel n acc) <= String.length acc + fuel + 1)%nat.
Proof.
  induction fuel as [| fuel IH]; intros n acc; simpl.
  - lia.
  - destruct (n <? 10)%N; simpl; [lia |].
    specialize (IH (n / 10)%N (String (digit (n mod 10)) acc)). simpl in IH. lia.
Qed.

(** A positive number below 2^53 prints in at most 53 characters. *)
Lemma len_decimal (n : Z) : 0 < n < 2 ^ 53 -> len (decimal n) <= 53.
Proof.
  intros [H0 H1]. unfold decimal, len.
  destruct (Z.ltb_spec n 0); [lia |]. unfold decimalN.
  pose proof (length_digits_go (N.to_nat (N.log2 (Z.to_N n))) (Z.to_N n) "") as H2.
  simpl in H2.
  assert (N.log2 (Z.to_N n) < 53)%N; [| lia].
  apply N.log2_lt_pow2; [lia |].
  change (2 ^ 53)%N with (Z.to_N (2 ^ 53)). lia.
Qed.

(** What the budget test can count: a string, or a falsy value, which
    [(a.message || '')] turns into the empty string. *)
Definition countable (v : value) : Prop :=
  match v with
  | VStr _ => True
  | _ => truthy v = false
  end.

(** [(v || '').length] for such a value. *)
Definition size (v : value) : Z :=
  match v with
  | VStr m => len m
  | _ => 0
  end.

(** [c.truncate(v, 1e3)], stored back as the message. *)
Definition cut (v : value) : value := VStr (Util.truncate v 1000).

Lemma messageLength_size fs :
  countable (assoc "message" fs) ->
  Tracker.messageLength fs = Some (size (assoc "message" fs)).
Proof.
  unfold Tracker.messageLength, JS.or.
  destruct (assoc "message" fs) as [ | | b | n | m | r | cls l]; simpl;
    try reflexivity; try discriminate.
  - now intros ->.
  - now intros ->.
  - intros _. now destruct m.
Qed.

Lemma size_cut v : countable v -> size v < 2 ^ 53 -> size (cut v) <= 1058.
Proof.
  intros Hc H. unfold cut, Util.truncate, size.
  destruct v as [ | | b | n | m | r | cls l]; simpl in Hc; try discriminate;
    try (vm_compute; discriminate).
  - subst b. vm_compute. discriminate.
  - apply negb_false_iff, Z.eqb_eq in Hc. subst n. vm_compute. discriminate.
  - simpl in *. destruct (Z.leb_spec (len m) 1000); [lia |].
    pose proof (len_decimal (len m - 1000)) as Hd.
    unfold len in *. rewrite !length_append. unfold substr0.
    rewrite length_substring0. simpl String.length.
    change (Z.to_nat 1000) with 1000%nat in *. lia.
Qed.

(** The sum of the lengths, as the budget test [a()] computes it. *)
Definition total (ms : list value) : Z :=
  foldr (fun m acc => size m + acc) 0 ms.

(** The messages after the first [k] of them went through [truncate]. *)
Definition cutPrefix (k : nat) (ms : list value) : list value :=
  map cut (take k ms) ++ drop k ms.

Lemma total_cut_all ms :
  Forall (fun m => countable m /\ size m < 2 ^ 53) ms ->
  total (map cut ms) <= 1058 * Z.of_nat (length ms).
Proof.
  induction 1 as [| m ms [Hc Hm] _ IH]; simpl; [lia |].
  pose proof (size_cut m Hc Hm). unfold total in *. simpl in *. lia.
Qed.

Lemma cutPrefix_0 ms : cutPrefix 0 ms = ms.
Proof. reflexivity. Qed.

Lemma cutPrefix_lookup k ms : cutPrefix k ms !! k = ms !! k.
Proof.
  unfold cutPrefix. destruct (decide (k < length ms)%nat) as [Hlt | Hge].
  - rewrite lookup_app_r by (rewrite length_map, length_take; lia).
    rewrite length_map, length_take, lookup_drop. f_equal. lia.
  - rewrite !lookup_ge_None_2; [reflexivity | lia |].
    rewrite length_app, length_map, length_take, length_drop. lia.
Qed.

Lemma cutPrefix_step k ms m :
  ms !! k = Some m -> <[k := cut m]> (cutPrefix k ms) = cutPrefix (S k) ms.
Proof.
  intros H. pose proof (lookup_lt_Some _ _ _ H) as Hlt. unfold cutPrefix.
  rewrite (take_S_r ms k m H), (drop_S ms m k H), map_app. simpl.
  rewrite <- app_assoc. simpl.
  replace k with (length (map cut (take k ms)) + 0)%nat at 1
    by (rewrite length_map, length_take; lia).
  now rewrite insert_app_r.
Qed.

(** An object of the store whose [message] the budget test can count, as
    the entries written by the console watcher are. *)
Definition counted (st : Log.store) (o : Log.loc) : Prop :=
  exists fs, st !! o = Some (Log.CObj fs) /\ countable (assoc "message" fs).

(** The messages of the objects an array refers to. *)
Definition messages (st : Log.store) (os : list Log.loc) : list value :=
  map (fun o => assoc "message" (Log.fields st o)) os.

Lemma assoc_set_field k v fs : assoc k (set_field k v fs) = v.
Proof.
  induction fs as [| [k' v'] fs IH]; simpl.
  - now rewrite String.eqb_refl.
  - destruct (String.eqb k k') eqn:E; simpl.
    + now rewrite String.eqb_refl.
    + now rewrite E.
Qed.

Lemma totalLength_messages st os :
  Forall (counted st) os ->
  Tracker.totalLength (map (Log.fields st) os) = Some (total (messages st os)).
Proof.
  induction 1 as [| o os (fs & Ho & Hm) _ IH]; [reflexivity |].
  assert (Hf : Log.fields st o = fs) by (unfold Log.fields; now rewrite Ho).
  simpl. rewrite IH, Hf. now rewrite (messageLength_size fs Hm).
Qed.

Lemma overBudget_messages st ca os :
  Log.items st ca = os -> Forall (counted st) os ->
  Tracker.overBudget st ca = (80000 <=? total (messages st os)).
Proof.
  intros Hi Hs. unfold Tracker.overBudget, Tracker.deref.
  now rewrite Hi, totalLength_messages.
Qed.

Lemma truncateAt_spec st ca os b o :
  Log.items st ca = os -> NoDup os -> Forall (counted st) os ->
  os !! b = Some o ->
  Log.items (Tracker.truncateAt b ca st) ca = os
  /\ Forall (counted (Tracker.truncateAt b ca st)) os
  /\ messages (Tracker.truncateAt b ca st) os
     = <[b := cut (assoc "message" (Log.fields st o))]> (messages st os).
Proof.
  intros Hi Hnd Hs Hb.
  assert (Hca : st !! ca = Some (Log.CArr os)).
  { unfold Log.items in Hi. destruct (st !! ca) as [[] |]; subst; try discriminate; reflexivity. }
  assert (Ho : counted st o).
  { rewrite Forall_forall in Hs. apply Hs. eapply list_elem_of_lookup_2, Hb. }
  destruct Ho as (fs & Ho & Hm).
  assert (Hne : o <> ca) by congruence.
  assert (Hfs : Log.fields st o = fs) by (unfold Log.fields; now rewrite Ho).
  rewrite Hfs.
  set (m := assoc "message" fs) in *.
  set (st' := <[o := Log.CObj (set_field "message" (cut m) fs)]> st).
  assert (Heq : Tracker.truncateAt b ca st = st').
  { unfold Tracker.truncateAt. now rewrite Hi, Hb, Hfs. }
  rewrite Heq.
  assert (Ho' : st' !! o = Some (Log.CObj (set_field "message" (cut m) fs))).
  { apply list_lookup_insert_eq. eapply lookup_lt_Some, Ho. }
  assert (Hother : forall o', o' <> o -> st' !! o' = st !! o').
  { intros o' H. unfold st'. now rewrite list_lookup_insert_ne by congruence. }
  split; [| split].
  - unfold Log.items. now rewrite Hother, Hca by congruence.
  - rewrite Forall_forall in *. intros o' Hin.
    destruct (decide (o' = o)) as [-> | Hn].
    + eexists. split; [exact Ho' |]. now rewrite assoc_set_field.
    + destruct (Hs o' Hin) as (fs' & H1 & H2). exists fs'. now rewrite Hother.
  - apply list_eq. intros i. unfold messages.
    destruct (decide (i = b)) as [-> | Hn].
    + rewrite list_lookup_insert_eq by (rewrite length_map; eapply lookup_lt_Some, Hb).
      rewrite list_lookup_fmap, Hb. simpl. f_equal.
      unfold Log.fields. now rewrite Ho', assoc_set_field.
    + rewrite list_lookup_insert_ne by congruence.
      rewrite !list_lookup_fmap. destruct (os !! i) as [o' |] eqn:Ei; [| reflexivity].
      simpl. f_equal. unfold Log.fields. rewrite Hother; [reflexivity |].
      intros ->. apply Hn. eapply NoDup_lookup; eauto.
Qed.

(** The loop truncates a prefix of the messages, one more as long as the
    budget test holds. *)
Lemma capLoop_spec ca os ms0 (n : nat) : forall b st,
  Log.items st ca = os -> NoDup os -> Forall (counted st) os ->
  (b + n = length os)%nat -> length ms0 = length os ->
  messages st os = cutPrefix b ms0 ->
  let st' := Tracker.capLoop n b ca st in
  Log.items st' ca = os
  /\ Forall (counted st') os
  /\ exists k, (b <= k <= length os)%nat
       /\ messages st' os = cutPrefix k ms0
       /\ (total (cutPrefix k ms0) < 80000 \/ k = length os)
       /\ (forall j, (b <= j < k)%nat -> 80000 <= total (cutPrefix j ms0)).
Proof.
  induction n as [| n IH]; intros b st Hi Hnd Hs Hn Hl Ht; simpl.
  - split; [assumption |]. split; [assumption |]. exists b.
    split; [lia |]. split; [assumption |]. split; [right; lia |]. intros; lia.
  - rewrite (overBudget_messages st ca os Hi Hs), Ht, Hi.
    destruct (Z.leb_spec 80000 (total (cutPrefix b ms0))) as [Hover | Hunder]; simpl.
    + assert (Hlt : (b <? length os)%nat = true) by (apply Nat.ltb_lt; lia).
      rewrite Hlt.
      destruct (lookup_lt_is_Some_2 os b ltac:(lia)) as [o Hb].
      destruct (truncateAt_spec st ca os b o Hi Hnd Hs Hb) as (Hi' & Hs' & Ht').
      assert (Hm : ms0 !! b = Some (assoc "message" (Log.fields st o))).
      { rewrite <- cutPrefix_lookup, <- Ht. unfold messages.
        now rewrite list_lookup_fmap, Hb. }
      rewrite Ht, (cutPrefix_step b ms0 _ Hm) in Ht'.
      destruct (IH (S b) _ Hi' Hnd Hs' ltac:(lia) Hl Ht')
        as (H1 & H2 & k & Hk & H3 & H4 & H5).
      split; [assumption |]. split; [assumption |]. exists k.
      split; [lia |]. split; [assumption |]. split; [assumption |].
      intros j Hj. destruct (decide (j = b)) as [-> | Hne]; [assumption |].
      apply H5. lia.
    + split; [assumption |]. split; [assumption |]. exists b.
      split; [lia |]. split; [assumption |]. split; [left; assumption |]. intros; lia.
Qed.

Lemma consoleLog_stores ser d t sev arg lg st0 es :
  holds (lg, st0) es ->
  Log.fields (snd (Watchers.consoleLog ser d t sev arg lg st0)) (length st0)
  = [ ("timestamp", VNum t); ("severity", VStr sev); ("message", VStr (ser arg)) ].
Proof.
  intros H. unfold Watchers.consoleLog, Log.alloc.
  set (c := Log.CObj _).
  pose proof (stable_add d "c" (length st0) lg (st0 ++ [c]) es
                (holds_alloc lg st0 es c H)) as Hst.
  destruct (Log.add d "c" (length st0) lg (st0 ++ [c])) as [[k lg'] st2].
  simpl in *. unfold Log.fields.
  rewrite (Hst (length st0) c (lookup_alloc st0 c)); [reflexivity | discriminate].
Qed.


(** A string of [n] characters. *)
Fixpoint fill (n : nat) : string :=
  match n with
  | O => ""
  | S n' => String "a" (fill n')
  end.

(** A console array whose older entry is a 90000-character message. *)
Definition floodStore : Log.store :=
  [ Log.CObj [ ("severity", VStr "log");
               ("message", VStr (fill (Z.to_nat 90000))) ];
    Log.CObj [ ("severity", VStr "log"); ("message", VStr "ok") ];
    Log.CArr [0%nat; 1%nat] ].


(** The flood is cut to its first 1000 characters and the elision mark;
    the newer entry is not touched. *)
Example console_cap_flood :
  messages (Tracker.capConsole 2 floodStore) [0%nat; 1%nat]
  = [ VStr (fill (Z.to_nat 1000) +:+ "...{89000}"); VStr "ok" ].
Proof. vm_compute. reflexivity. Qed.

(** ** The pipeline end to end *)

(** No dedupe, a hook that lets everything through. *)
Definition cfgPlain : Tracker.config :=
  Tracker.Config false (fun _ _ => Tracker.HReturn (VBool true)) to_string.

(** The same error at each of the clock readings [times]. *)
Definition storm (times : list Z) (s : Tracker.state) : Tracker.state :=
  fold_left (fun s t => Tracker.onError "window" errorX None t s) times s.

(** Eleven errors within 1100 ms of installation: ten reports leave; the
    report that opens the next window says that one was suppressed. *)
Example storm_of_eleven :
  let s := storm [100; 200; 300; 400; 500; 600; 700; 800; 900; 1000; 1100]
                 (Tracker.installed browser cfgPlain "tok" 0) in
  sent s = 10%nat
  /\ Transmitter.throttledCount (Tracker.transmitter s) = 1
  /\ exists w, List.last (Tracker.trace (Tracker.onError "window" errorX None 2101 s))
                         (Tracker.EvFault VUndef None)
               = Tracker.EvSend w "tok"
               /\ Tracker.w_throttled w = Some 1.
Proof.
  cbv zeta. split; [reflexivity |]. split; [reflexivity |].
  eexists. split; [vm_compute; reflexivity | reflexivity].
Qed.

(** A hook that throws. *)
Definition cfgThrowing : Tracker.config :=
  Tracker.Config true (fun _ _ => Tracker.HThrow errorMention) to_string.

(** When the hook throws, the report is sent all the same, with a console
    entry for the hook's error, and a forced report of that error is
    deferred; here the deferred report is then dropped, its message
    mentioning the prefix. *)
Example hook_failure_is_reported :
  let s := Tracker.onError "window" errorX None 50
             (Tracker.installed browser cfgThrowing "tok" 0) in
  sent s = 1%nat
  /\ Tracker.timers s = [Tracker.TForced errorMention; Tracker.TResetGuard]
  /\ Tracker.reporting s = true
  /\ sent (Tracker.runTimer 60 s) = 1%nat
  /\ Tracker.reporting (Tracker.runTimer 61 (Tracker.runTimer 60 s)) = false.
Proof. cbv zeta. repeat split; reflexivity. Qed.

(* ===================================================================== *)
(** * Further properties of the helpers and watchers *)
(* ===================================================================== *)

(** ** truncate *)

Lemma length_digits_go_pos (fuel : nat) : forall n acc,
  (String.length acc < String.length (digits_go fuel n acc))%nat.
Proof.
  induction fuel as [| fuel IH]; intros n acc; simpl; [lia |].
  destruct (n <? 10)%N; simpl; [lia |].
  specialize (IH (n / 10)%N (String (digit (n mod 10)) acc)). simpl in IH. lia.
Qed.

Lemma len_decimal_pos (n : Z) : 1 <= len (decimal n).
Proof.
  unfold decimal, len, decimalN.
  destruct (n <? 0); [rewrite length_append |];
    match goal with
    | |- context [ digits_go ?f ?m ?a ] => pose proof (length_digits_go_pos f m a)
    end; simpl in *; lia.
Qed.

Lemma substring0_append (s1 s2 : string) :
  String.substring 0 (String.length s1) (s1 +:+ s2) = s1.
Proof. induction s1 as [| c s1 IH]; simpl; [now destruct s2 | now rewrite IH]. Qed.

(** X1. [truncate(a, b)] for a bound [b] that is not negative: a text of
    at most [b] characters comes back as it is; a longer one keeps its
    first [b] characters and gets the mark '...{n}' with [n] the number of
    characters cut, so the result has [b + 5] characters plus the digits
    of [n].  The result is therefore longer than the text itself when the
    text exceeds the bound by five characters or fewer. *)
Theorem truncate_keeps_prefix (a : value) (b : Z) :
  0 <= b ->
  let s := to_string a in
  (len s <= b -> Util.truncate a b = s)
  /\ (b < len s ->
      Util.truncate a b = substr0 b s +:+ "...{" +:+ decimal (len s - b) +:+ "}"
      /\ substr0 b (Util.truncate a b) = substr0 b s
      /\ len (Util.truncate a b) = b + 5 + len (decimal (len s - b))
      /\ (len s <= b + 5 -> len s < len (Util.truncate a b))
      /\ (len s < 2 ^ 53 -> len (Util.truncate a b) <= b + 58)).
Proof.
  intros Hb s. unfold Util.truncate. fold s. split.
  - intros H. now destruct (Z.leb_spec (len s) b); [| lia].
  - intros H. destruct (Z.leb_spec (len s) b); [lia |].
    assert (Hl : String.length (substr0 b s) = Z.to_nat b).
    { unfold substr0. rewrite length_substring0. unfold len in H. lia. }
    assert (Hlen : len (substr0 b s +:+ "...{" +:+ decimal (len s - b) +:+ "}")
                   = b + 5 + len (decimal (len s - b))).
    { unfold len in *. rewrite !length_append, Hl. simpl String.length. lia. }
    pose proof (len_decimal_pos (len s - b)) as Hd.
    split; [reflexivity |].
    split; [| split; [exact Hlen | split]].
    + unfold substr0 at 1. rewrite <- Hl. apply substring0_append.
    + intros. lia.
    + intros H53. pose proof (len_decimal (len s - b)). lia.
Qed.

Lemma truncate_keeps_prefix_witness :
  0 <= 4
  /\ Util.truncate (VStr "abcdef") 4 = "abcd" +:+ "...{" +:+ decimal 2 +:+ "}"
  /\ len (Util.truncate (VStr "abcdef") 4) = 4 + 5 + len (decimal 2)
  /\ len (to_string (VStr "abcdef")) < len (Util.truncate (VStr "abcdef") 4).
Proof.
  split; [lia |].
  destruct (proj2 (truncate_keeps_prefix (VStr "abcdef") 4 ltac:(lia)) eq_refl)
    as (H0 & _ & H1 & H2 & _).
  split; [exact H0 |].
  split; [exact H1 | apply H2; vm_compute; discriminate].
Defined.

(** ** wrapError *)

(** X2. [wrapError] is idempotent exactly on truthy values: wrapping what
    it returned for a truthy value gives that same error back, while the
    wrapped form of a falsy value ([undefined], [null], [false], [0], the
    empty string) carries a falsy [innerError] and is wrapped once more. *)
Theorem wrapError_idempotent_iff_truthy (x : value) :
  Util.wrapError (Util.wrapError x) = Util.wrapError x <-> truthy x = true.
Proof.
  split.
  - intros H. destruct (truthy x) eqn:E; [reflexivity | exfalso].
    destruct x as [ | | b | n | m | r | cls l]; simpl in E;
      try discriminate E; try (vm_compute in H; discriminate H).
    + subst b. vm_compute in H. discriminate H.
    + apply negb_false_iff, Z.eqb_eq in E. subst n. vm_compute in H. discriminate H.
    + apply negb_false_iff, String.eqb_eq in E. subst m. vm_compute in H. discriminate H.
  - intros E.
    assert (Hb : JS.or x (VStr (class_string x)) = x)
      by (unfold JS.or; now rewrite E).
    destruct (truthy (get (JS.or x (VStr (class_string x))) "innerError")) eqn:Hi.
    + assert (Hx : Util.wrapError x = x).
      { unfold Util.wrapError. cbv zeta. rewrite Hi, Hb, E. reflexivity. }
      now rewrite !Hx.
    + rewrite (wrapError_fresh x Hi). cbv zeta. rewrite Hb.
      unfold Util.wrapError. cbv zeta. unfold JS.or at 1 2. simpl.
      now rewrite E.
Qed.

(** ** escapeUrl *)

(** [c] occurs in [s]. *)
Fixpoint hasChar (c : ascii) (s : string) : bool :=
  match s with
  | EmptyString => false
  | String x t => Ascii.eqb x c || hasChar c t
  end.

Lemma hasChar_append c s1 s2 : hasChar c (s1 +:+ s2) = hasChar c s1 || hasChar c s2.
Proof. induction s1 as [| x s1 IH]; simpl; [reflexivity | now rewrite IH, orb_assoc]. Qed.

Lemma replaceChar_absent c rep s :
  hasChar c s = false -> Network.replaceChar c rep s = s.
Proof.
  induction s as [| x s IH]; simpl; [reflexivity |].
  intros H. apply orb_false_iff in H. destruct H as [H1 H2].
  now rewrite H1, IH.
Qed.

Lemma replaceChar_hasChar c rep c' s :
  hasChar c' rep = false ->
  hasChar c' (Network.replaceChar c rep s)
  = hasChar c' s && negb (Ascii.eqb c c').
Proof.
  intros Hrep. induction s as [| x s IH]; simpl; [reflexivity |].
  destruct (Ascii.eqb x c) eqn:Exc.
  - apply Ascii.eqb_eq in Exc. subst x.
    rewrite hasChar_append, Hrep, IH. simpl.
    now destruct (Ascii.eqb c c'), (hasChar c' s).
  - simpl. rewrite IH.
    destruct (Ascii.eqb x c') eqn:Exc'; simpl; [| reflexivity].
    apply Ascii.eqb_eq in Exc'. subst x. now rewrite Ascii.eqb_sym, Exc.
Qed.

(** X3. The text [escapeUrl] returns contains neither a space nor a tab,
    a text without spaces and tabs is returned as it is, and escaping is
    idempotent: an escaped text escapes to itself. *)
Theorem escapeUrl_no_whitespace (a : value) :
  hasChar " "%char (Network.escapeUrl a) = false
  /\ hasChar "009"%char (Network.escapeUrl a) = false
  /\ (hasChar " "%char (to_string a) = false ->
      hasChar "009"%char (to_string a) = false ->
      Network.escapeUrl a = to_string a)
  /\ Network.escapeUrl (VStr (Network.escapeUrl a)) = Network.escapeUrl a.
Proof.
  unfold Network.escapeUrl.
  set (s1 := Network.replaceChar " "%char "%20" (to_string a)).
  assert (H1 : hasChar " "%char s1 = false).
  { unfold s1. rewrite replaceChar_hasChar by reflexivity. apply andb_false_r. }
  assert (H2 : hasChar " "%char (Network.replaceChar "009"%char "%09" s1) = false).
  { rewrite replaceChar_hasChar by reflexivity. rewrite H1. reflexivity. }
  assert (H3 : hasChar "009"%char (Network.replaceChar "009"%char "%09" s1) = false).
  { rewrite replaceChar_hasChar by reflexivity. apply andb_false_r. }
  split; [exact H2 |]. split; [exact H3 |]. split.
  - intros Ha Hb. unfold s1. rewrite (replaceChar_absent _ _ _ Ha).
    now apply replaceChar_absent.
  - simpl. rewrite (replaceChar_absent " "%char "%20" _ H2).
    now apply replaceChar_absent.
Qed.

Example escapeUrl_example :
  Network.escapeUrl (VStr "/a b	c?q=x y") = "/a%20b%09c?q=x%20y".
Proof. reflexivity. Qed.

(** ** defaults *)

Definition nullish (v : value) : bool :=
  match v with
  | VNull | VUndef => true
  | _ => false
  end.

(** What [defaults] leaves under the key [c] of a target [d] when the
    source [e] has that key. *)
Definition resolved (e : value) (d : list (string * value)) (c : string) : value :=
  if nullish (get e c) then get e c
  else if Objects.hasField c d then assoc c d
  else get e c.

Lemma defaultKey_eq e d c :
  Objects.defaultKey e d c =
  if nullish (get e c) then set_field c (get e c) d
  else if Objects.hasField c d then d
  else set_field c (get e c) d.
Proof. unfold Objects.defaultKey. now destruct (get e c). Qed.

Lemma assoc_set_field_ne k k' v fs :
  k <> k' -> assoc k (set_field k' v fs) = assoc k fs.
Proof.
  intros Hne. induction fs as [| [k0 v0] fs IH]; simpl.
  - now rewrite (proj2 (String.eqb_neq k k')).
  - destruct (String.eqb k' k0) eqn:E; simpl.
    + apply String.eqb_eq in E. subst k0.
      now rewrite !(proj2 (String.eqb_neq k k')).
    + now rewrite IH.
Qed.

Lemma elem_of_set_field k k' v fs :
  k ∈ map fst (set_field k' v fs) <-> k = k' \/ k ∈ map fst fs.
Proof.
  induction fs as [| [k0 v0] fs IH]; simpl.
  - rewrite elem_of_cons, elem_of_nil. tauto.
  - destruct (String.eqb k' k0) eqn:E; simpl.
    + apply String.eqb_eq in E. subst k0. rewrite !elem_of_cons. tauto.
    + rewrite !elem_of_cons, IH. tauto.
Qed.

Lemma hasField_set_field k k' v fs :
  Objects.hasField k (set_field k' v fs)
  = bool_decide (k = k') || Objects.hasField k fs.
Proof.
  unfold Objects.hasField. apply eq_true_iff_eq.
  rewrite orb_true_iff, !bool_decide_eq_true. apply elem_of_set_field.
Qed.

Lemma hasField_assoc_same k v fs :
  Objects.hasField k fs = true -> assoc k fs = v -> set_field k v fs = fs.
Proof.
  unfold Objects.hasField. rewrite bool_decide_eq_true.
  induction fs as [| [k0 v0] fs IH]; simpl.
  - intros H. now apply elem_of_nil in H.
  - intros H Hv. destruct (String.eqb k k0) eqn:E.
    + apply String.eqb_eq in E. now subst.
    + f_equal. apply IH; [| assumption].
      apply elem_of_cons in H. destruct H as [-> | H]; [| assumption].
      now rewrite String.eqb_refl in E.
Qed.

Lemma defaultKey_step e d k c :
  assoc c (Objects.defaultKey e d k)
  = (if bool_decide (k = c) then resolved e d c else assoc c d)
  /\ Objects.hasField c (Objects.defaultKey e d k)
     = bool_decide (k = c) || Objects.hasField c d
  /\ resolved e (Objects.defaultKey e d k) c = resolved e d c.
Proof.
  rewrite defaultKey_eq. unfold resolved.
  destruct (decide (k = c)) as [-> | Hne].
  - rewrite bool_decide_eq_true_2 by reflexivity.
    destruct (nullish (get e c)) eqn:En; [| destruct (Objects.hasField c d) eqn:Eh].
    + now rewrite assoc_set_field, hasField_set_field, bool_decide_eq_true_2.
    + now rewrite Eh.
    + rewrite assoc_set_field, hasField_set_field, bool_decide_eq_true_2 by reflexivity.
      repeat split.
  - rewrite bool_decide_eq_false_2 by assumption.
    assert (Hne' : c <> k) by congruence.
    destruct (nullish (get e k)); [| destruct (Objects.hasField k d)];
      rewrite ?assoc_set_field_ne, ?hasField_set_field, ?bool_decide_eq_false_2
        by assumption; repeat split.
Qed.

Lemma defaultKeys_by_key e c (ks : list string) : forall d,
  assoc c (fold_left (Objects.defaultKey e) ks d)
  = (if bool_decide (c ∈ ks) then resolved e d c else assoc c d)
  /\ Objects.hasField c (fold_left (Objects.defaultKey e) ks d)
     = bool_decide (c ∈ ks) || Objects.hasField c d.
Proof.
  induction ks as [| k ks IH]; intros d.
  - rewrite bool_decide_eq_false_2 by apply not_elem_of_nil. split; reflexivity.
  - cbn [fold_left]. destruct (IH (Objects.defaultKey e d k)) as [H1 H2].
    destruct (defaultKey_step e d k c) as (S1 & S2 & S3).
    rewrite H1, H2, S1, S2, S3.
    destruct (decide (k = c)) as [-> | Hne].
    + rewrite (bool_decide_eq_true_2 (c ∈ c :: ks)) by (apply elem_of_cons; now left).
      rewrite (bool_decide_eq_true_2 (c = c)) by reflexivity.
      split; [now destruct (bool_decide (c ∈ ks)) | now rewrite orb_true_r].
    + rewrite (bool_decide_eq_false_2 (k = c)) by assumption.
      assert (Hiff : bool_decide (c ∈ k :: ks) = bool_decide (c ∈ ks)).
      { apply bool_decide_ext. rewrite elem_of_cons. split; [| tauto].
        intros [-> | H]; [congruence | assumption]. }
      now rewrite Hiff.
Qed.

(** X4. [c.defaults(d, e)] for a plain object [e], key by key.  A key the
    source does not have is left alone.  For a key the source has: a null
    or undefined source value is written over whatever the target held;
    any other source value is taken only when the target has no such
    property, and the target's own value is kept otherwise.  Afterwards
    the target has every key of the source. *)
Theorem defaults_by_key (d fs : list (string * value)) (c : string) :
  let e := VObj ClsObject fs in
  assoc c (Objects.defaults d [e])
  = (if bool_decide (c ∈ map fst fs)
     then if nullish (assoc c fs) then assoc c fs
          else if Objects.hasField c d then assoc c d
          else assoc c fs
     else assoc c d)
  /\ Objects.hasField c (Objects.defaults d [e])
     = bool_decide (c ∈ map fst fs) || Objects.hasField c d.
Proof.
  unfold Objects.defaults. simpl. apply (defaultKeys_by_key (VObj ClsObject fs) c).
Qed.

Example defaults_example :
  Objects.defaults
    [ ("url", VStr "/a"); ("statusCode", VNum 200); ("note", VStr "kept") ]
    [ VObj ClsObject [ ("statusCode", VNum 0); ("statusText", VStr "OK");
                       ("note", VNull) ] ]
  = [ ("url", VStr "/a"); ("statusCode", VNum 200); ("note", VNull);
      ("statusText", VStr "OK") ].
Proof. reflexivity. Qed.

(** A source whose keys the target all has, none of them null or
    undefined in the source, changes nothing. *)
Lemma defaults_fixed d e :
  (forall c, c ∈ Objects.keys e ->
     Objects.hasField c d = true /\ nullish (get e c) = false) ->
  Objects.defaults d [e] = d.
Proof.
  unfold Objects.defaults. simpl. generalize (Objects.keys e) as ks.
  induction ks as [| k ks IH]; intros H; simpl; [reflexivity |].
  destruct (H k (proj2 (elem_of_cons _ _ _) (or_introl eq_refl))) as [Hh Hn].
  rewrite defaultKey_eq, Hn, Hh. apply IH.
  intros c Hc. apply H. apply elem_of_cons; now right.
Qed.

(** ** The log: lookup by key, eviction and clearing *)

Definition matches (a d : string) (e : Log.entry) : bool :=
  bool_decide (Log.category e = a) && bool_decide (Log.key e = d).

Lemma find_none {A : Type} (p : A -> bool) (l : list A) :
  (forall e, e ∈ l -> p e = false) -> List.find p l = None.
Proof.
  induction l as [| x l IH]; intros H; simpl; [reflexivity |].
  rewrite (H x) by (apply elem_of_cons; now left).
  apply IH. intros e He. apply H, elem_of_cons. now right.
Qed.

Lemma find_skip {A : Type} (p : A -> bool) (l r : list A) :
  (forall e, e ∈ l -> p e = false) -> List.find p (l ++ r) = List.find p r.
Proof.
  induction l as [| x l IH]; intros H; simpl; [reflexivity |].
  rewrite (H x) by (apply elem_of_cons; now left).
  apply IH. intros e He. apply H, elem_of_cons. now right.
Qed.

Lemma elem_of_drop {A : Type} (n : nat) (l : list A) (e : A) :
  e ∈ drop n l -> e ∈ l.
Proof.
  intros H. rewrite <- (take_drop n l). apply elem_of_app. now right.
Qed.

(** X5. [get(category, key)] finds an entry by the key [add] returned for
    exactly as long as fewer than 30 entries were added after it: on a new
    log, with a key no other entry of that category bears, the lookup
    gives back the very object that was added while the entry is among
    the newest 30, and nothing once 30 later [add] calls have pushed it
    out. *)
Theorem get_until_evicted (st0 : Log.store) (pre ops : list Log.entry)
    (d a : string) (b : Log.loc) :
  (forall e, e ∈ pre ++ ops -> ~ (Log.category e = a /\ Log.key e = d)) ->
  let x := adds (pre ++ Log.Entry d a b :: ops) (Log.new st0) in
  Log.get a d (fst x) (snd x)
  = if bool_decide (length ops < 30)%nat then Some b else None.
Proof.
  intros Hfresh x.
  destruct (holds_adds (pre ++ Log.Entry d a b :: ops) st0) as [H _]. fold x in H.
  unfold Log.get. rewrite (holds_entries x _ H).
  assert (Hp : forall e, e ∈ pre ++ ops ->
             bool_decide (Log.category e = a) && bool_decide (Log.key e = d) = false).
  { intros e He. apply not_true_is_false. intros Ht.
    apply andb_true_iff in Ht. destruct Ht as [H1 H2].
    apply bool_decide_eq_true in H1, H2. now apply (Hfresh e He). }
  unfold newest. rewrite length_app. cbn [length].
  destruct (decide (length ops < 30)%nat) as [Hlt | Hge].
  - rewrite bool_decide_eq_true_2 by assumption.
    rewrite skipn_app.
    replace (length pre + S (length ops) - 30 - length pre)%nat with 0%nat by lia.
    rewrite drop_0, find_skip.
    + simpl. now rewrite !bool_decide_eq_true_2 by reflexivity.
    + intros e He. apply Hp, elem_of_app. left. eapply elem_of_drop, He.
  - rewrite bool_decide_eq_false_2 by assumption.
    rewrite skipn_app, drop_ge by lia. simpl.
    replace (length pre + S (length ops) - 30 - length pre)%nat
      with (S (length ops - 30))%nat by lia.
    simpl. rewrite find_none; [reflexivity |].
    intros e He. apply Hp, elem_of_app. right. eapply elem_of_drop, He.
Qed.

Lemma get_until_evicted_witness :
  let x := adds (Log.Entry "k0" "c" 7 :: Log.Entry "k1" "n" 8
                 :: map (fun i => Log.Entry "k" "c" i) (seq 0 30)) (Log.new []) in
  Log.get "n" "k1" (fst x) (snd x) = None.
Proof.
  exact (get_until_evicted [] [Log.Entry "k0" "c" 7]
           (map (fun i => Log.Entry "k" "c" i) (seq 0 30)) "k1" "n" 8
           ltac:(intros e He [H1 H2];
                 apply elem_of_app in He; destruct He as [He | He];
                 [ apply list_elem_of_singleton in He; subst e; discriminate H1
                 | apply list_elem_of_fmap in He; destruct He as (i & -> & _);
                   discriminate H1 ])).
Defined.

(** The added objects still to be seen after a run of writes: what was
    added since the last [clear]. *)
Fixpoint pending (ms : list mutation) (acc : list (string * string * list (string * value)))
  : list (string * string * list (string * value)) :=
  match ms with
  | [] => acc
  | MAdd d a fs :: ms => pending ms (acc ++ [(d, a, fs)])
  | MClear :: ms => pending ms []
  end.

(** The entry [e] of the store [st] is the record of the add [p]. *)
Definition records (st : Log.store) (e : Log.entry)
    (p : string * string * list (string * value)) : Prop :=
  Log.key e = fst (fst p) /\ Log.category e = snd (fst p)
  /\ st !! Log.value e = Some (Log.CObj (snd p)).

Lemma records_stable st st' es ps :
  stable st st' -> Forall2 (records st) es ps -> Forall2 (records st') es ps.
Proof.
  intros Hs H. eapply Forall2_impl; [exact H |].
  intros e p (H1 & H2 & H3). repeat split; try assumption.
  apply Hs; [exact H3 | discriminate].
Qed.

Lemma records_newest st es ps n :
  Forall2 (records st) es ps -> Forall2 (records st) (newest n es) (newest n ps).
Proof.
  intros H. unfold newest. rewrite (Forall2_length _ _ _ H).
  now apply Forall2_drop.
Qed.

Lemma mutate_records x es ps m :
  holds x es -> Log.maxLength (fst x) = 30 ->
  Forall2 (records (snd x)) es (newest 30 ps) ->
  exists es',
    holds (mutate x m) es'
    /\ Log.maxLength (fst (mutate x m)) = 30
    /\ Forall2 (records (snd (mutate x m))) es' (newest 30 (pending [m] ps)).
Proof.
  destruct x as [lg st]. intros H Hm HR. destruct m as [d a fs | ]; simpl.
  - pose proof (holds_alloc lg st es (Log.CObj fs) H) as H1.
    pose proof (holds_add d a (length st) lg _ _ H1 Hm) as H2.
    pose proof (stable_add d a (length st) lg _ _ H1) as H3.
    destruct (Log.add d a (length st) lg (st ++ [Log.CObj fs])) as [[k lg'] st'].
    destruct H2 as (_ & H2 & Hm'). simpl in *.
    eexists. split; [exact H2 |]. split; [assumption |].
    rewrite <- (newest_snoc 30 ps). apply records_newest.
    apply Forall2_app.
    + eapply records_stable; [| exact HR].
      eapply stable_trans; [apply stable_alloc | exact H3].
    + constructor; [| constructor]. repeat split. simpl.
      apply H3; [apply lookup_alloc | discriminate].
  - unfold holds in *. simpl in *. exists []. split; [| split; [assumption |]].
    + unfold Log.clear. apply list_lookup_insert_eq. eapply lookup_lt_Some, H.
    + constructor.
Qed.

Lemma mutations_records ms : forall x es ps,
  holds x es -> Log.maxLength (fst x) = 30 ->
  Forall2 (records (snd x)) es (newest 30 ps) ->
  exists es',
    holds (mutations ms x) es'
    /\ Forall2 (records (snd (mutations ms x))) es' (newest 30 (pending ms ps)).
Proof.
  induction ms as [| m ms IH]; intros x es ps H Hm HR.
  - exists es. split; assumption.
  - destruct (mutate_records x es ps m H Hm HR) as (es' & H' & Hm' & HR').
    destruct (IH (mutate x m) es' (pending [m] ps) H' Hm' HR') as (es2 & H2 & HR2).
    exists es2. split; [exact H2 |].
    now destruct m.
Qed.

Lemma records_filter st a es ps :
  Forall2 (records st) es ps ->
  map (Log.fields st) (map Log.value (filter (fun d => Log.category d = a) es))
  = map snd (filter (fun p => snd (fst p) = a) ps).
Proof.
  induction 1 as [| e p es ps (H1 & H2 & H3) HR IH]; [reflexivity |].
  rewrite !filter_cons. rewrite <- H2.
  destruct (decide (Log.category e = a)); simpl; [| exact IH].
  rewrite IH. f_equal. unfold Log.fields. now rewrite H3.
Qed.

(** X6. [clear()] and [add] together.  After any run of [add] calls of
    freshly built objects and [clear] calls on a new log, the log holds
    the newest 30 of what was added since the last [clear], and nothing
    older: never more than 30 entries, and [all(category)], read through
    the store, gives the fields of exactly those objects of the category,
    oldest first. *)
Theorem log_restarts_at_clear (st0 : Log.store) (ms : list mutation) (a : string) :
  let x := mutations ms (Log.new st0) in
  let snap := Log.all a (fst x) (snd x) in
  (length (Log.entries (snd x) (Log.appender (fst x))) <= 30)%nat
  /\ map (fun e => (Log.key e, Log.category e))
         (Log.entries (snd x) (Log.appender (fst x)))
     = map fst (newest 30 (pending ms []))
  /\ Tracker.deref (snd snap) (fst snap)
     = map snd (filter (fun p => snd (fst p) = a) (newest 30 (pending ms []))).
Proof.
  intros x snap. destruct (holds_new st0) as [H0 Hm0].
  destruct (mutations_records ms (Log.new st0) [] [] H0 Hm0) as (es & H & HR);
    [constructor |].
  fold x in H, HR. rewrite (holds_entries x es H).
  split; [| split].
  - rewrite (Forall2_length _ _ _ HR). apply newest_length.
  - clear -HR. induction HR as [| e p es ps (H1 & H2 & _) _ IH]; [reflexivity |].
    simpl. rewrite IH, H1, H2. now destruct p as [[? ?] ?].
  - unfold Tracker.deref, snap. rewrite all_items, (holds_entries x es H).
    unfold Log.all, Log.alloc. cbn [snd].
    rewrite <- (records_filter (snd x) a es _ HR).
    apply map_ext_in. intros o Ho.
    apply in_map_iff in Ho. destruct Ho as (e & <- & He).
    apply list_elem_of_In, list_elem_of_filter in He. destruct He as [_ He].
    apply list_elem_of_lookup in He. destruct He as [i Hi].
    destruct (Forall2_lookup_l _ _ _ _ _ HR Hi) as (p & _ & _ & _ & Hp).
    unfold Log.fields. now rewrite (lookup_app_l_Some _ _ _ _ Hp), Hp.
Qed.

Example log_restarts_example :
  let x := mutations [ MAdd "k1" "c" [("message", VStr "one")];
                       MAdd "k2" "n" [("url", VStr "/a")];
                       MClear;
                       MAdd "k3" "c" [("message", VStr "two")] ] (Log.new []) in
  Tracker.deref (snd (Log.all "c" (fst x) (snd x))) (fst (Log.all "c" (fst x) (snd x)))
  = [ [("message", VStr "two")] ]
  /\ Log.get "n" "k2" (fst x) (snd x) = None.
Proof. split; reflexivity. Qed.

(** ** The throttle: storms of any length, and fault beacons *)

(** X7. The window is a rolling one: it stays open for as long as each
    attempt comes within 1000 ms of the one before.  On a transmitter
    built at [t0], of any such run of attempts, however long and however
    long it lasts, exactly the first ten are transmitted; every later
    one is counted in [throttledCount]. *)
Theorem throttle_storm_cap {A : Type} (annotate : Z -> A -> A) (a : A)
    (g : Host.t) (t0 : Z) (times : list Z) :
  canPost g -> Host.hasJSON g = true -> rolling t0 times ->
  let r := sendErrors annotate a g times (Transmitter.new g t0) in
  fst r = Z.min (Z.of_nat (length times)) 10
  /\ Transmitter.throttledCount (snd r) = Z.max 0 (Z.of_nat (length times) - 10)
  /\ forall k, fst (sendErrors annotate a g (take k times) (Transmitter.new g t0))
               = Z.min (Z.min (Z.of_nat k) (Z.of_nat (length times))) 10.
Proof.
  intros Hg Hj Hr.
  assert (Hnew : Transmitter.disabled (Transmitter.new g t0) = false)
    by (unfold Transmitter.new; simpl; now rewrite Hj).
  assert (Hany : forall ts, rolling t0 ts ->
            sendErrors annotate a g ts (Transmitter.new g t0)
            = (Z.min (Z.of_nat (length ts)) 10,
               Transmitter.Make false (Z.of_nat (length ts))
                 (Z.max 0 (Z.of_nat (length ts) - 10)) (List.last ts t0))).
  { intros ts Hts.
    pose proof (sendErrors_rolling annotate a g ts Hg (Transmitter.new g t0)
                  Hnew ltac:(simpl; lia) Hts) as H.
    cbv zeta in H. rewrite H. simpl. (f_equal; [| f_equal]); lia. }
  cbv zeta. rewrite (Hany times Hr). simpl. split; [reflexivity |].
  split; [reflexivity |].
  intros k. rewrite (Hany (take k times) (rolling_take _ _ k Hr)). simpl.
  rewrite length_take. lia.
Qed.

Lemma throttle_storm_cap_witness :
  fst (sendErrors (fun n (_ : option Z) => Some n) None browser
         (map (fun i => 900 * Z.of_nat i) (seq 1 40)) (Transmitter.new browser 0))
  = 10.
Proof.
  refine (proj1 (throttle_storm_cap (fun n (_ : option Z) => Some n) None browser 0
                   (map (fun i => 900 * Z.of_nat i) (seq 1 40))
                   (or_introl (conj eq_refl eq_refl)) eq_refl _)).
  simpl. lia.
Defined.

(** Whether an event reaches [throttle] on a transmitter whose [disabled]
    flag is [d]: a fault beacon always does, an error report only on an
    enabled transmitter, a transport answer never. *)
Definition reaches (d : bool) (ev : txevent) : bool :=
  match ev with
  | TxSendError _ => negb d
  | TxFault _ => true
  | TxResponse _ => false
  end.

Fixpoint reaching (d : bool) (evs : list txevent) : Z :=
  match evs with
  | [] => 0
  | ev :: evs => (if reaches d ev then 1 else 0) + reaching d evs
  end.

(** A burst: every attempt is stamped within the second that starts at
    [lo], and the transport reports no failure meanwhile. *)
Definition calm (lo : Z) (ev : txevent) : Prop :=
  match ev with
  | TxSendError b | TxFault b => lo <= b <= lo + 1000
  | TxResponse r => ~ failing r
  end.

Section Traffic.

Context {A : Type} (annotate : Z -> A -> A) (a : A) (g : Host.t).

(** Error reports that leave, fault beacons that leave, and the
    transmitter afterwards. *)
Fixpoint traffic (evs : list txevent) (tx : Transmitter.t)
  : Z * Z * Transmitter.t :=
  match evs with
  | [] => (0, 0, tx)
  | TxSendError now :: evs =>
      let '(r, _, tx1) := Transmitter.sendError annotate g a now tx in
      let '(e, f, tx2) := traffic evs tx1 in
      (posted r + e, f, tx2)
  | TxFault now :: evs =>
      let '(ok, _, tx1) := Transmitter.sendTrackerFault annotate a now tx in
      let '(e, f, tx2) := traffic evs tx1 in
      (e, (if ok then 1 else 0) + f, tx2)
  | TxResponse r :: evs => traffic evs (Transmitter.respond r tx)
  end.

End Traffic.

Lemma respond_calm (r : Transmitter.response) (tx : Transmitter.t) :
  ~ failing r -> Transmitter.respond r tx = tx.
Proof.
  destruct r as [rs status | ok | ]; simpl.
  - intros H. unfold Transmitter.onreadystatechange.
    destruct (Z.eqb_spec rs 4) as [-> | Hrs]; [| reflexivity]. simpl.
    destruct (decide (status ∈ [200; 202])) as [Hin | Hout].
    + now rewrite bool_decide_eq_true_2.
    + exfalso. apply H. split; [reflexivity |].
      rewrite !elem_of_cons, elem_of_nil in Hout. lia.
  - unfold Transmitter.fetchThen. destruct ok; [reflexivity | tauto].
  - tauto.
Qed.

Lemma traffic_burst {A : Type} (annotate : Z -> A -> A) (a : A) (g : Host.t)
    (lo : Z) (evs : list txevent) : forall tx,
  canPost g -> Forall (calm lo) evs ->
  0 <= Transmitter.attemptCount tx ->
  lo <= Transmitter.lastAttempt tx <= lo + 1000 ->
  let d := Transmitter.disabled tx in
  let room := Z.max 0 (10 - Transmitter.attemptCount tx) in
  let '(e, f, tx') := traffic annotate a g evs tx in
  e + f = Z.min (reaching d evs) room
  /\ 0 <= e /\ 0 <= f
  /\ (d = true -> e = 0)
  /\ Transmitter.disabled tx' = d
  /\ Transmitter.attemptCount tx' = Transmitter.attemptCount tx + reaching d evs.
Proof.
  assert (Hpos : forall d l, 0 <= reaching d l).
  { intros d l. induction l as [| ev l IH]; simpl; [lia |].
    destruct (reaches d ev); lia. }
  induction evs as [| ev evs IH]; intros tx Hg Hc Hn Hl; cbv zeta.
  - simpl. repeat split; lia.
  - apply Forall_cons in Hc. destruct Hc as [Hev Hc].
    pose proof (Hpos (Transmitter.disabled tx) evs) as Hp.
    destruct ev as [b | b | r]; cbn [traffic reaching reaches calm] in *.
    + destruct (Transmitter.disabled tx) eqn:Hd.
      * rewrite sendError_disabled by assumption.
        specialize (IH tx Hg Hc Hn Hl). cbv zeta in IH. rewrite Hd in IH.
        destruct (traffic annotate a g evs tx) as [[e f] tx'].
        destruct IH as (I1 & I2 & I3 & I4 & I5 & I6).
        cbn [posted negb]. repeat split; try lia; try assumption.
      * rewrite sendError_enabled, throttle_inside by (assumption || lia).
        rewrite Hd.
        set (tx1 := Transmitter.Make _ _ _ _).
        specialize (IH tx1 Hg Hc ltac:(simpl; lia) ltac:(simpl; lia)).
        cbv zeta in IH. subst tx1.
        cbn [Transmitter.attemptCount Transmitter.disabled] in IH.
        destruct (traffic annotate a g evs _) as [[e f] tx'].
        destruct IH as (I1 & I2 & I3 & I4 & I5 & I6).
        cbn [negb].
        destruct (Z.leb_spec 10 (Transmitter.attemptCount tx)); cbn [posted];
          repeat split; try lia; try assumption; discriminate.
    + unfold Transmitter.sendTrackerFault.
      rewrite throttle_inside by lia.
      set (tx1 := Transmitter.Make _ _ _ _).
      specialize (IH tx1 Hg Hc ltac:(simpl; lia) ltac:(simpl; lia)).
      cbv zeta in IH. subst tx1.
      cbn [Transmitter.attemptCount Transmitter.disabled] in IH.
      destruct (traffic annotate a g evs _) as [[e f] tx'].
      destruct IH as (I1 & I2 & I3 & I4 & I5 & I6).
      destruct (Z.leb_spec 10 (Transmitter.attemptCount tx)); cbn [negb];
        repeat split; try lia; try assumption.
    + rewrite respond_calm by assumption.
      specialize (IH tx Hg Hc Hn Hl). cbv zeta in IH.
      destruct (traffic annotate a g evs tx) as [[e f] tx'].
      destruct IH as (I1 & I2 & I3 & I4 & I5 & I6).
      repeat split; try lia; assumption.
Qed.

(** X8. Fault beacons and error reports draw on one budget, and
    [disabled] gates only the reports.  In a burst (all attempts stamped
    within one second of the transmitter's last attempt, no transport
    failure meanwhile) on a transmitter with no attempt counted yet:
    reports and beacons that leave number ten at most between them,
    counted in the order they come; on a disabled transmitter no report
    leaves and none uses up an attempt, while up to ten beacons still
    leave. *)
Theorem beacons_share_budget {A : Type} (annotate : Z -> A -> A) (a : A)
    (g : Host.t) (evs : list txevent) (tx : Transmitter.t) :
  canPost g -> Transmitter.attemptCount tx = 0 ->
  Forall (calm (Transmitter.lastAttempt tx)) evs ->
  let '(e, f, tx') := traffic annotate a g evs tx in
  e + f = Z.min (reaching (Transmitter.disabled tx) evs) 10
  /\ (Transmitter.disabled tx = true ->
      e = 0 /\ f = Z.min (reaching true evs) 10)
  /\ Transmitter.disabled tx' = Transmitter.disabled tx
  /\ Transmitter.attemptCount tx' = reaching (Transmitter.disabled tx) evs.
Proof.
  intros Hg Hc Hb.
  pose proof (traffic_burst annotate a g (Transmitter.lastAttempt tx) evs tx
                Hg Hb ltac:(lia) ltac:(lia)) as H.
  cbv zeta in H. rewrite Hc in H.
  destruct (traffic annotate a g evs tx) as [[e f] tx'].
  destruct H as (H1 & H2 & H3 & H4 & H5 & H6).
  split; [exact H1 |]. split; [| split; [exact H5 | lia]].
  intros Hd. specialize (H4 Hd). rewrite Hd in H1. lia.
Qed.

Lemma beacons_share_budget_witness :
  traffic (fun n (_ : option Z) => Some n) None browser
    [TxFault 1; TxSendError 2; TxFault 3; TxSendError 4; TxSendError 5;
     TxSendError 6; TxSendError 7; TxSendError 8; TxSendError 9;
     TxFault 10; TxSendError 11; TxFault 12]
    (Transmitter.new browser 0)
  = (7, 3, Transmitter.Make false 12 2 12)
  /\ fst (traffic (fun n (_ : option Z) => Some n) None browser
            [TxSendError 1; TxFault 2; TxSendError 3; TxFault 4]
            (Transmitter.Make true 0 0 0))
     = (0, 2).
Proof.
  split; [reflexivity |].
  pose proof (beacons_share_budget (fun n (_ : option Z) => Some n) None browser
                [TxSendError 1; TxFault 2; TxSendError 3; TxFault 4]
                (Transmitter.Make true 0 0 0)
                (or_introl (conj eq_refl eq_refl)) eq_refl
                ltac:(repeat constructor; simpl; lia)) as H.
  destruct (traffic _ _ _ _ _) as [[e f] tx'].
  destruct H as (_ & H & _). destruct (H eq_refl) as [-> ->]. reflexivity.
Defined.

(** ** The error path, further *)

(** The agent is installed and enabled on a supported host. *)
Definition live (s : Tracker.state) : Prop :=
  Tracker.hasInstalled s = true /\ Tracker.hasEnabled s = true
  /\ Host.browserSupported (Tracker.host s) = true.

(** [onError(d, e, f)] gets as far as building a payload, whose message
    is [msg]. *)
Definition reportable (e : value) (f : option Tracker.meta) (s : Tracker.state)
    (msg : string) : Prop :=
  live s
  /\ get (Tracker.normalize e (Tracker.metaOrDefault f) s) "message" = VStr msg
  /\ contains msg "Track Caught" = false
  /\ Tracker.reporting s && contains msg "Script error" = false.

(** The report is not the one remembered by dedupe. *)
Definition novel (e : value) (f : option Tracker.meta) (s : Tracker.state) : Prop :=
  Tracker.dedupe (Tracker.cfg s) = true ->
  Tracker.lastFingerprint s <> Some (errorFingerprint e f s).

(** What the error path shares with the watchers and the timers. *)
Definition core (s : Tracker.state)
  : Log.t * Log.store * bool * list Tracker.task :=
  (Tracker.log s, Tracker.st s, Tracker.reporting s, Tracker.timers s).

Lemma onError_reaches d e f now s msg :
  reportable e f s msg ->
  let e' := Tracker.normalize e (Tracker.metaOrDefault f) s in
  Tracker.onError d e f now s
  = Tracker.consult (fst (Tracker.assemble d e' msg (Tracker.metaOrDefault f) now s))
      e' (Tracker.metaOrDefault f) now
      (snd (Tracker.assemble d e' msg (Tracker.metaOrDefault f) now s)).
Proof.
  intros ((Hi & He & Hb) & Hm & Hc & Hr) e'.
  unfold Tracker.onError. rewrite Hi, He, Hb. cbn [andb].
  rewrite Hm, Hc, Hr. cbn [negb]. unfold e'.
  now destruct (Tracker.assemble d _ msg (Tracker.metaOrDefault f) now s).
Qed.

Lemma onFault_core a now s : core (Tracker.onFault a now s) = core s.
Proof.
  unfold Tracker.onFault.
  destruct (Transmitter.sendTrackerFault _ _ _ _) as [[beacon ann] tx].
  now destruct beacon.
Qed.

Lemma dispatch_effects h now s :
  (Tracker.dedupe (Tracker.cfg s) = true ->
   Tracker.lastFingerprint s
   <> Some (fingerprint (Tracker.message h) (Tracker.stack h))) ->
  core (Tracker.dispatch h now s)
  = (Tracker.log s,
     Log.clear (Tracker.log s) (Tracker.capConsole (Tracker.console h) (Tracker.st s)),
     true, Tracker.timers s ++ [Tracker.TResetGuard]).
Proof.
  intros Hk. unfold Tracker.dispatch.
  fold (fingerprint (Tracker.message h) (Tracker.stack h)).
  assert (Hc : Tracker.dedupe (Tracker.cfg s)
               && bool_decide (Tracker.lastFingerprint s
                    = Some (fingerprint (Tracker.message h) (Tracker.stack h)))
               = false).
  { destruct (Tracker.dedupe (Tracker.cfg s)); [| reflexivity].
    simpl. apply bool_decide_eq_false. auto. }
  rewrite Hc.
  destruct (Tracker.dedupe (Tracker.cfg s));
    match goal with
    | |- context [ Transmitter.sendError ?a ?g ?x ?n ?t ] =>
        destruct (Transmitter.sendError a g x n t) as [[r h'] tx]
    end;
    destruct r; try reflexivity; now rewrite onFault_core.
Qed.

(** What [assemble] writes into the payload, and what it leaves alone. *)
Lemma assemble_fields d e msg f now s :
  let h := fst (Tracker.assemble d e msg f now s) in
  let s0 := snd (Tracker.assemble d e msg f now s) in
  Tracker.entry h = d /\ Tracker.message h = msg
  /\ Tracker.stack h = get e "stack"
  /\ Tracker.bindStack h = Tracker.m_bindStack f
  /\ Tracker.bindTime h = Tracker.m_bindTime f
  /\ Tracker.timestamp h = now
  /\ Tracker.throttled h = None
  /\ Tracker.console h = length (Tracker.st s)
  /\ Tracker.log s0 = Tracker.log s
  /\ Tracker.reporting s0 = Tracker.reporting s
  /\ Tracker.timers s0 = Tracker.timers s
  /\ Tracker.transmitter s0 = Tracker.transmitter s
  /\ exists arrays, length arrays = 4%nat /\ Tracker.st s0 = Tracker.st s ++ arrays.
Proof.
  unfold Tracker.assemble, Log.all, Log.alloc. cbn [fst snd].
  repeat split. eexists [_; _; _; _]. split; [reflexivity |].
  cbn [Tracker.st Tracker.set_store]. now rewrite <- !app_assoc.
Qed.

Lemma length_truncateAt b ca st : length (Tracker.truncateAt b ca st) = length st.
Proof.
  unfold Tracker.truncateAt. destruct (Log.items st ca !! b); [| reflexivity].
  apply length_insert.
Qed.

Lemma length_capLoop ca (n : nat) : forall b st,
  length (Tracker.capLoop n b ca st) = length st.
Proof.
  induction n as [| n IH]; intros b st; simpl; [reflexivity |].
  destruct (Tracker.overBudget st ca && (b <? length (Log.items st ca))%nat);
    [| reflexivity].
  now rewrite IH, length_truncateAt.
Qed.

Lemma length_capConsole ca st : length (Tracker.capConsole ca st) = length st.
Proof. apply length_capLoop. Qed.

Lemma entries_clear lg st :
  (Log.appender lg < length st)%nat ->
  Log.entries (Log.clear lg st) (Log.appender lg) = [].
Proof.
  intros H. unfold Log.entries, Log.clear. now rewrite list_lookup_insert_eq.
Qed.

(** The hook call of a report, none when the report is forced. *)
Definition asked (f : Tracker.meta) (w : Tracker.wire) (e : value)
  : list Tracker.event :=
  if Tracker.force f then [] else [Tracker.EvHook w e].

Lemma asked_counts f w e :
  countSend (asked f w e) = 0%nat
  /\ countHook (asked f w e) = (if Tracker.force f then 0 else 1)%nat.
Proof. unfold asked. now destruct (Tracker.force f). Qed.

(** The hook block when the hook lets the payload through, or is not
    asked. *)
Lemma consult_permissive h e f now s :
  permissive (Tracker.cfg s) ->
  Tracker.consult h e f now s
  = Tracker.dispatch h now
      (Tracker.State (Tracker.host s) (Tracker.hasInstalled s) (Tracker.hasEnabled s)
         (Tracker.cfg s) (Tracker.token s) (Tracker.log s) (Tracker.st s)
         (Tracker.lastFingerprint s) (Tracker.reporting s) (Tracker.transmitter s)
         (Tracker.timers s)
         (Tracker.trace s ++ asked f (Tracker.view (Tracker.st s) h) e)).
Proof.
  intros Hp. unfold Tracker.consult, asked. destruct (Tracker.force f).
  - rewrite app_nil_r. now destruct s.
  - change (Tracker.cfg (Tracker.emit ?x s)) with (Tracker.cfg s).
    now destruct (Hp (Tracker.view (Tracker.st s) h) e) as (r & -> & ->).
Qed.

(** A report that passes the hook and is no duplicate: the state at the
    end of [onError], but for the transmitter and the trace. *)
Lemma onError_core d e f now s msg :
  reportable e f s msg -> permissive (Tracker.cfg s) -> novel e f s ->
  exists arrays,
    length arrays = 4%nat
    /\ Tracker.st (snd (Tracker.assemble d
                         (Tracker.normalize e (Tracker.metaOrDefault f) s) msg
                         (Tracker.metaOrDefault f) now s))
       = Tracker.st s ++ arrays
    /\ core (Tracker.onError d e f now s)
       = (Tracker.log s,
          Log.clear (Tracker.log s)
            (Tracker.capConsole (length (Tracker.st s)) (Tracker.st s ++ arrays)),
          true, Tracker.timers s ++ [Tracker.TResetGuard]).
Proof.
  intros Hr Hp Hn. rewrite (onError_reaches d e f now s msg Hr). cbv zeta.
  set (e' := Tracker.normalize e (Tracker.metaOrDefault f) s).
  destruct (assemble_fields d e' msg (Tracker.metaOrDefault f) now s)
    as (_ & Hmsg & Hstk & _ & _ & _ & _ & Hca & Hlog & Hrep & Htm & _ & arrays & Hlen & Hst).
  destruct (assemble_prepared d e' msg (Tracker.metaOrDefault f) now s)
    as ((P1 & P2 & _) & _).
  destruct (Tracker.assemble d e' msg (Tracker.metaOrDefault f) now s) as [h s0].
  cbn [fst snd] in *.
  rewrite (consult_permissive h e' (Tracker.metaOrDefault f) now s0)
    by now rewrite (setup_cfg _ _ P1).
  exists arrays. split; [exact Hlen |]. split; [exact Hst |].
  rewrite dispatch_effects.
  - cbn [Tracker.log Tracker.st Tracker.timers]. now rewrite Hlog, Hst, Htm, Hca.
  - cbn [Tracker.cfg Tracker.lastFingerprint].
    rewrite (setup_cfg _ _ P1), P2, Hmsg, Hstk. intros Hd.
    specialize (Hn Hd). unfold errorFingerprint in Hn.
    destruct Hr as (_ & Hm & _). fold e' in Hn, Hm. now rewrite Hm in Hn.
Qed.

(** The transmitter turns the attempt at [now] down. *)
Definition rejects (now : Z) (tx : Transmitter.t) : Prop :=
  Transmitter.disabled tx = true
  \/ 10 <= Transmitter.attemptCount tx /\ now <= Transmitter.lastAttempt tx + 1000.

Lemma sendError_rejects {A : Type} (annotate : Z -> A -> A) g (a : A) now tx :
  rejects now tx ->
  fst (fst (Transmitter.sendError annotate g a now tx)) = Transmitter.NotSent.
Proof.
  intros [Hd | [Hc Hw]]; unfold Transmitter.sendError.
  - now rewrite Hd.
  - destruct (Transmitter.disabled tx); [reflexivity |].
    rewrite throttle_inside by assumption.
    now destruct (Z.leb_spec 10 (Transmitter.attemptCount tx)); [| lia].
Qed.

Lemma dispatch_rejected h now s :
  rejects now (Tracker.transmitter s) ->
  Tracker.trace (Tracker.dispatch h now s) = Tracker.trace s.
Proof.
  intros Hr. unfold Tracker.dispatch.
  destruct (Tracker.dedupe (Tracker.cfg s) && bool_decide _); [reflexivity |].
  destruct (Tracker.dedupe (Tracker.cfg s));
    match goal with
    | |- context [ Transmitter.sendError ?a ?g ?x ?n ?t ] =>
        pose proof (sendError_rejects a g x n t Hr) as Hs;
        destruct (Transmitter.sendError a g x n t) as [[r h'] tx]
    end; simpl in Hs; now subst r.
Qed.

(** X9. A report that the transmitter turns down (the channel is
    disabled, or the throttle is closed) is consumed all the same.  When
    it has passed the hook and is no duplicate: nothing is transmitted,
    yet the log is emptied, so what was recorded up to then is lost; and
    under dedupe its fingerprint is remembered, so that the same error
    coming straight after is dropped as a duplicate whatever the state of
    the transmitter by then. *)
Theorem rejected_report_is_consumed (d : string) (e : value)
    (f : option Tracker.meta) (now : Z) (s : Tracker.state) (msg : string)
    (es : list Log.entry) :
  reportable e f s msg -> permissive (Tracker.cfg s) -> novel e f s ->
  holds (Tracker.log s, Tracker.st s) es ->
  rejects now (Tracker.transmitter s) ->
  let s1 := Tracker.onError d e f now s in
  sent s1 = sent s
  /\ Tracker.log s1 = Tracker.log s
  /\ Log.entries (Tracker.st s1) (Log.appender (Tracker.log s1)) = []
  /\ (Tracker.dedupe (Tracker.cfg s) = true ->
      Tracker.lastFingerprint s1 = Some (errorFingerprint e f s)
      /\ forall d2 f2 t2,
           Tracker.force (Tracker.metaOrDefault f2)
           = Tracker.force (Tracker.metaOrDefault f) ->
           sent (Tracker.onError d2 e f2 t2 s1) = sent s).
Proof.
  intros Hr Hp Hn Hh Hrej s1.
  destruct (onError_core d e f now s msg Hr Hp Hn) as (arrays & Hlen & _ & Hcore).
  fold s1 in Hcore. unfold core in Hcore. injection Hcore as Hlog Hst _ _.
  assert (Hsent : sent s1 = sent s /\ Tracker.lastFingerprint s1
            = (if Tracker.dedupe (Tracker.cfg s)
               then Some (errorFingerprint e f s) else Tracker.lastFingerprint s)).
  { unfold s1. rewrite (onError_reaches d e f now s msg Hr). cbv zeta.
    set (e' := Tracker.normalize e (Tracker.metaOrDefault f) s).
    destruct (assemble_fields d e' msg (Tracker.metaOrDefault f) now s)
      as (_ & Hmsg & Hstk & _ & _ & _ & _ & _ & _ & _ & _ & Htx & _).
    destruct (assemble_prepared d e' msg (Tracker.metaOrDefault f) now s)
      as ((P1 & P2 & P3 & _) & _).
    destruct (Tracker.assemble d e' msg (Tracker.metaOrDefault f) now s) as [h s0].
    cbn [fst snd] in *. rewrite app_nil_r in P3.
    rewrite (consult_permissive h e' (Tracker.metaOrDefault f) now s0)
      by now rewrite (setup_cfg _ _ P1).
    destruct (asked_counts (Tracker.metaOrDefault f)
                (Tracker.view (Tracker.st s0) h) e') as [Hps _].
    split.
    - unfold sent. rewrite dispatch_rejected by (cbn [Tracker.transmitter]; now rewrite Htx).
      cbn [Tracker.trace]. rewrite P3, countSend_app. lia.
    - match goal with
      | |- context [ Tracker.dispatch h now ?sx ] =>
          destruct (dispatch_frame h now sx) as (_ & F & _)
      end.
      rewrite F. cbn [Tracker.cfg Tracker.lastFingerprint].
      rewrite (setup_cfg _ _ P1), P2, Hmsg, Hstk.
      unfold errorFingerprint. fold e'.
      destruct Hr as (_ & Hm & _). fold e' in Hm. now rewrite Hm. }
  destruct Hsent as [Hsent Hfp].
  split; [exact Hsent |]. split; [exact Hlog |]. split.
  { rewrite Hlog, Hst. apply entries_clear.
    rewrite length_capConsole, length_app.
    unfold holds in Hh. cbn [fst snd] in Hh. apply lookup_lt_Some in Hh. lia. }
  intros Hd. rewrite Hd in Hfp. split; [exact Hfp |].
  intros d2 f2 t2 Hf.
  destruct (onError_advances d e f now s) as (n1 & _ & A1 & _).
  fold s1 in A1.
  destruct (onError_advances d2 e f2 t2 s1)
    as (n2 & _ & _ & _ & evs & B3 & _ & _ & _ & B6).
  unfold sent in Hsent |- *. rewrite B3, countSend_app, B6; [lia | |].
  - now rewrite (setup_cfg _ _ A1).
  - rewrite Hfp. f_equal. unfold errorFingerprint.
    now rewrite (normalize_setup e (Tracker.metaOrDefault f) (Tracker.metaOrDefault f2)
                   s s1 A1 (eq_sym Hf)).
Qed.

(** A tracker whose throttle is closed: ten attempts counted, the last
    of them at 0. *)
Definition throttledTracker : Tracker.state :=
  Tracker.set_transmitter (Transmitter.Make false 10 0 0)
    (Tracker.installed browser cfgDedupe "tok" 0).

Lemma rejected_report_is_consumed_witness :
  rejects 50 (Tracker.transmitter throttledTracker)
  /\ admits 5000 (Tracker.transmitter (Tracker.onError "window" errorX None 50 throttledTracker))
  /\ sent (Tracker.onError "window" errorX None 5000
             (Tracker.onError "window" errorX None 50 throttledTracker)) = 0%nat.
Proof.
  assert (Hrej : rejects 50 (Tracker.transmitter throttledTracker))
    by (right; simpl; lia).
  split; [exact Hrej |]. split; [right; vm_compute; reflexivity |].
  refine (proj2 (proj2 (proj2 (proj2
            (rejected_report_is_consumed "window" errorX None 50 throttledTracker "x" []
               _ _ _ _ Hrej))) eq_refl) "window" None 5000 eq_refl).
  - repeat split.
  - intros w e. exists (VBool true). split; reflexivity.
  - intros _. discriminate.
  - reflexivity.
Defined.

(** X10. The guard against the 'Script error' that browsers raise next to
    an error already reported.  After a report that passed the hook and
    was no duplicate, whatever the transmitter did with it, the flag is
    set and its reset is queued; the next error whose message contains
    'Script error' is swallowed whole (no payload, no hook call, nothing
    sent, the log as it was), and that alone clears the flag: the same
    error again, straight after, is worked on and reaches the hook. *)
Theorem script_error_swallowed_once (d1 d2 : string) (e1 e2 : value)
    (f1 f2 : option Tracker.meta) (t1 t2 t3 : Z) (s : Tracker.state)
    (msg1 msg2 : string) :
  reportable e1 f1 s msg1 -> permissive (Tracker.cfg s) -> novel e1 f1 s ->
  get (Tracker.normalize e2 (Tracker.metaOrDefault f2) s) "message" = VStr msg2 ->
  contains msg2 "Track Caught" = false ->
  contains msg2 "Script error" = true ->
  Tracker.force (Tracker.metaOrDefault f2) = false ->
  let s1 := Tracker.onError d1 e1 f1 t1 s in
  let s2 := Tracker.onError d2 e2 f2 t2 s1 in
  let s3 := Tracker.onError d2 e2 f2 t3 s2 in
  Tracker.reporting s1 = true
  /\ List.last (Tracker.timers s1) (Tracker.TForced VUndef) = Tracker.TResetGuard
  /\ s2 = Tracker.set_reporting false s1
  /\ hookCalls s3 = S (hookCalls s2).
Proof.
  intros Hr Hp Hn Hm2 Hc2 Hs2 Hf2 s1 s2 s3.
  destruct (onError_core d1 e1 f1 t1 s msg1 Hr Hp Hn) as (arrays & _ & _ & Hcore).
  fold s1 in Hcore. unfold core in Hcore. injection Hcore as _ _ Hrep Htm.
  destruct (onError_advances d1 e1 f1 t1 s) as (n1 & _ & A1 & _). fold s1 in A1.
  assert (Hlive : forall sx, setup sx = setup s -> live sx).
  { intros sx Hx. destruct Hr as ((Hi & He & Hb) & _).
    unfold setup in Hx. injection Hx as H1 H2 H3 _ _.
    unfold live. now rewrite H1, H2, H3. }
  assert (Hnorm : forall sx, setup sx = setup s ->
            get (Tracker.normalize e2 (Tracker.metaOrDefault f2) sx) "message" = VStr msg2).
  { intros sx Hx.
    now rewrite <- (normalize_setup e2 (Tracker.metaOrDefault f2) (Tracker.metaOrDefault f2)
                      s sx Hx eq_refl). }
  assert (H2 : s2 = Tracker.set_reporting false s1).
  { unfold s2, Tracker.onError.
    destruct (Hlive s1 A1) as (-> & -> & ->). cbn [andb].
    now rewrite (Hnorm s1 A1), Hc2, Hrep, Hs2. }
  split; [exact Hrep |]. split; [rewrite Htm; apply last_last |].
  split; [exact H2 |].
  assert (A2 : setup s2 = setup s) by (rewrite H2; exact A1).
  assert (Hr2 : reportable e2 f2 s2 msg2).
  { split; [exact (Hlive s2 A2) |]. split; [exact (Hnorm s2 A2) |].
    split; [exact Hc2 |]. now rewrite H2. }
  unfold s3. rewrite (onError_reaches d2 e2 f2 t3 s2 msg2 Hr2). cbv zeta.
  set (e' := Tracker.normalize e2 (Tracker.metaOrDefault f2) s2).
  destruct (assemble_prepared d2 e' msg2 (Tracker.metaOrDefault f2) t3 s2) as (P & _).
  destruct (consult_advances
              (fst (Tracker.assemble d2 e' msg2 (Tracker.metaOrDefault f2) t3 s2))
              e' (Tracker.metaOrDefault f2) t3 s2 _ P)
    as (_ & _ & evs & Ht & Hh & _).
  unfold hookCalls. rewrite Ht, countHook_app, Hh, Hf2. lia.
Qed.

Lemma script_error_swallowed_once_witness :
  let scriptError := VObj ClsError [ ("name", VStr "Error"); ("message", VStr "Script error.") ] in
  let s1 := Tracker.onError "window" errorX None 50
              (Tracker.installed browser cfgDedupe "tok" 0) in
  let s2 := Tracker.onError "window" scriptError None 51 s1 in
  s2 = Tracker.set_reporting false s1
  /\ hookCalls (Tracker.onError "window" scriptError None 52 s2) = S (hookCalls s2).
Proof.
  cbv zeta.
  pose proof (script_error_swallowed_once "window" "window" errorX
                (VObj ClsError [ ("name", VStr "Error"); ("message", VStr "Script error.") ])
                None None 50 51 52 (Tracker.installed browser cfgDedupe "tok" 0)
                "x" "Script error."
                ltac:(repeat split)
                ltac:(intros w e; exists (VBool true); split; reflexivity)
                ltac:(intros _; discriminate)
                eq_refl eq_refl eq_refl eq_refl) as H.
  cbv zeta in H. destruct H as (_ & _ & H2 & H3).
  exact (conj H2 H3).
Defined.

(** ** Deferred work *)

Lemma dispatch_timers h now s :
  Tracker.timers (Tracker.dispatch h now s) = Tracker.timers s
  \/ Tracker.timers (Tracker.dispatch h now s)
     = Tracker.timers s ++ [Tracker.TResetGuard].
Proof.
  unfold Tracker.dispatch.
  destruct (Tracker.dedupe (Tracker.cfg s) && bool_decide _); [now left |].
  right.
  assert (Hf : forall a n sx, Tracker.timers (Tracker.onFault a n sx) = Tracker.timers sx).
  { intros a n sx. pose proof (onFault_core a n sx) as H. unfold core in H. congruence. }
  destruct (Tracker.dedupe (Tracker.cfg s));
    match goal with
    | |- context [ Transmitter.sendError ?a ?g ?x ?n ?t ] =>
        destruct (Transmitter.sendError a g x n t) as [[r h'] tx]
    end;
    destruct r; try reflexivity; now rewrite Hf.
Qed.

(** A forced report ([{ force: true }], as the retry after a failing hook
    is) never reaches the hook and defers nothing but the reset of the
    guard flag. *)
Lemma onError_forced d e f now s :
  Tracker.force (Tracker.metaOrDefault f) = true ->
  hookCalls (Tracker.onError d e f now s) = hookCalls s
  /\ (Tracker.timers (Tracker.onError d e f now s) = Tracker.timers s
      \/ Tracker.timers (Tracker.onError d e f now s)
         = Tracker.timers s ++ [Tracker.TResetGuard]).
Proof.
  intros Hf.
  assert (Hfault : forall a,
            hookCalls (Tracker.onFault a now s) = hookCalls s
            /\ (Tracker.timers (Tracker.onFault a now s) = Tracker.timers s
                \/ Tracker.timers (Tracker.onFault a now s)
                   = Tracker.timers s ++ [Tracker.TResetGuard])).
  { intros a. destruct (onFault_frame a now s) as (_ & _ & evs & Ht & _ & Hh).
    pose proof (onFault_core a now s) as Hc. unfold core in Hc.
    split; [| left; congruence].
    unfold hookCalls. rewrite Ht, countHook_app. lia. }
  unfold Tracker.onError.
  destruct (Tracker.hasInstalled s && Tracker.hasEnabled s
            && Host.browserSupported (Tracker.host s)); [| now split; [| left]].
  set (e' := Tracker.normalize e (Tracker.metaOrDefault f) s).
  destruct (get e' "message") as [ | | b | n | msg | r | cls fs]; try apply Hfault.
  destruct (contains msg "Track Caught"); cbn [negb]; [now split; [| left] |].
  destruct (Tracker.reporting s && contains msg "Script error");
    [now split; [| left] |].
  destruct (assemble_fields d e' msg (Tracker.metaOrDefault f) now s)
    as (_ & _ & _ & _ & _ & _ & _ & _ & _ & _ & Htm & _).
  destruct (assemble_prepared d e' msg (Tracker.metaOrDefault f) now s)
    as ((_ & _ & P3 & _) & _).
  destruct (Tracker.assemble d e' msg (Tracker.metaOrDefault f) now s) as [h s0].
  cbn [fst snd] in *. rewrite app_nil_r in P3.
  unfold Tracker.consult. rewrite Hf.
  destruct (dispatch_frame h now s0) as (_ & _ & evs & Ht & Hh & _).
  split.
  - unfold hookCalls. rewrite Ht, countHook_app, P3. lia.
  - rewrite <- Htm. apply dispatch_timers.
Qed.

(** The work a queue of timers stands for: a forced report may queue one
    reset of the guard flag, a reset queues nothing. *)
Fixpoint weight (ts : list Tracker.task) : nat :=
  match ts with
  | [] => 0
  | Tracker.TForced _ :: ts => 2 + weight ts
  | Tracker.TResetGuard :: ts => 1 + weight ts
  end.

(** The timer callbacks run one after the other at the clock readings
    [nows]. *)
Definition runTimers (nows : list Z) (s : Tracker.state) : Tracker.state :=
  fold_left (fun s now => Tracker.runTimer now s) nows s.

Lemma weight_app ts1 ts2 : weight (ts1 ++ ts2) = (weight ts1 + weight ts2)%nat.
Proof. induction ts1 as [| [] ts1 IH]; simpl; lia. Qed.

Lemma runTimer_weight now s :
  hookCalls (Tracker.runTimer now s) = hookCalls s
  /\ (weight (Tracker.timers (Tracker.runTimer now s)) <= weight (Tracker.timers s) - 1)%nat.
Proof.
  unfold Tracker.runTimer. destruct (Tracker.timers s) as [| x rest] eqn:E.
  - rewrite E. simpl. split; [reflexivity | lia].
  - destruct x as [m |].
    + match goal with
      | |- context [ Tracker.onError ?d ?e ?f ?n ?sx ] =>
          destruct (onError_forced d e f n sx eq_refl) as [Hh Ht]
      end.
      cbn [Tracker.timers] in Ht. split; [exact Hh |].
      destruct Ht as [-> | ->]; [| rewrite weight_app]; simpl; lia.
    + simpl. split; [reflexivity | lia].
Qed.



(** ** What a transmitted report says *)

(** The channel is open for the attempt at [now]. *)
Definition open (now : Z) (s : Tracker.state) : Prop :=
  canPost (Tracker.host s)
  /\ Transmitter.disabled (Tracker.transmitter s) = false
  /\ admits now (Tracker.transmitter s).

(** A report that nothing stops: the trace grows by the hook call, if the
    report is not forced, and by one transmission, whose payload is read
    after the console cap and [log.clear()] have run. *)
Lemma onError_wire d e f now s msg :
  reportable e f s msg -> permissive (Tracker.cfg s) -> novel e f s ->
  open now s ->
  let e' := Tracker.normalize e (Tracker.metaOrDefault f) s in
  let h := fst (Tracker.assemble d e' msg (Tracker.metaOrDefault f) now s) in
  exists h' arrays,
    length arrays = 4%nat
    /\ Tracker.trace (Tracker.onError d e f now s)
       = Tracker.trace s
         ++ asked (Tracker.metaOrDefault f)
              (Tracker.view (Tracker.st s ++ arrays) h) e'
         ++ [Tracker.EvSend
               (Tracker.view
                  (Log.clear (Tracker.log s)
                     (Tracker.capConsole (length (Tracker.st s)) (Tracker.st s ++ arrays)))
                  h')
               (Tracker.token s)]
    /\ Tracker.st (snd (Tracker.assemble d e' msg (Tracker.metaOrDefault f) now s))
       = Tracker.st s ++ arrays
    /\ (h' = h
        \/ h' = Tracker.annotate (Transmitter.throttledCount (Tracker.transmitter s)) h).
Proof.
  intros Hr Hp Hn (Hg & Hd & Ha) e' h. unfold h.
  rewrite (onError_reaches d e f now s msg Hr). cbv zeta. fold e'.
  destruct (assemble_fields d e' msg (Tracker.metaOrDefault f) now s)
    as (F1 & F2 & F3 & F4 & F5 & F6 & F7 & F8 & Hlog & _ & _ & Htx & arrays & Hlen & Hst).
  destruct (assemble_prepared d e' msg (Tracker.metaOrDefault f) now s)
    as ((P1 & P2 & P3 & _) & _).
  destruct (Tracker.assemble d e' msg (Tracker.metaOrDefault f) now s) as [h0 s0].
  cbn [fst snd] in *. rewrite app_nil_r in P3.
  rewrite (consult_permissive h0 e' (Tracker.metaOrDefault f) now s0)
    by now rewrite (setup_cfg _ _ P1).
  assert (Hhost : Tracker.host s0 = Tracker.host s) by (unfold setup in P1; congruence).
  assert (Htok : Tracker.token s0 = Tracker.token s) by (unfold setup in P1; congruence).
  match goal with
  | |- context [ Tracker.dispatch h0 now ?sx ] =>
      destruct (dispatch_transmits h0 now sx) as (h' & Hh' & Ht)
  end.
  - cbn [Tracker.cfg Tracker.lastFingerprint].
    rewrite (setup_cfg _ _ P1), P2, F2, F3. intros Hdd.
    specialize (Hn Hdd). unfold errorFingerprint in Hn.
    destruct Hr as (_ & Hm & _). fold e' in Hn, Hm. now rewrite Hm in Hn.
  - cbn [Tracker.host]. now rewrite Hhost.
  - cbn [Tracker.transmitter]. now rewrite Htx.
  - cbn [Tracker.transmitter]. now rewrite Htx.
  - exists h', arrays. rewrite Ht.
    cbn [Tracker.trace Tracker.log Tracker.st Tracker.token Tracker.transmitter].
    rewrite P3, Hlog, Hst, Htok, F8, <- app_assoc.
    split; [exact Hlen |]. split; [reflexivity |]. split; [reflexivity |].
    now rewrite <- Htx.
Qed.

(** The fields of a transmitted payload that the throttle does not
    touch. *)
Lemma annotate_fields n h st :
  let w := Tracker.view st h in
  let w' := Tracker.view st (Tracker.annotate n h) in
  Tracker.w_entry w' = Tracker.w_entry w
  /\ Tracker.w_message w' = Tracker.w_message w
  /\ Tracker.w_stack w' = Tracker.w_stack w
  /\ Tracker.w_bindStack w' = Tracker.w_bindStack w
  /\ Tracker.w_bindTime w' = Tracker.w_bindTime w
  /\ Tracker.w_timestamp w' = Tracker.w_timestamp w
  /\ Tracker.w_console w' = Tracker.w_console w
  /\ Tracker.w_network w' = Tracker.w_network w.
Proof. repeat split. Qed.


(** A function of the application that throws [errorX]. *)
Definition throwingHeap : Callback.heap :=
  [ Callback.FunObj (Callback.Native (fun _ _ => Throw errorX)) ∅ VUndef ].


(** ** A channel that cannot send *)

(** No report can leave: the channel is disabled, or the host offers
    [sendError] no transport. *)
Definition mute (s : Tracker.state) : Prop :=
  Transmitter.disabled (Tracker.transmitter s) = true
  \/ ~ canPost (Tracker.host s).

(** What can happen to an installed agent: an error is handed to
    [onError], a timer callback runs, the transport answers, or one of
    the agent's own faults is handed to [onFault]. *)
Inductive action :=
| AError (d : string) (e : value) (f : option Tracker.meta) (now : Z)
| ATimer (now : Z)
| AResponse (r : Transmitter.response)
| AFault (a : value) (now : Z).

Definition act (s : Tracker.state) (a : action) : Tracker.state :=
  match a with
  | AError d e f now => Tracker.onError d e f now s
  | ATimer now => Tracker.runTimer now s
  | AResponse r => Tracker.onResponse r s
  | AFault a now => Tracker.onFault a now s
  end.

Definition acts (l : list action) (s : Tracker.state) : Tracker.state :=
  fold_left act l s.

(** [s'] is as mute as [s] and has sent as much. *)
Definition quiet (s s' : Tracker.state) : Prop :=
  mute s' /\ sent s' = sent s.

Lemma quiet_refl s : mute s -> quiet s s.
Proof. now split. Qed.

Lemma sendError_mute {A : Type} (annotate : Z -> A -> A) g (a : A) now tx :
  Transmitter.disabled tx = true \/ ~ canPost g ->
  fst (fst (Transmitter.sendError annotate g a now tx)) <> Transmitter.Posted
  /\ (Transmitter.disabled (snd (Transmitter.sendError annotate g a now tx)) = true
      \/ ~ canPost g).
Proof.
  intros [Hd | Hg].
  - rewrite sendError_disabled by assumption. simpl. split; [discriminate | now left].
  - split; [| now right]. unfold Transmitter.sendError.
    destruct (Transmitter.disabled tx); [discriminate |].
    destruct (Transmitter.throttle annotate a now tx) as [[thr a'] tx'].
    destruct thr; [discriminate |].
    destruct (Host.isBrowser g) eqn:Eb, (Host.corsRequest g) eqn:Ec,
             (Host.isWorker g) eqn:Ew; simpl; try discriminate;
      exfalso; apply Hg; unfold canPost; rewrite Eb, ?Ec, ?Ew; tauto.
Qed.

Lemma onFault_quiet a now s : mute s -> quiet s (Tracker.onFault a now s).
Proof.
  intros Hm. split.
  - destruct (onFault_frame a now s) as (Hs & _).
    assert (Hh : Tracker.host (Tracker.onFault a now s) = Tracker.host s)
      by (unfold setup in Hs; congruence).
    destruct Hm as [Hd | Hg]; [left | right; now rewrite Hh].
    unfold Tracker.onFault, Transmitter.sendTrackerFault.
    pose proof (throttle_disabled (fun n (_ : option Z) => Some n) None now
                  (Tracker.transmitter s)) as Ht.
    destruct (Transmitter.throttle _ _ _ _) as [[thr ann] tx]. simpl in Ht.
    destruct (negb thr); simpl; congruence.
  - destruct (onFault_frame a now s) as (_ & _ & evs & Ht & Hc & _).
    unfold sent. rewrite Ht, countSend_app. lia.
Qed.

Lemma dispatch_quiet h now s : mute s -> quiet s (Tracker.dispatch h now s).
Proof.
  intros Hm. unfold Tracker.dispatch.
  destruct (Tracker.dedupe (Tracker.cfg s) && bool_decide _); [now apply quiet_refl |].
  destruct (Tracker.dedupe (Tracker.cfg s));
    match goal with
    | |- context [ Transmitter.sendError ?a ?g ?x ?n ?t ] =>
        destruct (sendError_mute a g x n t Hm) as [Hr Hm'];
        destruct (Transmitter.sendError a g x n t) as [[r h'] tx]
    end;
    cbn [fst snd] in *;
    (destruct r as [ | | y];
     [ congruence
     | split; [exact Hm' | reflexivity]
     | match goal with
       | |- quiet s (Tracker.onFault y now ?sx) =>
           destruct (onFault_quiet y now sx Hm') as [Q1 Q2];
           split; [exact Q1 | rewrite Q2; reflexivity]
       end ]).
Qed.

Lemma quiet_step s s0 s' :
  mute s0 -> sent s0 = sent s -> quiet s0 s' -> quiet s s'.
Proof. intros _ H [Q1 Q2]. split; [exact Q1 | congruence]. Qed.

Lemma consult_quiet h e f now s : mute s -> quiet s (Tracker.consult h e f now s).
Proof.
  intros Hm. unfold Tracker.consult.
  destruct (Tracker.force f); [now apply dispatch_quiet |].
  set (w := Tracker.view (Tracker.st s) h).
  assert (Hq : forall st6 ts,
            let sx := Tracker.State (Tracker.host s) (Tracker.hasInstalled s)
                        (Tracker.hasEnabled s) (Tracker.cfg s) (Tracker.token s)
                        (Tracker.log s) st6 (Tracker.lastFingerprint s)
                        (Tracker.reporting s) (Tracker.transmitter s) ts
                        (Tracker.trace s ++ [Tracker.EvHook w e]) in
            mute sx /\ sent sx = sent s).
  { intros st6 ts. split; [exact Hm |].
    unfold sent. cbn [Tracker.trace]. rewrite countSend_app. simpl. lia. }
  change (Tracker.cfg (Tracker.emit (Tracker.EvHook w e) s)) with (Tracker.cfg s).
  destruct (Tracker.hook (Tracker.cfg s) w e) as [r | m].
  - destruct (truthy r).
    + destruct (Hq (Tracker.st s) (Tracker.timers s)) as [Q1 Q2].
      eapply quiet_step; [exact Q1 | exact Q2 |]. now apply dispatch_quiet.
    + exact (Hq (Tracker.st s) (Tracker.timers s)).
  - destruct (Hq (Tracker.st s) (Tracker.timers s)) as [Q1 Q2].
    destruct m;
      try (eapply quiet_step; [exact Q1 | exact Q2 |]; now apply onFault_quiet);
      unfold Log.alloc; cbv beta iota zeta;
      match goal with
      | |- quiet s (Tracker.dispatch h now (Tracker.defer ?t (Tracker.set_store ?st6 _))) =>
          destruct (Hq st6 (Tracker.timers s ++ [t])) as [R1 R2];
          eapply quiet_step; [exact R1 | exact R2 |]; now apply dispatch_quiet
      end.
Qed.

Lemma onError_quiet d e f now s : mute s -> quiet s (Tracker.onError d e f now s).
Proof.
  intros Hm. unfold Tracker.onError.
  destruct (Tracker.hasInstalled s && Tracker.hasEnabled s
            && Host.browserSupported (Tracker.host s)); [| now apply quiet_refl].
  set (e' := Tracker.normalize e (Tracker.metaOrDefault f) s).
  destruct (get e' "message") as [ | | b | n | msg | r | cls fs];
    try (now apply onFault_quiet).
  destruct (contains msg "Track Caught"); cbn [negb]; [now apply quiet_refl |].
  destruct (Tracker.reporting s && contains msg "Script error");
    [split; [exact Hm | reflexivity] |].
  destruct (assemble_fields d e' msg (Tracker.metaOrDefault f) now s)
    as (_ & _ & _ & _ & _ & _ & _ & _ & _ & _ & _ & Htx & _).
  destruct (assemble_prepared d e' msg (Tracker.metaOrDefault f) now s)
    as ((P1 & _ & P3 & _) & _).
  destruct (Tracker.assemble d e' msg (Tracker.metaOrDefault f) now s) as [h s0].
  cbn [fst snd] in *. rewrite app_nil_r in P3.
  eapply quiet_step; [| | apply consult_quiet].
  - unfold mute. rewrite Htx.
    replace (Tracker.host s0) with (Tracker.host s)
      by (unfold setup in P1; congruence). exact Hm.
  - unfold sent. now rewrite P3.
  - unfold mute. rewrite Htx.
    replace (Tracker.host s0) with (Tracker.host s)
      by (unfold setup in P1; congruence). exact Hm.
Qed.

Lemma runTimer_quiet now s : mute s -> quiet s (Tracker.runTimer now s).
Proof.
  intros Hm. unfold Tracker.runTimer.
  destruct (Tracker.timers s) as [| x rest]; [now apply quiet_refl |].
  destruct x as [m |].
  - match goal with
    | |- quiet s (Tracker.onError ?d ?e ?f ?n ?sx) =>
        destruct (onError_quiet d e f n sx Hm) as [Q1 Q2]
    end.
    split; [exact Q1 | exact Q2].
  - split; [exact Hm | reflexivity].
Qed.

Lemma onResponse_quiet r s : mute s -> quiet s (Tracker.onResponse r s).
Proof.
  intros Hm. split; [| reflexivity].
  destruct Hm as [Hd | Hg]; [left | now right].
  unfold Tracker.onResponse. cbn [Tracker.transmitter Tracker.set_transmitter].
  now rewrite respond_disabled.
Qed.

Lemma acts_quiet l : forall s, mute s -> quiet s (acts l s).
Proof.
  induction l as [| a l IH]; intros s Hm; [now apply quiet_refl |].
  cbn [acts fold_left]. fold (acts l (act s a)).
  assert (Hq : quiet s (act s a)).
  { destruct a; simpl;
      [apply onError_quiet | apply runTimer_quiet
       | apply onResponse_quiet | apply onFault_quiet]; exact Hm. }
  destruct Hq as [Q1 Q2]. eapply quiet_step; [exact Q1 | exact Q2 |].
  now apply IH.
Qed.

(** X13. A channel that cannot send stays that way, through the whole
    agent.  The agent is mute when the transmitter is disabled or the
    host gives [sendError] no transport; it becomes mute when the
    transport answers with a failure, and it is mute from the start on a
    host without [JSON.stringify].  Whatever happens to a mute agent
    afterwards (errors of any kind handed to [onError], forced or not,
    timer callbacks, transport answers, internal faults), it stays mute
    and not one more report leaves. *)
Theorem mute_agent_stays_mute (s : Tracker.state) (l : list action) :
  mute s ->
  mute (acts l s) /\ sent (acts l s) = sent s
  /\ (forall r s0, failing r -> mute (Tracker.onResponse r s0))
  /\ (forall g c tok now, Host.hasJSON g = false ->
        mute (Tracker.installed g c tok now)).
Proof.
  intros Hm. destruct (acts_quiet l s Hm) as [Q1 Q2].
  split; [exact Q1 |]. split; [exact Q2 |]. split.
  - intros r s0 Hr. left. unfold Tracker.onResponse.
    cbn [Tracker.transmitter Tracker.set_transmitter]. now apply respond_failing.
  - intros g c tok now Hj. left. unfold Tracker.installed, Transmitter.new.
    simpl. now rewrite Hj.
Qed.

Lemma mute_agent_stays_mute_witness :
  let s := Tracker.onResponse (Transmitter.ReadyState 4 500)
             (Tracker.installed browser cfgPlain "tok" 0) in
  sent (acts [AError "window" errorX None 50; ATimer 60;
              AResponse (Transmitter.ReadyState 4 200);
              AError "direct" errorX None 5000] s) = 0%nat.
Proof.
  exact (proj1 (proj2
    (mute_agent_stays_mute
       (Tracker.onResponse (Transmitter.ReadyState 4 500)
          (Tracker.installed browser cfgPlain "tok" 0))
       [AError "window" errorX None 50; ATimer 60;
        AResponse (Transmitter.ReadyState 4 200);
        AError "direct" errorX None 5000]
       (or_introl eq_refl)))).
Defined.

(** ** The log in a report *)

(** The objects of the log entries of category [a], as the store has
    them. *)
Definition crumbs (st : Log.store) (es : list Log.entry) (a : string)
  : list (list (string * value)) :=
  map (fun en => Log.fields st (Log.value en))
      (filter (fun en => Log.category en = a) es).

(** Every entry refers to an object of the store. *)
Definition grounded (st : Log.store) (es : list Log.entry) : Prop :=
  Forall (fun en => exists fs, st !! Log.value en = Some (Log.CObj fs)) es.

Lemma assemble_store d e msg f now s es :
  holds (Tracker.log s, Tracker.st s) es ->
  let sel a := map Log.value (filter (fun en => Log.category en = a) es) in
  let h := fst (Tracker.assemble d e msg f now s) in
  Tracker.st (snd (Tracker.assemble d e msg f now s))
  = Tracker.st s ++ [Log.CArr (sel "c"); Log.CArr (sel "h");
                     Log.CArr (sel "n"); Log.CArr (sel "v")]
  /\ Tracker.console h = length (Tracker.st s)
  /\ Tracker.nav h = S (length (Tracker.st s))
  /\ Tracker.network h = S (S (length (Tracker.st s)))
  /\ Tracker.visitor h = S (S (S (length (Tracker.st s)))).
Proof.
  intros H sel h. unfold holds in H. cbn [fst snd] in H.
  assert (He : forall tail,
            Log.entries (Tracker.st s ++ tail) (Log.appender (Tracker.log s)) = es).
  { intros tail. unfold Log.entries. now rewrite (lookup_app_l_Some _ _ _ _ H). }
  assert (He0 : Log.entries (Tracker.st s) (Log.appender (Tracker.log s)) = es)
    by (unfold Log.entries; now rewrite H).
  unfold h, Tracker.assemble, Log.all, Log.alloc. cbn [fst snd].
  repeat (rewrite He0 || rewrite He || rewrite <- app_assoc).
  cbn [Tracker.st Tracker.set_store Tracker.console Tracker.nav Tracker.network
       Tracker.visitor].
  rewrite !length_app. cbn [length app].
  repeat split; lia.
Qed.

Lemma deref_array st st' l os :
  st' !! l = Some (Log.CArr os) ->
  Forall (fun o => exists fs, st !! o = Some (Log.CObj fs)
                              /\ st' !! o = Some (Log.CObj fs)) os ->
  Tracker.deref st' l = map (Log.fields st) os.
Proof.
  intros H' Ho. unfold Tracker.deref, Log.items. rewrite H'.
  apply map_ext_in. intros o Hin. apply list_elem_of_In in Hin.
  rewrite Forall_forall in Ho. destruct (Ho o Hin) as (fs & H1 & H2).
  unfold Log.fields. now rewrite H1, H2.
Qed.

Lemma capConsole_under ca st :
  Tracker.overBudget st ca = false -> Tracker.capConsole ca st = st.
Proof.
  intros H. unfold Tracker.capConsole.
  destruct (length (Log.items st ca)); simpl; [reflexivity |]. now rewrite H.
Qed.

Lemma crumbs_sel st es a :
  map (Log.fields st) (map Log.value (filter (fun en => Log.category en = a) es))
  = crumbs st es a.
Proof. unfold crumbs. now rewrite map_map. Qed.

(** The log in the payload of a report that nothing stops. *)
Lemma onError_carries_log (d : string) (e : value)
    (f : option Tracker.meta) (now : Z) (s : Tracker.state) (msg : string)
    (es : list Log.entry) :
  reportable e f s msg -> permissive (Tracker.cfg s) -> novel e f s ->
  open now s ->
  holds (Tracker.log s, Tracker.st s) es -> grounded (Tracker.st s) es ->
  (forall b, Tracker.totalLength (crumbs (Tracker.st s) es "c") = Some b -> b < 80000) ->
  let s1 := Tracker.onError d e f now s in
  exists pre report,
    Tracker.trace s1 = Tracker.trace s ++ pre ++ [Tracker.EvSend report (Tracker.token s)]
    /\ countSend pre = 0%nat
    /\ (Tracker.w_entry report = d /\ Tracker.w_message report = msg)
    /\ Tracker.w_console report = crumbs (Tracker.st s) es "c"
    /\ Tracker.w_nav report = crumbs (Tracker.st s) es "h"
    /\ Tracker.w_network report = crumbs (Tracker.st s) es "n"
    /\ Tracker.w_visitor report = crumbs (Tracker.st s) es "v"
    /\ holds (Tracker.log s1, Tracker.st s1) []
    /\ grounded (Tracker.st s1) [].
Proof.
  intros Hr Hp Hn Ho Hh Hg Hb s1.
  destruct (onError_wire d e f now s msg Hr Hp Hn Ho)
    as (h' & arrays & _ & Ht & Hst & Hh').
  destruct (onError_core d e f now s msg Hr Hp Hn) as (arrays' & _ & Hst2 & Hcore).
  fold s1 in Ht, Hcore.
  set (e' := Tracker.normalize e (Tracker.metaOrDefault f) s) in *.
  rewrite Hst in Hst2. apply app_inv_head in Hst2. subst arrays'.
  destruct (assemble_store d e' msg (Tracker.metaOrDefault f) now s es Hh)
    as (Hst' & Hca & Hna & Hne & Hvi).
  rewrite Hst in Hst'. apply app_inv_head in Hst'.
  set (h := fst (Tracker.assemble d e' msg (Tracker.metaOrDefault f) now s)) in *.
  set (sel := fun a => map Log.value (filter (fun en => Log.category en = a) es)) in *.
  set (stA := Tracker.st s ++ arrays) in *.
  assert (Happ : Tracker.st s !! Log.appender (Tracker.log s) = Some (Log.CAppender es))
    by exact Hh.
  assert (Hlt : (Log.appender (Tracker.log s) < length (Tracker.st s))%nat)
    by (eapply lookup_lt_Some, Happ).
  (* the objects of the log, in the three stores *)
  assert (Hobj : forall a,
            Forall (fun o => exists fs,
                      Tracker.st s !! o = Some (Log.CObj fs)
                      /\ Log.clear (Tracker.log s) stA !! o = Some (Log.CObj fs)
                      /\ stA !! o = Some (Log.CObj fs)) (sel a)).
  { intros a. rewrite Forall_forall. intros o Hin.
    apply list_elem_of_fmap in Hin. destruct Hin as (en & -> & Hen).
    apply list_elem_of_filter in Hen. destruct Hen as [_ Hen].
    unfold grounded in Hg. rewrite Forall_forall in Hg.
    destruct (Hg en Hen) as (fs & Hfs). exists fs.
    assert (HA : stA !! Log.value en = Some (Log.CObj fs))
      by (now apply lookup_app_l_Some).
    split; [exact Hfs |]. split; [| exact HA].
    unfold Log.clear. rewrite list_lookup_insert_ne; [exact HA |].
    intros Heq. rewrite Heq in Happ. congruence. }
  assert (Hobj2 : forall a,
            Forall (fun o => exists fs,
                      Tracker.st s !! o = Some (Log.CObj fs)
                      /\ stA !! o = Some (Log.CObj fs)) (sel a)).
  { intros a. eapply Forall_impl; [apply (Hobj a) |].
    intros o (fs & H1 & _ & H3). eauto. }
  assert (Hobj1 : forall a,
            Forall (fun o => exists fs,
                      Tracker.st s !! o = Some (Log.CObj fs)
                      /\ Log.clear (Tracker.log s) stA !! o = Some (Log.CObj fs)) (sel a)).
  { intros a. eapply Forall_impl; [apply (Hobj a) |].
    intros o (fs & H1 & H2 & _). eauto. }
  (* the four arrays *)
  assert (Harr : forall (i : nat) a,
            arrays !! i = Some (Log.CArr (sel a)) ->
            stA !! (length (Tracker.st s) + i)%nat = Some (Log.CArr (sel a))
            /\ Log.clear (Tracker.log s) stA !! (length (Tracker.st s) + i)%nat
               = Some (Log.CArr (sel a))).
  { intros i a Hi.
    assert (HA : stA !! (length (Tracker.st s) + i)%nat = Some (Log.CArr (sel a))).
    { unfold stA. rewrite lookup_app_r by lia.
      now replace (length (Tracker.st s) + i - length (Tracker.st s))%nat with i by lia. }
    split; [exact HA |].
    unfold Log.clear. rewrite list_lookup_insert_ne by lia. exact HA. }
  assert (Hunder : Tracker.capConsole (length (Tracker.st s)) stA = stA).
  { apply capConsole_under. unfold Tracker.overBudget.
    destruct (Harr 0%nat "c" ltac:(now rewrite Hst')) as [HA _].
    rewrite Nat.add_0_r in HA.
    rewrite (deref_array (Tracker.st s) stA _ (sel "c")).
    - unfold sel. rewrite crumbs_sel.
      destruct (Tracker.totalLength (crumbs (Tracker.st s) es "c")) as [b |] eqn:Eb;
        [| reflexivity].
      specialize (Hb b eq_refl). now destruct (Z.leb_spec 80000 b); [lia |].
    - exact HA.
    - apply Hobj2. }
  rewrite Hunder in Ht, Hcore.
  unfold core in Hcore. injection Hcore as Hlog Hst1 _ _.
  exists (asked (Tracker.metaOrDefault f) (Tracker.view stA h) e').
  eexists. split; [exact Ht |].
  split; [apply asked_counts |].
  assert (Hview : forall (i : nat) a (l : Log.loc),
            arrays !! i = Some (Log.CArr (sel a)) ->
            l = (length (Tracker.st s) + i)%nat ->
            Tracker.deref (Log.clear (Tracker.log s) stA) l = crumbs (Tracker.st s) es a).
  { intros i a l Hi ->. destruct (Harr i a Hi) as [_ HC].
    rewrite (deref_array (Tracker.st s) _ _ (sel a) HC (Hobj1 a)).
    apply crumbs_sel. }
  assert (Hfields : Tracker.console h' = Tracker.console h
                    /\ Tracker.nav h' = Tracker.nav h
                    /\ Tracker.network h' = Tracker.network h
                    /\ Tracker.visitor h' = Tracker.visitor h
                    /\ Tracker.entry h' = Tracker.entry h
                    /\ Tracker.message h' = Tracker.message h)
    by (destruct Hh' as [-> | ->]; repeat split).
  destruct Hfields as (G1 & G2 & G3 & G4 & G5 & G6).
  destruct (assemble_fields d e' msg (Tracker.metaOrDefault f) now s)
    as (F1 & F2 & _).
  fold h in F1, F2.
  cbn [Tracker.view Tracker.w_console Tracker.w_nav Tracker.w_network
       Tracker.w_visitor Tracker.w_entry Tracker.w_message].
  rewrite G1, G2, G3, G4, G5, G6, F1, F2.
  split; [split; reflexivity |].
  split; [apply (Hview 0%nat); [now rewrite Hst' | lia] |].
  split; [apply (Hview 1%nat); [now rewrite Hst' | lia] |].
  split; [apply (Hview 2%nat); [now rewrite Hst' | lia] |].
  split; [apply (Hview 3%nat); [now rewrite Hst' | lia] |].
  split; [| constructor].
  unfold holds. cbn [fst snd]. rewrite Hlog, Hst1. unfold Log.clear.
  apply list_lookup_insert_eq. unfold stA. rewrite length_app. lia.
Qed.


(** The tracker after the watchers have written to the log. *)
Definition logged (ms : list mutation) (s : Tracker.state) : Tracker.state :=
  let x := mutations ms (Tracker.log s, Tracker.st s) in
  Tracker.set_store (snd x) (Tracker.set_log (fst x) s).

(** A console message and a started request have been recorded. *)
Definition busyTracker : Tracker.state :=
  logged [ MAdd "k1" "c" [("severity", VStr "log"); ("message", VStr "hello")];
           MAdd "k2" "n" [("method", VStr "GET"); ("url", VStr "/api")] ]
         (Tracker.installed browser cfgDedupe "tok" 0).


(** ** What [wrap] builds, and listeners *)


(** A function with an enumerable and a hidden property. *)
Definition taggedHeap : Callback.heap :=
  [ Callback.FunObj (Callback.Native (fun _ _ => Return VUndef))
      (<["label" := (VStr "save", true)]> (<["secret" := (VNum 7, false)]> ∅))
      VUndef ].




(** ** Values that are not errors: track and unhandled rejections *)

(** The [Error] the agent makes for a value that is none: its message is
    [m], its stack the one of the place where it was made. *)
Definition made (m stk : string) : value :=
  VObj ClsError [ ("name", VStr "Error"); ("message", VStr m); ("stack", VStr stk) ].

(** The report of an error that nothing stops. *)
Lemma onError_report d e f now s msg :
  reportable e f s msg -> permissive (Tracker.cfg s) -> novel e f s ->
  open now s ->
  exists pre report,
    Tracker.trace (Tracker.onError d e f now s)
    = Tracker.trace s ++ pre ++ [Tracker.EvSend report (Tracker.token s)]
    /\ countSend pre = 0%nat
    /\ countHook pre = (if Tracker.force (Tracker.metaOrDefault f) then 0 else 1)%nat
    /\ Tracker.w_entry report = d
    /\ Tracker.w_message report = msg
    /\ Tracker.w_stack report
       = get (Tracker.normalize e (Tracker.metaOrDefault f) s) "stack"
    /\ Tracker.w_timestamp report = now.
Proof.
  intros Hr Hp Hn Ho.
  destruct (onError_wire d e f now s msg Hr Hp Hn Ho)
    as (h' & arrays & _ & Ht & _ & Hh').
  destruct (assemble_fields d (Tracker.normalize e (Tracker.metaOrDefault f) s)
              msg (Tracker.metaOrDefault f) now s)
    as (F1 & F2 & F3 & _ & _ & F6 & _).
  eexists. eexists. split; [exact Ht |].
  split; [apply asked_counts |]. split; [apply asked_counts |].
  destruct Hh' as [-> | ->];
    cbn [Tracker.view Tracker.annotate Tracker.w_entry Tracker.w_message
         Tracker.w_stack Tracker.w_timestamp
         Tracker.entry Tracker.message Tracker.stack Tracker.timestamp];
    rewrite F1, F2, F3, F6; repeat split.
Qed.

Lemma made_reportable m stk s :
  live s -> contains m "Track Caught" = false ->
  Tracker.reporting s && contains m "Script error" = false ->
  reportable (made m stk) None s m.
Proof. intros H1 H2 H3. repeat split; try assumption; apply H1. Qed.

Lemma made_novel m stk s :
  (Tracker.dedupe (Tracker.cfg s) = true ->
   Tracker.lastFingerprint s <> Some (fingerprint m (VStr stk))) ->
  novel (made m stk) None s.
Proof. intros H Hd. exact (H Hd). Qed.

(** The agent after a watched [console.warn] has logged the warning of
    an agent that is not installed: the entry is written with the
    default serializer and with the key [d]. *)
Definition warned (d : string) (now : Z) (s : Tracker.state) : Tracker.state :=
  let ls := Watchers.consoleLog (Host.serialize (Tracker.host s)) d now "warn"
              (VStr "Track: agent must be installed")
              (Tracker.log s) (Tracker.st s) in
  Tracker.set_store (snd ls) (Tracker.set_log (fst ls) s).





(** ** Requests made with fetch *)

Lemma find_newest_snoc {A : Type} (p : A -> bool) (n : nat) (l : list A) (x : A) :
  (forall e, e ∈ l -> p e = false) -> p x = true -> (1 <= n)%nat ->
  List.find p (newest n (l ++ [x])) = Some x.
Proof.
  intros Hl Hx Hn. unfold newest. rewrite length_app. cbn [length].
  rewrite skipn_app.
  replace (length l + 1 - n - length l)%nat with 0%nat by lia.
  rewrite drop_0, find_skip.
  - simpl. now rewrite Hx.
  - intros e He. apply Hl. eapply elem_of_drop, He.
Qed.

(** The log after [add] of a freshly allocated object under a key that
    no entry of the category bears. *)
Lemma add_fresh d a c lg st es :
  holds (lg, st) es -> Log.maxLength lg = 30 ->
  (forall en, en ∈ es -> ~ (Log.category en = a /\ Log.key en = d)) ->
  let r := Log.add d a (length st) lg (st ++ [c]) in
  (forall es0, c <> Log.CAppender es0) ->
  fst (fst r) = d
  /\ (exists es', holds (snd (fst r), snd r) es')
  /\ Log.maxLength (snd (fst r)) = 30
  /\ snd r !! length st = Some c
  /\ (length st < length (snd r))%nat
  /\ Log.get a d (snd (fst r)) (snd r) = Some (length st).
Proof.
  intros H Hm Hfresh r Hc. unfold r.
  pose proof (holds_alloc lg st es c H) as H1.
  pose proof (holds_add d a (length st) lg _ _ H1 Hm) as H2.
  pose proof (stable_add d a (length st) lg _ _ H1) as H3.
  destruct (Log.add d a (length st) lg (st ++ [c])) as [[k lg'] st'].
  destruct H2 as (-> & H2 & Hm'). cbn [fst snd] in *.
  assert (Hl : st' !! length st = Some c) by (apply H3; [apply lookup_alloc | exact Hc]).
  split; [reflexivity |]. split; [eauto |]. split; [exact Hm' |].
  split; [exact Hl |]. split; [eapply lookup_lt_Some, Hl |].
  pose proof (holds_entries (lg', st') _ H2) as He. cbn [fst snd] in He.
  unfold Log.get. rewrite He.
  rewrite find_newest_snoc; [reflexivity | | | lia].
  - intros en Hen. apply not_true_is_false. intros Ht.
    apply andb_true_iff in Ht. destruct Ht as [T1 T2].
    apply bool_decide_eq_true in T1, T2. now apply (Hfresh en Hen).
  - simpl. now rewrite !bool_decide_eq_true_2.
Qed.

(** Rewriting an object of the store leaves the log's entries, and so
    its lookups, as they are. *)
Lemma get_rewrite a d lg st es o fs fs' :
  holds (lg, st) es -> st !! o = Some (Log.CObj fs) ->
  holds (lg, <[o := Log.CObj fs']> st) es
  /\ Log.get a d lg (<[o := Log.CObj fs']> st) = Log.get a d lg st.
Proof.
  intros H Ho.
  assert (H' : holds (lg, <[o := Log.CObj fs']> st) es).
  { unfold holds in *. cbn [fst snd] in *.
    rewrite list_lookup_insert_ne; [exact H |]. intros ->. congruence. }
  split; [exact H' |]. unfold Log.get.
  pose proof (holds_entries (lg, st) es H) as E1.
  pose proof (holds_entries (lg, _) es H') as E2. cbn [fst snd] in E1, E2.
  now rewrite E1, E2.
Qed.

(** X19. A request made with [fetch], from start to answer.  The request
    is logged when it starts, under a key no other network entry bears;
    when the answer comes the same object is found again by that key and
    completed in place: type, start time, method and (escaped, truncated)
    url stay as logged, and the completion time, the status and its text
    are added, with the correlation id when the response has one.  With
    error reporting on and a status of 400 or more, what is handed to
    [onError] is an [Error] whose message reads status, method and url
    and whose stack is the one captured when [fetch] was called; the
    entry has been completed by then. *)
Theorem fetch_completion_recorded (s : Tracker.state) (es : list Log.entry)
    (d : string) (t0 : Z) (method : string) (url : value) (k : string)
    (status : Z) (statusText : string) (header : value) (now : Z) :
  holds (Tracker.log s, Tracker.st s) es -> Log.maxLength (Tracker.log s) = 30 ->
  (forall en, en ∈ es -> ~ (Log.category en = "n" /\ Log.key en = d)) ->
  let started := Network.fetchStart d t0 method url (Tracker.log s) (Tracker.st s) in
  let s1 := Tracker.set_store (snd started) (Tracker.set_log (snd (fst started)) s) in
  let o := length (Tracker.st s) in
  let u := Util.truncate (VStr (Network.escapeUrl url)) 2000 in
  let record :=
    [ ("type", VStr "fetch"); ("startedOn", VNum t0); ("method", VStr method);
      ("url", VStr u); ("completedOn", VNum now); ("statusCode", VNum status);
      ("statusText", VStr statusText) ]
    ++ (if truthy header then [("requestCorrelationId", header)] else []) in
  let s2 := Network.fetchThen false (fst (fst started)) k status statusText header now s1 in
  fst (fst started) = d
  /\ Log.get "n" d (Tracker.log s2) (Tracker.st s2) = Some o
  /\ Log.fields (Tracker.st s2) o = record
  /\ Network.fetchThen true d k status statusText header now s1
     = (if 400 <=? status
        then Tracker.onError "ajax"
               (made (decimal status +:+ " : " +:+ method +:+ " " +:+ u) k) None now s2
        else s2).
Proof.
  intros H Hm Hfresh started s1 o u record s2.
  set (c := Log.CObj [ ("type", VStr "fetch"); ("startedOn", VNum t0);
                       ("method", VStr method); ("url", VStr u) ]).
  assert (Hstart : started = Log.add d "n" o (Tracker.log s) (Tracker.st s ++ [c]))
    by reflexivity.
  destruct (add_fresh d "n" c (Tracker.log s) (Tracker.st s) es H Hm Hfresh
              ltac:(discriminate))
    as (A1 & (es' & A2) & A3 & A4 & A5 & A6).
  fold o in A1, A2, A3, A4, A5, A6. rewrite <- Hstart in A1, A2, A3, A4, A5, A6.
  assert (Hlog : Tracker.log s1 = snd (fst started)) by reflexivity.
  assert (Hst : Tracker.st s1 = snd started) by reflexivity.
  assert (Hf : Log.fields (Tracker.st s1) o
               = [ ("type", VStr "fetch"); ("startedOn", VNum t0);
                   ("method", VStr method); ("url", VStr u) ])
    by (unfold Log.fields; now rewrite Hst, A4).
  assert (Hdef : Objects.defaults (Log.fields (Tracker.st s1) o)
                   [ VObj ClsObject [ ("completedOn", VNum now);
                                      ("statusCode", VNum status);
                                      ("statusText", VStr statusText) ] ]
                 = [ ("type", VStr "fetch"); ("startedOn", VNum t0);
                     ("method", VStr method); ("url", VStr u);
                     ("completedOn", VNum now); ("statusCode", VNum status);
                     ("statusText", VStr statusText) ]).
  { rewrite Hf. clearbody u. reflexivity. }
  assert (Hrec : (if truthy header
                  then set_field "requestCorrelationId" header
                         [ ("type", VStr "fetch"); ("startedOn", VNum t0);
                           ("method", VStr method); ("url", VStr u);
                           ("completedOn", VNum now); ("statusCode", VNum status);
                           ("statusText", VStr statusText) ]
                  else [ ("type", VStr "fetch"); ("startedOn", VNum t0);
                         ("method", VStr method); ("url", VStr u);
                         ("completedOn", VNum now); ("statusCode", VNum status);
                         ("statusText", VStr statusText) ]) = record).
  { unfold record. now destruct (truthy header). }
  assert (Hthen : forall re,
            Network.fetchThen re d k status statusText header now s1
            = let sx := Tracker.set_store (<[o := Log.CObj record]> (Tracker.st s1)) s1 in
              if re && (400 <=? status)
              then Tracker.onError "ajax" (Network.statusError record k) None now sx
              else sx).
  { intros re. unfold Network.fetchThen. rewrite Hlog, Hst, A6.
    rewrite <- Hst, Hdef, Hrec. reflexivity. }
  assert (Hs2 : s2 = Tracker.set_store (<[o := Log.CObj record]> (Tracker.st s1)) s1).
  { unfold s2. rewrite A1, (Hthen false). reflexivity. }
  assert (A2' : holds (Tracker.log s1, Tracker.st s1) es')
    by (rewrite Hlog, Hst; exact A2).
  assert (A4' : Tracker.st s1 !! o = Some c) by (rewrite Hst; exact A4).
  destruct (get_rewrite "n" d (Tracker.log s1) (Tracker.st s1) es' o _ record A2' A4')
    as [_ Hget].
  split; [exact A1 |]. split; [| split].
  - rewrite Hs2. cbn [Tracker.log Tracker.st Tracker.set_store].
    rewrite Hget, Hlog, Hst. exact A6.
  - rewrite Hs2. cbn [Tracker.st Tracker.set_store]. unfold Log.fields.
    rewrite list_lookup_insert_eq; [reflexivity |]. rewrite Hst. exact A5.
  - rewrite (Hthen true), <- Hs2. cbv zeta. cbn [andb].
    destruct (400 <=? status); [| reflexivity].
    unfold Network.statusError, made, record.
    clearbody u. destruct (truthy header); reflexivity.
Qed.

Lemma fetch_completion_recorded_witness :
  let s := Tracker.installed browser cfgDedupe "tok" 0 in
  let started := Network.fetchStart "k1" 10 "GET" (VStr "/api/list of items") (Tracker.log s) (Tracker.st s) in
  let s1 := Tracker.set_store (snd started) (Tracker.set_log (snd (fst started)) s) in
  Log.fields
    (Tracker.st (Network.fetchThen false (fst (fst started)) "at app.js:1" 503
                   "Service Unavailable" VUndef 40 s1)) 1%nat
  = [ ("type", VStr "fetch"); ("startedOn", VNum 10); ("method", VStr "GET");
      ("url", VStr "/api/list%20of%20items"); ("completedOn", VNum 40);
      ("statusCode", VNum 503); ("statusText", VStr "Service Unavailable") ].
Proof.
  exact (proj1 (proj2 (proj2
    (fetch_completion_recorded (Tracker.installed browser cfgDedupe "tok" 0) []
       "k1" 10 "GET" (VStr "/api/list of items") "at app.js:1" 503
       "Service Unavailable" VUndef 40 eq_refl eq_refl
       ltac:(intros en Hen; now apply elem_of_nil in Hen))))).
Defined.

(** A rejection reason that can carry a property: an object, or a
    function of the heap.  Nothing at all counts as an empty object. *)
Definition markable (fh : Callback.heap) (a : value) : Prop :=
  match JS.or a (VObj ClsObject []) with
  | VObj _ _ => True
  | VFun r => is_Some (fh !! r)
  | _ => False
  end.

(** X20. A failed [fetch] is reported once.  When the request is still
    in the log and error reporting is on, the [catch] handler reports the
    failure and marks the reason it rethrows; the [unhandledrejection]
    listener, which gets that reason next if the application does not
    catch it, sees the mark and reports nothing.  This holds for a reason
    that can carry the mark, an object or a function; a truthy primitive
    cannot: the handler then fails on the assignment and what it throws
    is a [TypeError] instead of the reason. *)
Theorem fetch_failure_reported_once (logId k : string) (a : value) (now : Z)
    (fh : Callback.heap) (s : Tracker.state) (o : Log.loc) :
  Log.get "n" logId (Tracker.log s) (Tracker.st s) = Some o ->
  let r := Network.fetchCatch true logId k a now fh s in
  let a' := fst (fst r) in
  let fh' := snd (fst r) in
  let s' := snd r in
  (markable fh a ->
   truthy (Events.prop fh' a' "__trackjs_state__") = true
   /\ forall stk t, Window.onUnhandledRejection fh' a' stk t s' = s')
  /\ (truthy a = true -> Util.isObject a = false -> Util.isFunction a = false ->
      a' = Tracker.typeError "Cannot create property '__trackjs_state__'").
Proof.
  intros Hget r a' fh' s'.
  assert (Hr : r = (let '(x, y) := Network.markReported (JS.or a (VObj ClsObject [])) fh in
                    (x, y, s'))).
  { unfold s', r, Network.fetchCatch. rewrite Hget. cbv zeta.
    now destruct (Network.markReported (JS.or a (VObj ClsObject [])) fh). }
  assert (Ha : (a', fh') = Network.markReported (JS.or a (VObj ClsObject [])) fh).
  { unfold a', fh'. rewrite Hr.
    now destruct (Network.markReported (JS.or a (VObj ClsObject [])) fh). }
  split.
  - intros Hmk.
    assert (Ht : truthy (Events.prop fh' a' "__trackjs_state__") = true).
    { unfold markable in Hmk. unfold Network.markReported in Ha.
      destruct (JS.or a (VObj ClsObject [])) as [ | | b | n | str | rf | cls l];
        try contradiction.
      - destruct Hmk as [ob Hof]. rewrite Hof in Ha. injection Ha as -> ->.
        unfold Events.prop, Callback.read, Callback.assign.
        rewrite list_lookup_insert_eq by (eapply lookup_lt_Some, Hof). simpl.
        now rewrite lookup_insert_eq.
      - injection Ha as -> ->. unfold Events.prop, get.
        now rewrite assoc_set_field. }
    split; [exact Ht |].
    intros stk t. unfold Window.onUnhandledRejection. rewrite Ht.
    now destruct a'.
  - intros Ht Ho Hf. unfold JS.or in Ha. rewrite Ht in Ha.
    destruct a; try discriminate; now injection Ha as -> _.
Qed.

(** A tracker with one request in flight. *)
Definition fetching : Tracker.state :=
  let s := Tracker.installed browser cfgDedupe "tok" 0 in
  let started := Network.fetchStart "k1" 10 "GET" (VStr "/api") (Tracker.log s) (Tracker.st s) in
  Tracker.set_store (snd started) (Tracker.set_log (snd (fst started)) s).

Definition networkDown : value :=
  VObj ClsError [ ("name", VStr "TypeError"); ("message", VStr "Failed to fetch") ].

Lemma fetch_failure_reported_once_witness :
  let r := Network.fetchCatch true "k1" "at app.js:1" networkDown 40 [] fetching in
  sent (snd r) = 1%nat
  /\ Window.onUnhandledRejection (snd (fst r)) (fst (fst r)) "at listener" 41 (snd r)
     = snd r.
Proof.
  cbv zeta. split; [reflexivity |].
  exact (proj2 (proj1
    (fetch_failure_reported_once "k1" "at app.js:1" networkDown 40 [] fetching 1%nat
       eq_refl) I) "at listener" 41).
Defined.

(** X21. A request in flight when the log is emptied.  On an empty log
    (as it is after every report that reached the transmitter) the entry
    of a request started earlier is gone.  For a [fetch] nothing is left
    to complete and, with nothing found, nothing is reported either,
    whatever the status or the failure; a request made with
    [XMLHttpRequest] is not completed in the log, but its status of 400
    or more is reported all the same, with the method and url it was
    opened with. *)
Theorem emptied_log_drops_fetch_failures (s : Tracker.state) (logId k : string)
    (status : Z) (statusText : string) (header a method url : value) (now : Z)
    (fh : Callback.heap) (reportErrors : bool) :
  holds (Tracker.log s, Tracker.st s) [] ->
  Network.fetchThen reportErrors logId k status statusText header now s = s
  /\ Network.fetchCatch reportErrors logId k a now fh s
     = (JS.or a (VObj ClsObject []), fh, s)
  /\ Network.onLoad reportErrors logId status statusText method url now s
     = (if reportErrors && (400 <=? status) && negb (status =? 1223)
        then Tracker.onError "ajax"
               (VStr (decimal status +:+ " : " +:+ to_string method +:+ " "
                      +:+ to_string url)) None now s
        else s).
Proof.
  intros H.
  assert (Hget : Log.get "n" logId (Tracker.log s) (Tracker.st s) = None).
  { unfold Log.get. pose proof (holds_entries _ _ H) as He. cbn [fst snd] in He.
    now rewrite He. }
  split; [| split].
  - unfold Network.fetchThen. now rewrite Hget.
  - unfold Network.fetchCatch. now rewrite Hget.
  - unfold Network.onLoad, Watchers.finalizeNetworkEvent. rewrite Hget.
    unfold Network.checkNetworkFault.
    assert (Hs : Tracker.set_store (Tracker.st s) s = s) by now destruct s.
    now rewrite Hs.
Qed.

Lemma emptied_log_drops_fetch_failures_witness :
  let s1 := Tracker.onError "window" errorX None 50 fetching in
  Network.fetchThen true "k1" "at app.js:1" 500 "Server Error" VUndef 60 s1 = s1.
Proof.
  exact (proj1
    (emptied_log_drops_fetch_failures
       (Tracker.onError "window" errorX None 50 fetching)
       "k1" "at app.js:1" 500 "Server Error" VUndef VUndef VUndef VUndef 60 [] true
       eq_refl)).
Defined.

(** ** Metadata *)

(** A store that still has the prototype of an object literal and holds
    nothing under [hasOwnProperty]: [report()] lists it. *)
Definition ordinary (b : Metadata.store) : Prop :=
  Metadata.plain b = true /\ Metadata.own b !! "hasOwnProperty" = None.

(** The list [report()] makes of the own properties. *)
Definition listing (ser : value -> string) (b : Metadata.store)
  : list (string * string) :=
  map (fun kv => (fst kv, ser (snd kv))) (map_to_list (Metadata.own b)).

Lemma report_ordinary ser b :
  ordinary b -> Metadata.report ser b = Some (inl (listing ser b)).
Proof. intros [H1 H2]. unfold Metadata.report. now rewrite H1, H2. Qed.

Lemma listing_lookup ser b k t :
  (k, t) ∈ listing ser b <-> exists v, Metadata.own b !! k = Some v /\ t = ser v.
Proof.
  unfold listing. rewrite list_elem_of_fmap. split.
  - intros ([k' v] & Heq & Hin). simpl in Heq. injection Heq as -> ->.
    apply elem_of_map_to_list in Hin. eauto.
  - intros (v & Hl & ->). exists (k, v). split; [reflexivity |].
    now apply elem_of_map_to_list.
Qed.

(** X22. The metadata store is a plain object, and two keys are not like
    the others.  For a store that has not met them and any other key:
    [report()] gives one [{ key, value }] per key that is set, the value
    being the serializer's text for what is stored, and no key comes
    twice; [addMetadata(k, v)] sets or replaces the entry of [k] and
    leaves every other entry as it is; [removeMetadata(k)] takes the
    entry of [k] away, and nothing else.  [addMetadata('__proto__', v)]
    stores no entry: it does nothing for a primitive [v], and for an
    object, a function or null it replaces the prototype of the store.
    [addMetadata('hasOwnProperty', v)] shadows the method that [report()]
    calls: unless [v] is a function, every later [report()] throws a
    [TypeError]. *)
Theorem metadata_report_tracks_store (ser : value -> string)
    (b : Metadata.store) (k : string) (v : value) :
  (ordinary b -> k <> "__proto__" -> k <> "hasOwnProperty" ->
   Metadata.report ser b = Some (inl (listing ser b))
   /\ Metadata.report ser (Metadata.addMetadata k v b)
      = Some (inl (listing ser (Metadata.addMetadata k v b)))
   /\ Metadata.report ser (Metadata.removeMetadata k b)
      = Some (inl (listing ser (Metadata.removeMetadata k b)))
   /\ NoDup (map fst (listing ser b))
   /\ (forall k' t,
         (k', t) ∈ listing ser (Metadata.addMetadata k v b)
         <-> (k' = k /\ t = ser v) \/ (k' <> k /\ (k', t) ∈ listing ser b))
   /\ (forall k' t,
         (k', t) ∈ listing ser (Metadata.removeMetadata k b)
         <-> k' <> k /\ (k', t) ∈ listing ser b))
  /\ (k <> "__proto__" ->
      Metadata.report ser
        (Metadata.removeMetadata k (Metadata.addMetadata k v Metadata.empty))
      = Some (inl []))
  /\ Metadata.own (Metadata.addMetadata "__proto__" v b) = Metadata.own b
  /\ match v with
     | VObj _ _ | VFun _ | VNull =>
         Metadata.plain (Metadata.addMetadata "__proto__" v b) = false
         /\ Metadata.report ser (Metadata.addMetadata "__proto__" v b) = None
     | _ => Metadata.addMetadata "__proto__" v b = b
     end
  /\ (Metadata.plain b = true ->
      Metadata.report ser (Metadata.addMetadata "hasOwnProperty" v b)
      = match v with
        | VFun _ => None
        | _ => Some (inr Metadata.notCallable)
        end).
Proof.
  split; [| split; [| split; [| split]]].
  - intros Ho Hk1 Hk2.
    assert (Ha : Metadata.addMetadata k v b
                 = Metadata.Store (<[k := v]> (Metadata.own b)) (Metadata.plain b)).
    { unfold Metadata.addMetadata. apply String.eqb_neq in Hk1. now rewrite Hk1. }
    split; [now apply report_ordinary |].
    split.
    { apply report_ordinary. rewrite Ha. destruct Ho as [H1 H2]. split; [exact H1 |].
      cbn [Metadata.own]. now rewrite lookup_insert_ne by congruence. }
    split.
    { apply report_ordinary. destruct Ho as [H1 H2]. split; [exact H1 |].
      unfold Metadata.removeMetadata. cbn [Metadata.own].
      now rewrite lookup_delete_ne by congruence. }
    split.
    { unfold listing. rewrite map_map. simpl. apply NoDup_fst_map_to_list. }
    split.
    + intros k' t. rewrite !listing_lookup, Ha. cbn [Metadata.own].
      destruct (decide (k' = k)) as [-> | Hne].
      * rewrite lookup_insert_eq. split.
        -- intros (v' & [= <-] & ->). now left.
        -- intros [[_ ->] | [Hc _]]; [eauto | congruence].
      * rewrite lookup_insert_ne by congruence. split.
        -- intros H. right. now split.
        -- intros [[Hc _] | [_ H]]; [congruence | exact H].
    + intros k' t. rewrite !listing_lookup. unfold Metadata.removeMetadata.
      cbn [Metadata.own].
      destruct (decide (k' = k)) as [-> | Hne].
      * rewrite lookup_delete_eq. split.
        -- intros (v' & Hc & _). discriminate.
        -- intros [Hc _]. congruence.
      * rewrite lookup_delete_ne by congruence. split.
        -- intros H. now split.
        -- intros [_ H]. exact H.
  - intros Hk. unfold Metadata.addMetadata. apply String.eqb_neq in Hk. rewrite Hk.
    unfold Metadata.removeMetadata, Metadata.empty, Metadata.report.
    cbn [Metadata.own Metadata.plain negb].
    rewrite delete_insert_eq, delete_empty, lookup_empty. now rewrite map_to_list_empty.
  - unfold Metadata.addMetadata. cbn [String.eqb Ascii.eqb Bool.eqb].
    now destruct v.
  - unfold Metadata.addMetadata. cbn [String.eqb Ascii.eqb Bool.eqb].
    destruct v; try reflexivity; (split; reflexivity).
  - intros Hp. unfold Metadata.addMetadata, Metadata.report.
    cbn [String.eqb Ascii.eqb Bool.eqb Metadata.own Metadata.plain].
    rewrite Hp, lookup_insert_eq. now destruct v.
Qed.

(** ** attempt and watch *)

(** [v.apply] is something that can be called: [v] is a function, or an
    object whose [apply] property is one. *)
Definition applicable (v : value) : bool :=
  match v with
  | VFun _ => true
  | VObj _ fs => Util.isFunction (assoc "apply" fs)
  | _ => false
  end.



(** ** A watched console method *)

Lemma consoleLog_holds ser d t sev arg lg st es :
  holds (lg, st) es -> Log.maxLength lg = 30 ->
  let r := Watchers.consoleLog ser d t sev arg lg st in
  holds r (newest 30 (es ++ [Log.Entry d "c" (length st)]))
  /\ Log.maxLength (fst r) = 30
  /\ stable st (snd r)
  /\ snd r !! length st
     = Some (Log.CObj [ ("timestamp", VNum t); ("severity", VStr sev);
                        ("message", VStr (ser arg)) ]).
Proof.
  intros H Hm r. unfold r, Watchers.consoleLog, Log.alloc.
  set (c := Log.CObj _).
  pose proof (holds_alloc lg st es c H) as H1.
  pose proof (holds_add d "c" (length st) lg _ _ H1 Hm) as H2.
  pose proof (stable_add d "c" (length st) lg _ _ H1) as H3.
  destruct (Log.add d "c" (length st) lg (st ++ [c])) as [[k lg'] st'].
  destruct H2 as (_ & H2 & Hm'). cbn [fst snd] in *.
  split; [exact H2 |]. split; [exact Hm' |]. split.
  - eapply stable_trans; [apply stable_alloc | exact H3].
  - apply H3; [apply lookup_alloc | discriminate].
Qed.

Lemma newest_snoc_S {A : Type} (n : nat) (l : list A) (x : A) :
  newest (S n) (l ++ [x]) = newest n l ++ [x].
Proof.
  unfold newest. rewrite length_app. cbn [length].
  rewrite skipn_app.
  replace (length l + 1 - S n)%nat with (length l - n)%nat by lia.
  replace (length l - n - length l)%nat with 0%nat by lia.
  reflexivity.
Qed.



(** ** validate *)

(** The test one flat property passes: supported, of the type the
    defaults have, and not init-only. *)
Definition accepted (b e : value) (cv : string * value) : bool :=
  Config.hasOwn b (fst cv)
  && String.eqb (Config.typeof (get b (fst cv))) (Config.typeof (snd cv))
  && negb (Config.hasOwn e (fst cv)).

Lemma check_flat_step nested cls bs e f c v :
  class_string v <> "[object Object]" ->
  Config.check nested (VObj cls bs) e (Some f) (c, v)
  = Some (f && accepted (VObj cls bs) e (c, v)).
Proof.
  intros Hv. unfold Config.check, accepted. cbn [fst snd].
  destruct (Config.hasOwn (VObj cls bs) c); cbn [andb];
    [| now rewrite andb_false_r].
  destruct (String.eqb (Config.typeof (get (VObj cls bs) c)) (Config.typeof v));
    cbn [negb andb]; [| now rewrite andb_false_r].
  destruct (String.eqb_spec (class_string v) "[object Object]") as [Heq | _];
    [contradiction |].
  destruct (Config.hasOwn e c); cbn [negb];
    [now rewrite andb_false_r | now rewrite andb_true_r].
Qed.

Lemma check_flat nested cls bs e (fs : list (string * value)) : forall f,
  Forall (fun cv => class_string (snd cv) <> "[object Object]") fs ->
  fold_left (Config.check nested (VObj cls bs) e) fs (Some f)
  = Some (f && forallb (accepted (VObj cls bs) e) fs).
Proof.
  induction fs as [| [c v] fs IH]; intros f Hflat.
  - simpl. now rewrite andb_true_r.
  - apply Forall_cons in Hflat. destruct Hflat as [Hv Hflat].
    cbn [fold_left forallb].
    rewrite (check_flat_step nested cls bs e f c v Hv), IH by assumption.
    now rewrite andb_assoc.
Qed.

(** A table of init-only options whose own properties its fields tell:
    a plain object, or a value that has none ([e || {}] puts the empty
    table in place of a falsy one). *)
Definition tabular (e : value) : Prop :=
  match e with
  | VObj ClsObject _ | VUndef | VNull | VBool _ | VNum _ => True
  | _ => False
  end.




(** The defaults and the init-only table, in part. *)
Definition someDefaults : value :=
  VObj ClsObject [ ("token", VStr ""); ("dedupe", VBool true);
                   ("console", VObj ClsObject [ ("enabled", VBool true);
                                                ("error", VBool true) ]) ].

Definition someInitOnly : value :=
  VObj ClsObject [ ("token", VBool true);
                   ("console", VObj ClsObject [ ("enabled", VBool true) ]) ].


Example validate_init_only :
  Config.validate (VObj ClsObject [ ("console", VObj ClsObject [ ("enabled", VBool false) ]) ])
                  someDefaults someInitOnly = Some false
  /\ Config.validate (VObj ClsObject [ ("console", VObj ClsObject [ ("error", VBool false) ]) ])
                     someDefaults someInitOnly = Some true
  /\ Config.validate (VObj ClsObject [ ("dedupe", VStr "no") ])
                     someDefaults someInitOnly = Some false.
Proof. repeat split; reflexivity. Qed.

(** A string as config: its characters are visited under their indices,
    which the defaults do not have. *)
Example validate_string_config :
  Config.validate (VStr "") someDefaults VUndef = Some true
  /\ Config.validate (VStr "on") someDefaults VUndef = Some false.
Proof. split; reflexivity. Qed.

(** ** Requests made with XMLHttpRequest *)

(** X27. A request made with [XMLHttpRequest], from [send] to
    completion.  The request is logged when it is sent, under a key no
    other network entry bears; each time [finalizeNetworkEvent] runs for
    it (on [readystatechange] at state 4 and again on [load]) the same
    object is found by that key and written in place: type, start time,
    method and url stay as logged, and completion time, status and status
    text are those of the latest run, the status 1223 being recorded as
    204 'No Content'. *)
Theorem xhr_completion_recorded (lg : Log.t) (st : Log.store)
    (es : list Log.entry) (d : string) (t0 : Z) (method url : string)
    (t1 t2 status1 status2 : Z) (text1 text2 : string) :
  holds (lg, st) es -> Log.maxLength lg = 30 ->
  (forall en, en ∈ es -> ~ (Log.category en = "n" /\ Log.key en = d)) ->
  let started := Watchers.networkStart d t0 method url lg st in
  let key := fst (fst started) in
  let lg1 := snd (fst started) in
  let o := length st in
  let record t status text :=
    [ ("type", VStr "xhr"); ("startedOn", VNum t0); ("method", VStr method);
      ("url", VStr (Util.truncate (VStr url) 2000));
      ("completedOn", VNum t);
      ("statusCode", VNum (if status =? 1223 then 204 else status));
      ("statusText", VStr (if status =? 1223 then "No Content" else text)) ] in
  let st2 := Watchers.finalizeNetworkEvent key t1 status1 text1 lg1 (snd started) in
  let st3 := Watchers.finalizeNetworkEvent key t2 status2 text2 lg1 st2 in
  key = d
  /\ Log.get "n" d lg1 st3 = Some o
  /\ Log.fields st2 o = record t1 status1 text1
  /\ Log.fields st3 o = record t2 status2 text2.
Proof.
  intros H Hm Hfresh started key lg1 o record st2 st3.
  set (u := Util.truncate (VStr url) 2000) in *.
  set (c := Log.CObj [ ("type", VStr "xhr"); ("startedOn", VNum t0);
                       ("method", VStr method); ("url", VStr u) ]).
  assert (Hstart : started = Log.add d "n" o lg (st ++ [c])) by reflexivity.
  destruct (add_fresh d "n" c lg st es H Hm Hfresh ltac:(discriminate))
    as (A1 & (es' & A2) & A3 & A4 & A5 & A6).
  fold o in A1, A2, A3, A4, A5, A6. rewrite <- Hstart in A1, A2, A3, A4, A5, A6.
  fold key in A1. fold lg1 in A2, A3, A6.
  assert (E2 : st2 = <[o := Log.CObj (record t1 status1 text1)]> (snd started)).
  { unfold st2, Watchers.finalizeNetworkEvent. rewrite A1, A6.
    unfold Log.fields. rewrite A4. clearbody u. reflexivity. }
  destruct (get_rewrite "n" d lg1 (snd started) es' o _ (record t1 status1 text1) A2 A4)
    as [B2 G2].
  rewrite <- E2 in B2, G2.
  assert (L2 : st2 !! o = Some (Log.CObj (record t1 status1 text1)))
    by (rewrite E2; now apply list_lookup_insert_eq).
  assert (E3 : st3 = <[o := Log.CObj (record t2 status2 text2)]> st2).
  { unfold st3, Watchers.finalizeNetworkEvent. rewrite A1, G2, A6.
    unfold Log.fields. rewrite L2. clearbody u. reflexivity. }
  destruct (get_rewrite "n" d lg1 st2 es' o _ (record t2 status2 text2) B2 L2)
    as [_ G3].
  rewrite <- E3 in G3.
  split; [exact A1 |]. split; [now rewrite G3, G2 |]. split.
  - unfold Log.fields. now rewrite L2.
  - unfold Log.fields. rewrite E3, list_lookup_insert_eq; [reflexivity |].
    rewrite E2, length_insert. exact A5.
Qed.

Lemma xhr_completion_recorded_witness :
  let started := Watchers.networkStart "k1" 10 "POST" "/api/save" (fst (Log.new []))
                   (snd (Log.new [])) in
  let st2 := Watchers.finalizeNetworkEvent "k1" 30 1223 "Unknown" (snd (fst started))
               (snd started) in
  Log.fields (Watchers.finalizeNetworkEvent "k1" 31 1223 "Unknown" (snd (fst started)) st2)
             1%nat
  = [ ("type", VStr "xhr"); ("startedOn", VNum 10); ("method", VStr "POST");
      ("url", VStr "/api/save"); ("completedOn", VNum 31);
      ("statusCode", VNum 204); ("statusText", VStr "No Content") ].
Proof.
  exact (proj2 (proj2 (proj2
    (xhr_completion_recorded (fst (Log.new [])) (snd (Log.new [])) []
       "k1" 10 "POST" "/api/save" 30 31 1223 1223 "Unknown" "Unknown"
       eq_refl eq_refl
       ltac:(intros en Hen; now apply elem_of_nil in Hen))))).
Defined.
